(** * CBaseBoard: the chessboard of the knight's tour / tourney generator

    A shallow embedding of [Code/BaseBoard.cpp].  The board is a record
    holding the two move tables; every member function becomes a function
    on that record.  Table accesses outside the allocated range and reads
    through a null secondary table are undefined behaviour in C++ and are
    made explicit as the outcome [Undefined]; a failing [assert] is the
    outcome [AssertFail]; the one loop without an a-priori bound (the
    cycle walk of [MakeUndirected]) runs on fuel. *)

From Stdlib Require Import ZArith Lia.
From stdpp Require Import base list numbers.

Local Open Scope Z_scope.

(** ** Machine integers

    [int] and [unsigned] are 32 bits wide.  Values are kept in [Z]; the
    conversions between the two types are written out where the source
    mixes them. *)

Definition INT_MAX : Z := 2 ^ 31 - 1.

(** Conversion of an integer to [unsigned]. *)
Definition to_unsigned (z : Z) : Z := z mod 2 ^ 32.

(** Conversion of an integer to [int] (two's complement). *)
Definition to_int (z : Z) : Z := (z + 2 ^ 31) mod 2 ^ 32 - 2 ^ 31.

(** Modelled from the spec: the sentinel [UNUSED] is declared in
    [Defines.h], which is not part of the sources at hand; the spec gives
    its value as -1. *)
Definition UNUSED : Z := -1.

(** A knight's move as a pair of horizontal and vertical offsets
    ([std::pair<int, int>]). *)
Definition MoveDelta : Type := (Z * Z)%type.

(** Modelled from the spec: [g_vecDeltas] is an [extern] table defined
    outside [BaseBoard.cpp]; the spec fixes its eight entries and their
    order (index 0 is dx=2,dy=-1, ..., index 7 is dx=2,dy=1). *)
Definition g_vecDeltas : list MoveDelta :=
  [ (2, -1); (1, -2); (-1, -2); (-2, -1); (-2, 1); (-1, 2); (1, 2); (2, 1) ].

(** ** Outcomes of a call *)

Inductive res (A : Type) : Type :=
| Ok (a : A)    (* the call returns [a] *)
| AssertFail    (* an [assert] failed *)
| Undefined     (* out-of-bounds or null table access, division by zero *)
| OutOfFuel.    (* the model ran out of fuel *)

Arguments Ok {A} a.
Arguments AssertFail {A}.
Arguments Undefined {A}.
Arguments OutOfFuel {A}.

#[global] Instance res_ret : MRet res := @Ok.

#[global] Instance res_bind : MBind res := λ A B k r,
  match r with
  | Ok a => k a
  | AssertFail => AssertFail
  | Undefined => Undefined
  | OutOfFuel => OutOfFuel
  end.

(** [assert(c)]: checked unless the program is compiled with [NDEBUG]. *)
Definition assert_ (ndebug c : bool) : res unit :=
  if ndebug || c then Ok () else AssertFail.

(** ** Loops *)

(** The state of a loop whose body may [return] from the function. *)
Inductive ctl (S R : Type) : Type :=
| Continue (s : S)
| Return (r : R).

Arguments Continue {S R} s.
Arguments Return {S R} r.

(** [while(cond){body}]. *)
Fixpoint while_ {S R : Type} (fuel : nat) (cond : S → bool)
    (body : S → res (ctl S R)) (s : S) : res (ctl S R) :=
  if cond s then
    match fuel with
    | O => OutOfFuel
    | Datatypes.S f =>
        c ← body s;
        match c with
        | Continue s' => while_ f cond body s'
        | Return r => Ok (Return r)
        end
    end
  else Ok (Continue s).

(** [for(unsigned i = i0; i < i0 + k && guard; i++){body}]: [k] is the
    number of indices left below the bound.  The bound is always
    [m_nSize], so the counter cannot wrap around. *)
Fixpoint for_ {S : Type} (k : nat) (i : Z) (guard : S → bool)
    (body : Z → S → res S) (s : S) : res S :=
  match k with
  | O => Ok s
  | Datatypes.S k' =>
      if guard s then s' ← body i s; for_ k' (i + 1) guard body s'
      else Ok s
  end.

(** ** Tables *)

(** [t[i]] as an rvalue. *)
Definition rd (t : list Z) (i : Z) : res Z :=
  if 0 <=? i then
    match t !! Z.to_nat i with
    | Some v => Ok v
    | None => Undefined
    end
  else Undefined.

(** [t[i] = v]. *)
Definition wr (t : list Z) (i v : Z) : res (list Z) :=
  if (0 <=? i) && (i <? Z.of_nat (length t)) then Ok (<[Z.to_nat i := v]> t)
  else Undefined.

(** ** The board *)

Record CBaseBoard : Type := {
  m_nWidth : Z;                (* unsigned *)
  m_nHeight : Z;               (* unsigned *)
  m_nSize : Z;                 (* unsigned *)
  m_nMove : list Z;            (* primary move table; empty if not allocated *)
  m_nMove2 : option (list Z)   (* secondary move table; [None] is nullptr *)
}.

Definition with_move (b : CBaseBoard) (t : list Z) : CBaseBoard :=
  {| m_nWidth := m_nWidth b; m_nHeight := m_nHeight b; m_nSize := m_nSize b;
     m_nMove := t; m_nMove2 := m_nMove2 b |}.

Definition with_move2 (b : CBaseBoard) (t2 : option (list Z)) : CBaseBoard :=
  {| m_nWidth := m_nWidth b; m_nHeight := m_nHeight b; m_nSize := m_nSize b;
     m_nMove := m_nMove b; m_nMove2 := t2 |}.

(** [m_nMove2[i]] as an rvalue. *)
Definition rd2 (b : CBaseBoard) (i : Z) : res Z :=
  match m_nMove2 b with
  | Some t2 => rd t2 i
  | None => Undefined
  end.

(** [m_nMove[i] = v]. *)
Definition wr1 (b : CBaseBoard) (i v : Z) : res CBaseBoard :=
  t ← wr (m_nMove b) i v; Ok (with_move b t).

(** [m_nMove2[i] = v]. *)
Definition wr2 (b : CBaseBoard) (i v : Z) : res CBaseBoard :=
  match m_nMove2 b with
  | Some t2 => t ← wr t2 i v; Ok (with_move2 b (Some t))
  | None => Undefined
  end.

(** [CBaseBoard(int move[], unsigned w, unsigned h)]; [move] holds the
    first [w*h] cells of the caller's array. *)
Definition CBaseBoard_from (move : list Z) (w h : Z) : CBaseBoard :=
  let n := to_unsigned (w * h) in
  {| m_nWidth := w; m_nHeight := h; m_nSize := n;
     m_nMove := if Z.land n 1 =? 0 then take (Z.to_nat n) move else [];
     m_nMove2 := None |}.

(** [CBaseBoard(unsigned w, unsigned h)]. *)
Definition CBaseBoard_new (w h : Z) : CBaseBoard :=
  let n := to_unsigned (w * h) in
  {| m_nWidth := w; m_nHeight := h; m_nSize := n;
     m_nMove := if Z.land n 1 =? 0 then replicate (Z.to_nat n) UNUSED else [];
     m_nMove2 := None |}.

Definition CellIndexInRange (b : CBaseBoard) (index : Z) : bool :=
  (0 <=? index) && (index <? to_int (m_nSize b)).

Definition InRangeX (b : CBaseBoard) (x : Z) : bool :=
  (0 <=? x) && (x <? to_int (m_nWidth b)).

Definition InRangeY (b : CBaseBoard) (y : Z) : bool :=
  (0 <=? y) && (y <? to_int (m_nHeight b)).

Definition IsUndirected (b : CBaseBoard) : bool :=
  match m_nMove2 b with None => true | Some _ => false end.

Definition IsDirected (b : CBaseBoard) : bool := negb (IsUndirected b).

(** [a || b] on outcomes, evaluated left to right with short circuit. *)
Definition orelse (x y : res bool) : res bool :=
  v ← x; if v : bool then Ok true else y.

Definition eqv (x : res Z) (j : Z) : res bool := v ← x; Ok (v =? j).

Definition IsMove (b : CBaseBoard) (i j : Z) : res bool :=
  if CellIndexInRange b i && CellIndexInRange b j then
    orelse (eqv (rd (m_nMove b) i) j)
      (orelse (eqv (rd2 b i) j)
         (orelse (eqv (rd (m_nMove b) j) i) (eqv (rd2 b j) i)))
  else Ok false.

Section Assertions.

(** [ndebug] is [true] when the program is compiled with [NDEBUG]
    defined, which turns every [assert] into a no-op. *)
Variable ndebug : bool.

Definition IsUnused (b : CBaseBoard) (index : Z) : res bool :=
  _ ← assert_ ndebug (IsDirected b);
  if CellIndexInRange b index then
    v ← rd (m_nMove b) index; Ok (v =? UNUSED)
  else Ok false.

(** [operator[]]. *)
Definition GetMove (b : CBaseBoard) (index : Z) : res Z :=
  _ ← assert_ ndebug (IsUndirected b);
  if CellIndexInRange b index then rd (m_nMove b) index else Ok UNUSED.

Definition InsertUndirectedMove (b : CBaseBoard) (src dest : Z)
    : res (bool * CBaseBoard) :=
  _ ← assert_ ndebug (IsUndirected b);
  vs ← rd (m_nMove b) src;
  if vs <? 0 then
    b' ← wr1 b src dest; Ok (true, b')
  else
    vd ← rd (m_nMove b) dest;
    if vd <? 0 then
      b' ← wr1 b dest src; Ok (true, b')
    else Ok (false, b).

Definition InsertDirectedMove (b : CBaseBoard) (src dest : Z)
    : res (bool * CBaseBoard) :=
  _ ← assert_ ndebug (IsDirected b);
  vs ← rd (m_nMove b) src;
  r ← (if vs <? 0 then
         b' ← wr1 b src dest; Ok (Continue b')
       else
         vs2 ← rd2 b src;
         if vs2 <? 0 then
           b' ← wr2 b src dest; Ok (Continue b')
         else Ok (Return false));
  match r with
  | Return v => Ok (v, b)
  | Continue b1 =>
      vd ← rd (m_nMove b1) dest;
      if vd <? 0 then
        b' ← wr1 b1 dest src; Ok (true, b')
      else
        vd2 ← rd2 b1 dest;
        if vd2 <? 0 then
          b' ← wr2 b1 dest src; Ok (true, b')
        else Ok (false, b1)
  end.

End Assertions.

(** [DeleteMove] works on both kinds of board and asserts nothing. *)
Definition DeleteMove (b : CBaseBoard) (src dest : Z)
    : res (bool * CBaseBoard) :=
  vs ← rd (m_nMove b) src;
  b1 ← (if vs =? dest then wr1 b src UNUSED else Ok b);
  vd ← rd (m_nMove b1) dest;
  b2 ← (if vd =? src then wr1 b1 dest UNUSED else Ok b1);
  if IsDirected b2 then
    present ← IsMove b2 src dest;
    if negb present then Ok (false, b2)
    else
      vs2 ← rd2 b2 src;
      b3 ← (if vs2 =? dest then wr2 b2 src UNUSED else Ok b2);
      vd2 ← rd2 b3 dest;
      b4 ← (if vd2 =? src then wr2 b3 dest UNUSED else Ok b3);
      Ok (true, b4)
  else Ok (true, b2).

(** ** Coordinates and move indices *)

(** Arithmetic on [unsigned] operands. *)
Definition uadd (a b : Z) : Z := to_unsigned (a + b).
Definition usub (a b : Z) : Z := to_unsigned (a - b).
Definition umul (a b : Z) : Z := to_unsigned (a * b).

(** [i % m_nWidth] and [i / m_nWidth] for an [int i]: the usual arithmetic
    conversions turn [i] into an [unsigned] first. *)
Definition col (b : CBaseBoard) (i : Z) : Z := to_unsigned i mod m_nWidth b.
Definition row (b : CBaseBoard) (i : Z) : Z := to_unsigned i / m_nWidth b.

Definition GetDest (b : CBaseBoard) (i : Z) (delta : MoveDelta) : res Z :=
  if m_nWidth b =? 0 then Undefined
  else
    let x := to_int (uadd (col b i) (to_unsigned delta.1)) in
    let y := to_int (uadd (row b i) (to_unsigned delta.2)) in
    if InRangeX b x && InRangeY b y then
      Ok (to_int (uadd (umul (to_unsigned y) (m_nWidth b)) (to_unsigned x)))
    else Ok UNUSED.

Definition GetMoveIndex (b : CBaseBoard) (src dest : Z) : res Z :=
  if m_nWidth b =? 0 then Undefined
  else
    let dx := to_int (usub (col b dest) (col b src)) in
    let dy := to_int (usub (row b dest) (row b src)) in
    Ok (if dx =? -2 then
          if dy =? -1 then 3 else if dy =? 1 then 4 else UNUSED
        else if dx =? -1 then
          if dy =? -2 then 2 else if dy =? 2 then 5 else UNUSED
        else if dx =? 1 then
          if dy =? -2 then 1 else if dy =? 2 then 6 else UNUSED
        else if dx =? 2 then
          if dy =? -1 then 0 else if dy =? 1 then 7 else UNUSED
        else UNUSED).

(** ** Tour and tourney tests *)

Record tour_state : Type := {
  ts_prev : Z;
  ts_cur : Z;
  ts_count : Z
}.

Definition IsTour_cond (b : CBaseBoard) (s : tour_state) : bool :=
  (ts_count s <? m_nSize b) && CellIndexInRange b (ts_cur s)
  && negb (ts_cur s =? 0).

Definition IsTour_body (b : CBaseBoard) (s : tour_state)
    : res (ctl tour_state bool) :=
  dest0 ← rd (m_nMove b) (ts_cur s);
  let newprev := ts_cur s in
  if dest0 =? ts_prev s then
    if IsUndirected b then Ok (Return false)
    else
      cur ← rd2 b (ts_cur s);
      Ok (Continue {| ts_prev := newprev; ts_cur := cur;
                      ts_count := ts_count s + 1 |})
  else
    Ok (Continue {| ts_prev := newprev; ts_cur := dest0;
                    ts_count := ts_count s + 1 |}).

(** The loop of [IsTour] stops when [count] reaches [m_nSize], so
    [m_nSize] iterations are all the fuel it can use. *)
Definition IsTour (b : CBaseBoard) : res bool :=
  cur ← rd (m_nMove b) 0;
  r ← while_ (Z.to_nat (m_nSize b)) (IsTour_cond b) (IsTour_body b)
        {| ts_prev := 0; ts_cur := cur; ts_count := 1 |};
  match r with
  | Return v => Ok v
  | Continue s => Ok ((ts_count s =? m_nSize b) && (ts_cur s =? 0))
  end.

(** [++count[i]]; the counters are [int]s, and signed overflow is
    undefined. *)
Definition incr (count : list Z) (i : Z) : res (list Z) :=
  v ← rd count i;
  if v <? INT_MAX then wr count i (v + 1) else Undefined.

Definition IsTourney_undirected_step (b : CBaseBoard) (i : Z)
    (s : list Z * bool) : res (list Z * bool) :=
  v ← rd (m_nMove b) i;
  if CellIndexInRange b v then
    count ← incr s.1 i; count ← incr count v; Ok (count, s.2)
  else Ok (s.1, false).

Definition IsTourney_directed_step (b : CBaseBoard) (i : Z)
    (s : list Z * bool) : res (list Z * bool) :=
  v ← rd (m_nMove b) i;
  s1 ← (if CellIndexInRange b v then count ← incr s.1 v; Ok (count, s.2)
        else Ok (s.1, false));
  v2 ← rd2 b i;
  if CellIndexInRange b v2 then count ← incr s1.1 v2; Ok (count, s1.2)
  else Ok (s1.1, false).

Definition IsTourney_degree_step (count : list Z) (i : Z) (bDegree2 : bool)
    : res bool :=
  c ← rd count i; Ok (if negb (c =? 2) then false else bDegree2).

Definition IsTourney (b : CBaseBoard) : res bool :=
  let n := Z.to_nat (m_nSize b) in
  s ← for_ n 0 snd
        (if IsUndirected b then IsTourney_undirected_step b
         else IsTourney_directed_step b)
        (replicate n 0, true);
  if negb s.2 then Ok false
  else for_ n 0 (λ _, true) (IsTourney_degree_step s.1) true.

(** ** Conversion between undirected and directed boards *)

Definition MakeDirected_step (b : CBaseBoard) (i : Z) (t2 : list Z)
    : res (list Z) :=
  v ← rd (m_nMove b) i;
  if CellIndexInRange b v then wr t2 v i else Ok t2.

Definition MakeDirected (b : CBaseBoard) : res CBaseBoard :=
  if IsUndirected b then
    let n := Z.to_nat (m_nSize b) in
    t2 ← for_ n 0 (λ _, true) (MakeDirected_step b) (replicate n UNUSED);
    Ok (with_move2 b (Some t2))
  else Ok b.

Record walk_state : Type := {
  ws_prev : Z;
  ws_cur : Z;
  ws_temp : list Z
}.

Definition MakeUndirected_cond (b : CBaseBoard) (start : Z) (s : walk_state)
    : bool :=
  CellIndexInRange b (ws_cur s) && negb (ws_cur s =? start).

Definition MakeUndirected_body (b : CBaseBoard) (s : walk_state)
    : res (ctl walk_state Empty_set) :=
  temp ← wr (ws_temp s) (ws_prev s) (ws_cur s);
  v ← rd (m_nMove b) (ws_cur s);
  dest0 ← (if v =? ws_prev s then rd2 b (ws_cur s) else rd (m_nMove b) (ws_cur s));
  Ok (Continue {| ws_prev := ws_cur s; ws_cur := dest0; ws_temp := temp |}).

Definition MakeUndirected_step (fuel : nat) (b : CBaseBoard) (start : Z)
    (temp : list Z) : res (list Z) :=
  v ← rd temp start;
  if v =? UNUSED then
    cur ← rd (m_nMove b) start;
    r ← while_ fuel (MakeUndirected_cond b start) (MakeUndirected_body b)
          {| ws_prev := start; ws_cur := cur; ws_temp := temp |};
    match r with
    | Continue s =>
        if CellIndexInRange b (ws_prev s) && CellIndexInRange b (ws_cur s)
        then wr (ws_temp s) (ws_prev s) (ws_cur s)
        else Ok (ws_temp s)
    | Return e => match e : Empty_set with end
    end
  else Ok temp.

(** [fuel] bounds the number of iterations of each cycle walk. *)
Definition MakeUndirected (fuel : nat) (b : CBaseBoard) : res CBaseBoard :=
  if IsDirected b then
    tourney ← IsTourney b;
    if tourney : bool then
      let n := Z.to_nat (m_nSize b) in
      temp ← for_ n 0 (λ _, true) (MakeUndirected_step fuel b)
               (replicate n UNUSED);
      Ok (with_move2 (with_move b temp) None)
    else Ok b
  else Ok b.

(** ** The remaining queries and operations *)

Definition INT_MIN : Z := - 2 ^ 31.

(** Arithmetic on [int] operands; signed overflow is undefined. *)
Definition in_int (z : Z) : bool := (INT_MIN <=? z) && (z <=? INT_MAX).

Definition sadd (a b : Z) : res Z :=
  if in_int (a + b) then Ok (a + b) else Undefined.

Definition smul (a b : Z) : res Z :=
  if in_int (a * b) then Ok (a * b) else Undefined.

(** [a / b] and [a % b] on [int]s truncate towards zero. *)
Definition sdiv (a b : Z) : res Z :=
  if (b =? 0) || ((a =? INT_MIN) && (b =? -1)) then Undefined
  else Ok (Z.quot a b).

Definition srem (a b : Z) : res Z :=
  if (b =? 0) || ((a =? INT_MIN) && (b =? -1)) then Undefined
  else Ok (Z.rem a b).

(** [for(A x: l){body}]. *)
Fixpoint foreach {A S : Type} (l : list A) (body : A → S → res S) (s : S)
    : res S :=
  match l with
  | [] => Ok s
  | x :: l' => s' ← body x s; foreach l' body s'
  end.

(** [Clear]: every primary slot becomes [UNUSED] and the secondary table
    is deleted. *)
Definition Clear (b : CBaseBoard) : res CBaseBoard :=
  t ← for_ (Z.to_nat (m_nSize b)) 0 (λ _, true) (λ i t, wr t i UNUSED)
        (m_nMove b);
  Ok (with_move2 (with_move b t) None).

(** [IsUnused(int pos, const MoveDelta& d)]; the table index
    [y*m_nWidth + x] is an [unsigned]. *)
Definition IsUnused_delta (ndebug : bool) (b : CBaseBoard) (pos : Z)
    (d : MoveDelta) : res bool :=
  _ ← assert_ ndebug (IsUndirected b);
  if negb (CellIndexInRange b pos) then Ok false
  else if m_nWidth b =? 0 then Undefined
  else
    let x := to_int (uadd (col b pos) (to_unsigned d.1)) in
    let y := to_int (uadd (row b pos) (to_unsigned d.2)) in
    if InRangeX b x && InRangeY b y then
      v ← rd (m_nMove b) (uadd (umul (to_unsigned y) (m_nWidth b)) (to_unsigned x));
      Ok (v =? UNUSED)
    else Ok false.

Definition IsOnBoard (ndebug : bool) (b : CBaseBoard) (pos : Z)
    (d : MoveDelta) : res bool :=
  _ ← assert_ ndebug (IsUndirected b);
  if negb (CellIndexInRange b pos) then Ok false
  else if m_nWidth b =? 0 then Undefined
  else
    let x := to_int (uadd (col b pos) (to_unsigned d.1)) in
    let y := to_int (uadd (row b pos) (to_unsigned d.2)) in
    Ok (InRangeX b x && InRangeY b y).

(** The loop of [IsKnightMove] over the move deltas [ds] still to try;
    the comparison [j == y*m_nWidth + x] is made on [unsigned]s. *)
Fixpoint IsKnightMove_loop (ndebug : bool) (b : CBaseBoard) (i j : Z)
    (ds : list MoveDelta) : res bool :=
  match ds with
  | [] => Ok false
  | delta :: ds' =>
      on ← IsOnBoard ndebug b i delta;
      if on : bool then
        let x := to_int (uadd (col b i) (to_unsigned delta.1)) in
        let y := to_int (uadd (row b i) (to_unsigned delta.2)) in
        if to_unsigned j =? uadd (umul (to_unsigned y) (m_nWidth b)) (to_unsigned x)
        then Ok true
        else IsKnightMove_loop ndebug b i j ds'
      else IsKnightMove_loop ndebug b i j ds'
  end.

Definition IsKnightMove (ndebug : bool) (b : CBaseBoard) (i j : Z) : res bool :=
  let n := to_int (m_nSize b) in
  if (0 <=? i) && (i <? n) && (0 <=? j) && (j <? n) then
    IsKnightMove_loop ndebug b i j g_vecDeltas
  else Ok false.

Definition GetAvailableMoveCount_step (b : CBaseBoard) (x0 y0 : Z)
    (delta : MoveDelta) (count : Z) : res Z :=
  x ← sadd x0 delta.1;
  y ← sadd y0 delta.2;
  let dest := to_int (uadd (umul (to_unsigned y) (m_nWidth b)) (to_unsigned x)) in
  if InRangeX b x && InRangeY b y then
    v ← rd (m_nMove b) dest;
    if v =? UNUSED then sadd count 1 else Ok count
  else Ok count.

Definition GetAvailableMoveCount (ndebug : bool) (b : CBaseBoard) (index : Z)
    : res Z :=
  _ ← assert_ ndebug (IsUndirected b);
  if m_nWidth b =? 0 then Undefined
  else
    let x0 := to_int (col b index) in
    let y0 := to_int (row b index) in
    foreach g_vecDeltas (GetAvailableMoveCount_step b x0 y0) 0.

(** The body of the two loops of [CopyToSubBoard]: the move of cell
    [(bsrcx, bsrcy)] of [other] is inserted into [b], shifted by
    [(x0, y0)]; what the insertion returns is dropped. *)
Definition CopyToSubBoard_cell (ndebug : bool) (other : CBaseBoard)
    (x0 y0 w bsrcy bsrcx : Z) (b : CBaseBoard) : res CBaseBoard :=
  rowstart ← smul bsrcy w;
  bsrc ← sadd rowstart bsrcx;
  bdest ← GetMove ndebug other bsrc;
  bdestx ← srem bdest w;
  bdesty ← sdiv bdest w;
  srcx ← sadd bsrcx x0;
  srcy ← sadd bsrcy y0;
  destx ← sadd bdestx x0;
  desty ← sadd bdesty y0;
  let src := to_int (uadd (umul (to_unsigned srcy) (m_nWidth b)) (to_unsigned srcx)) in
  let dest := to_int (uadd (umul (to_unsigned desty) (m_nWidth b)) (to_unsigned destx)) in
  r ← (if IsDirected b then InsertDirectedMove ndebug b src dest
       else InsertUndirectedMove ndebug b src dest);
  Ok r.2.

Definition CopyToSubBoard (ndebug : bool) (b other : CBaseBoard) (x0 y0 : Z)
    : res CBaseBoard :=
  _ ← assert_ ndebug (IsUndirected other);
  let w := to_int (m_nWidth other) in
  let h := to_int (m_nHeight other) in
  for_ (Z.to_nat h) 0 (λ _, true)
    (λ bsrcy b1,
       for_ (Z.to_nat w) 0 (λ _, true)
         (λ bsrcx b2, CopyToSubBoard_cell ndebug other x0 y0 w bsrcy bsrcx b2)
         b1)
    b.

(** ** Well-formed boards and the vocabulary of the specification *)

(** A cell index is valid iff [0 <= index < n]. *)
Definition valid_cell (b : CBaseBoard) (i : Z) : Prop := 0 ≤ i < m_nSize b.

(** The boards the functions are meant for: dimensions whose product is
    the size, tables allocated with one slot per cell, and a size small
    enough for [int] cell indices and for the degree counters of
    [IsTourney]. *)
Definition board_shape (b : CBaseBoard) : Prop :=
  0 ≤ m_nWidth b ∧ 0 ≤ m_nHeight b
  ∧ m_nSize b = m_nWidth b * m_nHeight b
  ∧ 2 * m_nSize b ≤ INT_MAX
  ∧ Z.of_nat (length (m_nMove b)) = m_nSize b
  ∧ ∀ t2, m_nMove2 b = Some t2 → Z.of_nat (length t2) = m_nSize b.

(** A table slot holds a destination cell or the sentinel. *)
Definition table_ok (t : list Z) : Prop := Forall (λ v, UNUSED ≤ v) t.

(** *** Tours *)

(** The move the walk of a tour takes at [cur] when it came from [prev]:
    the primary slot, or on a directed board the secondary slot when the
    primary one leads straight back. *)
Definition succ_cell (b : CBaseBoard) (prev cur : Z) : res Z :=
  dest0 ← rd (m_nMove b) cur;
  if (dest0 =? prev) && IsDirected b then rd2 b cur else Ok dest0.

(** [walk b prev cur cells]: standing on [cur], having come from [prev],
    the walk visits [cells] one after the other and is then back at cell
    0. *)
Inductive walk (b : CBaseBoard) : Z → Z → list Z → Prop :=
| walk_home prev : walk b prev 0 []
| walk_step prev cur nxt cells :
    succ_cell b prev cur = Ok nxt →
    walk b cur nxt cells →
    walk b prev cur (cur :: cells).

(** The walk from cell 0 along the recorded moves is closed and visits
    [cells] after cell 0. *)
Definition closed_walk (b : CBaseBoard) (cells : list Z) : Prop :=
  ∃ c1, rd (m_nMove b) 0 = Ok c1 ∧ walk b 0 c1 cells.

(** The moves of the board form a single Hamiltonian cycle: the closed
    walk from cell 0 visits [n] cells, all of them valid and no two the
    same. *)
Definition hamiltonian_cycle (b : CBaseBoard) : Prop :=
  ∃ cells,
    closed_walk b cells
    ∧ Z.of_nat (length (0 :: cells)) = m_nSize b
    ∧ Forall (valid_cell b) (0 :: cells)
    ∧ NoDup (0 :: cells).

(** The primary table encodes the cycle [0 -> 1 -> ... -> n-1 -> 0]. *)
Definition primary_cycle (b : CBaseBoard) : Prop :=
  ∀ i, valid_cell b i → rd (m_nMove b) i = Ok ((i + 1) mod m_nSize b).

(** *** Tourneys *)

(** The entries of a table, each with the cell that owns the slot; the
    first slot of [t] belongs to cell [i]. *)
Fixpoint entries_from (i : Z) (t : list Z) : list (Z * Z) :=
  match t with
  | [] => []
  | v :: t' => (i, v) :: entries_from (i + 1) t'
  end.

Definition entries (t : list Z) : list (Z * Z) := entries_from 0 t.

(** All recorded table entries of a board. *)
Definition all_entries (b : CBaseBoard) : list (Z * Z) :=
  entries (m_nMove b) ++ entries (default [] (m_nMove2 b)).

Definition indicator (P : bool) : Z := if P then 1 else 0.

(** Every entry counts once for each of its two endpoints that is [c]. *)
Definition count_both (es : list (Z * Z)) (c : Z) : Z :=
  foldr (λ e acc, indicator (e.1 =? c) + indicator (e.2 =? c) + acc) 0 es.

(** Every entry counts once if its destination is [c]. *)
Definition count_dest (es : list (Z * Z)) (c : Z) : Z :=
  foldr (λ e acc, indicator (e.2 =? c) + acc) 0 es.

(** The degree of cell [c] as the specification words it: the number of
    incident recorded edges, counted over both endpoints of every table
    entry. *)
Definition degree_both_endpoints (b : CBaseBoard) (c : Z) : Z :=
  count_both (all_entries b) c.

(** The number of table entries whose destination is [c]. *)
Definition degree_destinations (b : CBaseBoard) (c : Z) : Z :=
  count_dest (all_entries b) c.

(** The degree [IsTourney] counts: both endpoints of every entry on an
    undirected board, the destination of every entry on a directed one
    (where an edge appears in the slots of both its ends). *)
Definition degree (b : CBaseBoard) (c : Z) : Z :=
  if IsUndirected b then degree_both_endpoints b c
  else degree_destinations b c.

(** Every entry of the primary table, and of the secondary table of a
    directed board, is a valid cell. *)
Definition all_cells_used (b : CBaseBoard) : Prop :=
  Forall (λ e, valid_cell b e.2) (all_entries b).

(** *** Edges *)

(** The undirected edge [{i,j}] is recorded in the table of an undirected
    board: one of the two cells stores the other. *)
Definition edge (b : CBaseBoard) (i j : Z) : Prop :=
  rd (m_nMove b) i = Ok j ∨ rd (m_nMove b) j = Ok i.

(** The move between [src] and [dest] is recorded in no table. *)
Definition move_absent (b : CBaseBoard) (src dest : Z) : Prop :=
  rd (m_nMove b) src ≠ Ok dest ∧ rd (m_nMove b) dest ≠ Ok src
  ∧ rd2 b src ≠ Ok dest ∧ rd2 b dest ≠ Ok src.

(** The primary table after [t[i]] has been cleared if it held [j]. *)
Definition clear_slot (t : list Z) (i j : Z) : list Z :=
  match rd t i with
  | Ok v => if v =? j then <[Z.to_nat i := UNUSED]> t else t
  | _ => t
  end.

(** The board once [DeleteMove(src,dest)] is through with the primary
    table. *)
Definition primary_cleared (b : CBaseBoard) (src dest : Z) : CBaseBoard :=
  with_move b (clear_slot (clear_slot (m_nMove b) src dest) dest src).

(** Cell [c] has no free slot: neither its primary nor its secondary
    entry is [UNUSED]. *)
Definition no_free_slot (b : CBaseBoard) (c : Z) : Prop :=
  rd (m_nMove b) c ≠ Ok UNUSED ∧ rd2 b c ≠ Ok UNUSED.

(** *** Move indices *)

(** The fixed table of canonical move indices. *)
Definition move_index_table : list (MoveDelta * Z) :=
  [ ((-2, -1), 3); ((-2, 1), 4); ((-1, -2), 2); ((-1, 2), 5);
    ((1, -2), 1); ((1, 2), 6); ((2, -1), 0); ((2, 1), 7) ].

Fixpoint assoc (d : MoveDelta) (l : list (MoveDelta * Z)) : option Z :=
  match l with
  | [] => None
  | (d', k) :: l' =>
      if (d.1 =? d'.1) && (d.2 =? d'.2) then Some k else assoc d l'
  end.

(** The canonical index of a displacement, [UNUSED] if it is not a
    knight's move. *)
Definition canonical_index (dx dy : Z) : Z :=
  default UNUSED (assoc (dx, dy) move_index_table).

(** *** Loop invariants *)

(** The counters [count] hold [f c] for every cell [c]. *)
Definition counts (count : list Z) (f : Z → Z) : Prop :=
  ∀ c, 0 ≤ c < Z.of_nat (length count) → rd count c = Ok (f c).

(** The table [t] is a bijection of the cells [0 .. n-1]. *)
Definition bijective_table (n : Z) (t : list Z) : Prop :=
  Z.of_nat (length t) = n
  ∧ Forall (λ v, 0 ≤ v < n) t
  ∧ NoDup t
  ∧ ∀ c, 0 ≤ c < n → c ∈ t.

(** The table [t2] leads back along every entry of [t]. *)
Definition inverse_table (t t2 : list Z) : Prop :=
  ∀ i c, rd t i = Ok c → rd t2 c = Ok i.

(** The number of [UNUSED] slots of a table. *)
Fixpoint free_slots (t : list Z) : nat :=
  match t with
  | [] => 0
  | v :: t' => (if v =? UNUSED then 1 else 0) + free_slots t'
  end.

(** The invariant of the cycle walk of [MakeUndirected] that started on
    cell [start]: [temp] copies the primary table wherever it is filled,
    the slot of [prev] is still free, and the filled slots are closed under
    going back along a move, except at [start]. *)
Record walk_inv (b : CBaseBoard) (start : Z) (s : walk_state) : Prop := {
  wi_len : Z.of_nat (length (ws_temp s)) = m_nSize b;
  wi_prev : valid_cell b (ws_prev s);
  wi_cur : rd (m_nMove b) (ws_prev s) = Ok (ws_cur s);
  wi_free : rd (ws_temp s) (ws_prev s) = Ok UNUSED;
  wi_copy : ∀ c, valid_cell b c →
    rd (ws_temp s) c = Ok UNUSED ∨ rd (ws_temp s) c = rd (m_nMove b) c;
  wi_back : ∀ c v, rd (m_nMove b) c = Ok v → v ≠ start →
    rd (ws_temp s) v ≠ Ok UNUSED → rd (ws_temp s) c ≠ Ok UNUSED;
  wi_pred : ws_prev s = start
    ∨ ∃ p, rd (m_nMove b) p = Ok (ws_prev s) ∧ rd (ws_temp s) p ≠ Ok UNUSED;
  wi_start : ws_prev s = start ∨ rd (ws_temp s) start ≠ Ok UNUSED;
  wi_done : ∀ c, 0 ≤ c < start → rd (ws_temp s) c ≠ Ok UNUSED
}.

(** The invariant of the outer loop of [MakeUndirected] when it reaches
    [start]. *)
Record outer_inv (b : CBaseBoard) (start : Z) (temp : list Z) : Prop := {
  oi_len : Z.of_nat (length temp) = m_nSize b;
  oi_copy : ∀ c, valid_cell b c →
    rd temp c = Ok UNUSED ∨ rd temp c = rd (m_nMove b) c;
  oi_back : ∀ c v, rd (m_nMove b) c = Ok v →
    rd temp v ≠ Ok UNUSED → rd temp c ≠ Ok UNUSED;
  oi_done : ∀ c, 0 ≤ c < start → rd temp c ≠ Ok UNUSED
}.

(** *** Slots *)

(** Cell [c] takes the entry [v] in its first free slot, the primary one
    before the secondary one, if it has a free slot at all (one half of
    [InsertDirectedMove]). *)
Definition claim_slot (b : CBaseBoard) (c v : Z) : res (option CBaseBoard) :=
  x ← rd (m_nMove b) c;
  if x <? 0 then b' ← wr1 b c v; Ok (Some b')
  else
    x2 ← rd2 b c;
    if x2 <? 0 then b' ← wr2 b c v; Ok (Some b') else Ok None.

(** The board once [DeleteMove(src,dest)] is through with the secondary
    table. *)
Definition secondary_cleared (b : CBaseBoard) (src dest : Z) : CBaseBoard :=
  with_move2 b
    (option_map (λ t2, clear_slot (clear_slot t2 src dest) dest src)
       (m_nMove2 b)).

(** Both tables hold destination cells or the sentinel. *)
Definition tables_ok (b : CBaseBoard) : Prop :=
  table_ok (m_nMove b) ∧ ∀ t2, m_nMove2 b = Some t2 → table_ok t2.

(** Slot [c] of the table [t2] names the last cell whose entry in [t]
    is [c], and is [UNUSED] when no entry of [t] is [c]. *)
Definition last_source (t t2 : list Z) (c : Z) : Prop :=
  (rd t2 c = Ok UNUSED ∧ ∀ i, rd t i ≠ Ok c)
  ∨ (∃ i, rd t i = Ok c ∧ rd t2 c = Ok i ∧ ∀ j, rd t j = Ok c → j ≤ i).

(** *** Positions *)

(** The column and row reached from cell [i] by the offsets [d]. *)
Definition shifted (b : CBaseBoard) (i : Z) (d : MoveDelta) : Z * Z :=
  (i mod m_nWidth b + d.1, i / m_nWidth b + d.2).

(** The position [p] is on the board. *)
Definition on_board (b : CBaseBoard) (p : Z * Z) : bool :=
  (0 <=? p.1) && (p.1 <? m_nWidth b) && ((0 <=? p.2) && (p.2 <? m_nHeight b)).

(** The index of the cell at position [p]. *)
Definition cell_at (b : CBaseBoard) (p : Z * Z) : Z :=
  p.2 * m_nWidth b + p.1.

(** Offsets that can be added to a coordinate without leaving [int]. *)
Definition small_delta (d : MoveDelta) : Prop :=
  - 2 ^ 30 ≤ d.1 ≤ 2 ^ 30 ∧ - 2 ^ 30 ≤ d.2 ≤ 2 ^ 30.

(** The value of the primary slot of cell [c] is [UNUSED]; false for an
    index outside the table. *)
Definition slot_free (b : CBaseBoard) (c : Z) : bool :=
  match rd (m_nMove b) c with
  | Ok v => v =? UNUSED
  | _ => false
  end.

(** The move [d] from cell [i] stays on the board and ends in a cell
    whose primary slot is free. *)
Definition available (b : CBaseBoard) (i : Z) (d : MoveDelta) : bool :=
  on_board b (shifted b i d) && slot_free b (cell_at b (shifted b i d)).

(** The displacement from cell [i] to cell [j] is [d]. *)
Definition offset_is (b : CBaseBoard) (i j : Z) (d : MoveDelta) : bool :=
  (j mod m_nWidth b - i mod m_nWidth b =? d.1)
  && (j / m_nWidth b - i / m_nWidth b =? d.2).

(** *** Sub-boards *)

(** The cell of board [b] on which cell [s] of [other] comes to lie when
    [other] is laid on [b] with its first cell in column [x0], row [y0]. *)
Definition place (b other : CBaseBoard) (x0 y0 s : Z) : Z :=
  (s / m_nWidth other + y0) * m_nWidth b + (s mod m_nWidth other + x0).

(** The primary table [t] of the target after the first [k] cells of
    [other] have been copied: their images hold the translated moves and
    every other slot is as in [b]. *)
Definition copied (b other : CBaseBoard) (x0 y0 k : Z) (t : list Z) : Prop :=
  length t = length (m_nMove b)
  ∧ (∀ s, 0 ≤ s < k →
       ∃ d, rd (m_nMove other) s = Ok d
         ∧ rd t (place b other x0 y0 s) = Ok (place b other x0 y0 d))
  ∧ (∀ s, k ≤ s < m_nSize other →
       rd t (place b other x0 y0 s) = rd (m_nMove b) (place b other x0 y0 s))
  ∧ (∀ c, (∀ s, 0 ≤ s < m_nSize other → c ≠ place b other x0 y0 s) →
       rd t c = rd (m_nMove b) c).

(** *** Sequences of insertions *)

(** A caller inserting the undirected moves [moves] one after the other,
    dropping what each insertion returns. *)
Definition insert_moves (ndebug : bool) (moves : list (Z * Z))
    (b : CBaseBoard) : res CBaseBoard :=
  foreach moves
    (λ m b1, r ← InsertUndirectedMove ndebug b1 m.1 m.2; Ok r.2) b.

(** The moves of the cycle [0 -> 1 -> ... -> n-1 -> 0]. *)
Definition cycle_moves (n : Z) : list (Z * Z) :=
  (λ i, (i, (i + 1) mod n)) <$> seqZ 0 n.

(** *** Directed boards as graphs *)

(** Cell [a] is recorded in one of the two slots of cell [c]. *)
Definition nbr (b : CBaseBoard) (t2 : list Z) (c a : Z) : Prop :=
  rd (m_nMove b) c = Ok a ∨ rd t2 c = Ok a.

(** The entry of cell [c] that the cycle walk of [MakeUndirected] takes
    when it came from [p]: the secondary one if the primary one is [p]. *)
Definition other_nbr (b : CBaseBoard) (t2 : list Z) (c p : Z) : Z :=
  match rd (m_nMove b) c with
  | Ok x =>
      if x =? p then match rd t2 c with Ok y => y | _ => UNUSED end else x
  | _ => UNUSED
  end.

(** The two tables record a simple graph in which every cell has two
    neighbours: the two slots of a cell hold two different valid cells
    other than the cell itself, and each move is recorded at both of its
    ends. *)
Definition simple_graph (b : CBaseBoard) (t2 : list Z) : Prop :=
  (∀ c, valid_cell b c →
     ∃ x y, rd (m_nMove b) c = Ok x ∧ rd t2 c = Ok y
       ∧ valid_cell b x ∧ valid_cell b y ∧ x ≠ y ∧ x ≠ c ∧ y ≠ c)
  ∧ (∀ c a, valid_cell b c → nbr b t2 c a → nbr b t2 a c).

(** Slot [c] of [t] holds the cell [a]. *)
Definition filled (t : list Z) (c a : Z) : Prop :=
  rd t c = Ok a ∧ a ≠ UNUSED.

(** The invariant of the cycle walk of [MakeUndirected] on such a graph:
    every filled slot of [temp] holds a neighbour; the filled cells form
    oriented paths, each cell pointed to by its other neighbour (except
    [start]) and pointing to a cell that goes on in the same direction
    (except for the cell before [prev]); the slot of [prev] is free. *)
Record cycle_inv (b : CBaseBoard) (t2 : list Z) (start : Z)
    (s : walk_state) : Prop := {
  ci_len : Z.of_nat (length (ws_temp s)) = m_nSize b;
  ci_prev : valid_cell b (ws_prev s);
  ci_adj : nbr b t2 (ws_prev s) (ws_cur s);
  ci_free : rd (ws_temp s) (ws_prev s) = Ok UNUSED;
  ci_nbr : ∀ c a, filled (ws_temp s) c a → nbr b t2 c a;
  ci_pred : ∀ c a, filled (ws_temp s) c a →
    c = start ∨ rd (ws_temp s) (other_nbr b t2 c a) = Ok c;
  ci_succ : ∀ c a, filled (ws_temp s) c a →
    rd (ws_temp s) a = Ok (other_nbr b t2 a c)
    ∨ (a = ws_prev s ∧ ws_cur s = other_nbr b t2 a c);
  ci_from : ws_prev s = start
    ∨ ∃ p, filled (ws_temp s) p (ws_prev s)
        ∧ ws_cur s = other_nbr b t2 (ws_prev s) p;
  ci_start : ws_prev s = start ∨ ∃ a, filled (ws_temp s) start a;
  ci_done : ∀ c, 0 ≤ c < start → ∃ a, filled (ws_temp s) c a
}.

(** The invariant of the outer loop of [MakeUndirected] on such a graph:
    the filled cells form closed oriented cycles, and every cell below
    [start] is filled. *)
Record oriented (b : CBaseBoard) (t2 : list Z) (start : Z)
    (temp : list Z) : Prop := {
  or_len : Z.of_nat (length temp) = m_nSize b;
  or_nbr : ∀ c a, filled temp c a → nbr b t2 c a;
  or_pred : ∀ c a, filled temp c a → rd temp (other_nbr b t2 c a) = Ok c;
  or_succ : ∀ c a, filled temp c a → rd temp a = Ok (other_nbr b t2 a c);
  or_done : ∀ c, 0 ≤ c < start → ∃ a, filled temp c a
}.

(** ** Example boards *)

Definition board_of (w h : Z) (t : list Z) (t2 : option (list Z)) : CBaseBoard :=
  {| m_nWidth := w; m_nHeight := h; m_nSize := w * h;
     m_nMove := t; m_nMove2 := t2 |}.

(** * Proofs *)

(** ** Machine integers and tables *)

Lemma to_int_small z : - 2 ^ 31 ≤ z < 2 ^ 31 → to_int z = z.
Proof.
  intros Hz. unfold to_int.
  rewrite Z.mod_small by lia. lia.
Qed.

Lemma to_unsigned_small z : 0 ≤ z < 2 ^ 32 → to_unsigned z = z.
Proof. intros Hz. unfold to_unsigned. by rewrite Z.mod_small. Qed.

Lemma to_int_le z : 0 ≤ z → to_int z ≤ z.
Proof.
  intros Hz. unfold to_int.
  pose proof (Z.mod_le (z + 2 ^ 31) (2 ^ 32)). lia.
Qed.

Lemma CellIndexInRange_true b i :
  0 ≤ m_nSize b ≤ INT_MAX → 0 ≤ i < m_nSize b → CellIndexInRange b i = true.
Proof.
  unfold INT_MAX, CellIndexInRange. intros Hn Hi.
  rewrite to_int_small by lia.
  apply andb_true_iff. split; [apply Z.leb_le | apply Z.ltb_lt]; lia.
Qed.

Lemma CellIndexInRange_false b i :
  0 ≤ m_nSize b → ¬ (0 ≤ i < m_nSize b) → CellIndexInRange b i = false.
Proof.
  unfold CellIndexInRange. intros Hn Hi.
  pose proof (to_int_le (m_nSize b) Hn).
  apply andb_false_iff.
  destruct (Z.leb_spec 0 i); [right | by left].
  apply Z.ltb_ge. lia.
Qed.

Lemma CellIndexInRange_iff b i :
  0 ≤ m_nSize b ≤ INT_MAX → CellIndexInRange b i = true ↔ 0 ≤ i < m_nSize b.
Proof.
  intros Hn. split.
  - intros Ht. destruct (decide (0 ≤ i < m_nSize b)) as [|Hno]; [done|].
    rewrite CellIndexInRange_false in Ht by lia. discriminate.
  - by apply CellIndexInRange_true.
Qed.

Lemma rd_Ok t i v : rd t i = Ok v ↔ 0 ≤ i ∧ t !! Z.to_nat i = Some v.
Proof.
  unfold rd. destruct (Z.leb_spec 0 i) as [Hi|Hi].
  - destruct (t !! Z.to_nat i) as [u|]; split.
    + intros [= ->]. done.
    + intros [_ [= ->]]. done.
    + discriminate.
    + intros [_ [=]].
  - split; [discriminate | lia].
Qed.

Lemma rd_in_bounds t i :
  0 ≤ i < Z.of_nat (length t) → ∃ v, rd t i = Ok v.
Proof.
  intros Hi. destruct (lookup_lt_is_Some_2 t (Z.to_nat i)) as [v Hv]; [lia|].
  exists v. apply rd_Ok. split; [lia | done].
Qed.

Lemma rd_Ok_bounds t i v : rd t i = Ok v → 0 ≤ i < Z.of_nat (length t).
Proof.
  intros [Hi Hv]%rd_Ok. apply lookup_lt_Some in Hv. lia.
Qed.

Lemma wr_in_bounds t i v :
  0 ≤ i < Z.of_nat (length t) → wr t i v = Ok (<[Z.to_nat i := v]> t).
Proof.
  intros Hi. unfold wr.
  destruct (Z.leb_spec 0 i); [|lia].
  destruct (Z.ltb_spec i (Z.of_nat (length t))); [done | lia].
Qed.

Lemma rd_insert_eq t i v :
  0 ≤ i < Z.of_nat (length t) → rd (<[Z.to_nat i := v]> t) i = Ok v.
Proof.
  intros Hi. apply rd_Ok. split; [lia|].
  apply list_lookup_insert_eq. lia.
Qed.


Lemma rd_insert_other t i j v :
  i ≠ j → 0 ≤ i → rd (<[Z.to_nat i := v]> t) j = rd t j.
Proof.
  intros Hij Hi. unfold rd.
  destruct (Z.leb_spec 0 j); [|done].
  rewrite list_lookup_insert_ne by lia. done.
Qed.

Lemma shape_size b : board_shape b → 0 ≤ m_nSize b ≤ INT_MAX.
Proof.
  unfold board_shape, INT_MAX. intros (Hw & Hh & Hn & Hmax & _).
  split; [rewrite Hn; apply Z.mul_nonneg_nonneg; done | lia].
Qed.

Lemma shape_primary b i :
  board_shape b → valid_cell b i → ∃ v, rd (m_nMove b) i = Ok v.
Proof.
  intros (_ & _ & _ & _ & Hlen & _) Hi. apply rd_in_bounds.
  unfold valid_cell in Hi. lia.
Qed.

Lemma shape_secondary b t2 i :
  board_shape b → m_nMove2 b = Some t2 → valid_cell b i →
  ∃ v, rd t2 i = Ok v.
Proof.
  intros (_ & _ & _ & _ & _ & Hlen) H2 Hi. apply rd_in_bounds.
  specialize (Hlen _ H2). unfold valid_cell in Hi. lia.
Qed.

Lemma shape_in_range b i :
  board_shape b → CellIndexInRange b i = true ↔ valid_cell b i.
Proof. intros Hb. apply CellIndexInRange_iff, shape_size, Hb. Qed.

Lemma table_ok_rd t i v : table_ok t → rd t i = Ok v → UNUSED ≤ v.
Proof.
  intros Hok [_ Hv]%rd_Ok.
  unfold table_ok in Hok. rewrite Forall_lookup in Hok. by eapply Hok.
Qed.

Lemma free_iff_UNUSED v : UNUSED ≤ v → (v <? 0) = (v =? UNUSED).
Proof.
  unfold UNUSED. intros Hv.
  destruct (Z.ltb_spec v 0), (Z.eqb_spec v (-1)); lia || done.
Qed.

(** ** Out-of-range queries *)

(** C9. For an out-of-range index, [operator[]] returns [UNUSED] while
    [IsUnused] returns false; for an in-range index of a well-shaped
    board, [IsUnused] returns true exactly when the primary slot is
    [UNUSED].  The values are those returned when assertions are compiled
    out; with assertions on, a call returns the same value or stops at
    its assertion. *)
Theorem out_of_range_asymmetry (b : CBaseBoard) (i : Z) :
  0 ≤ m_nSize b →
  (¬ valid_cell b i →
     GetMove true b i = Ok UNUSED ∧ IsUnused true b i = Ok false)
  ∧ (board_shape b → valid_cell b i →
     ∃ r, IsUnused true b i = Ok r
          ∧ (r = true ↔ rd (m_nMove b) i = Ok UNUSED))
  ∧ (∀ nd, (GetMove nd b i = GetMove true b i ∨ GetMove nd b i = AssertFail)
           ∧ (IsUnused nd b i = IsUnused true b i
              ∨ IsUnused nd b i = AssertFail)).
Proof.
  intros Hn. split; [|split].
  - intros Hi. unfold GetMove, IsUnused. simpl.
    by rewrite (CellIndexInRange_false b i Hn Hi).
  - intros Hb Hi. unfold IsUnused. simpl.
    rewrite (proj2 (shape_in_range b i Hb) Hi).
    destruct (shape_primary b i Hb Hi) as [v Hv]. rewrite Hv. simpl.
    exists (v =? UNUSED). split; [done|].
    rewrite Z.eqb_eq. split; [by intros -> | by intros [= ->]].
  - intros nd. unfold GetMove, IsUnused, assert_.
    destruct nd; simpl; [by split; left|].
    split.
    + destruct (IsUndirected b); simpl; [by left | by right].
    + destruct (IsDirected b); simpl; [by left | by right].
Qed.

Lemma out_of_range_asymmetry_witness :
  GetMove true (board_of 2 2 [1; -1; 0; -1] None) 4 = Ok UNUSED
  ∧ IsUnused true (board_of 2 2 [1; -1; 0; -1] None) 4 = Ok false.
Proof.
  apply (out_of_range_asymmetry (board_of 2 2 [1; -1; 0; -1] None) 4).
  - simpl. lia.
  - unfold valid_cell. simpl. lia.
Defined.

(** C10. The assertion at the head of [IsUnused(int)] is [IsDirected()]:
    on every undirected board it fails, whatever the index. *)
Theorem IsUnused_assertion_on_undirected (w h n : Z) (t : list Z) (i : Z) :
  let b := {| m_nWidth := w; m_nHeight := h; m_nSize := n;
              m_nMove := t; m_nMove2 := None |} in
  IsUndirected b = true ∧ IsUnused false b i = AssertFail.
Proof. done. Qed.

(** The sibling overloads and accessors assert [IsUndirected()], as
    [operator[]] does: on an undirected board it returns. *)
Lemma GetMove_assertion_on_undirected (w h n : Z) (t : list Z) (i : Z) :
  let b := {| m_nWidth := w; m_nHeight := h; m_nSize := n;
              m_nMove := t; m_nMove2 := None |} in
  GetMove false b i = GetMove true b i.
Proof. done. Qed.

(** ** Insertion of an undirected move *)

(** C7. On an undirected board, [InsertUndirectedMove(src,dest)] writes
    [m[src] = dest] if [m[src]] is [UNUSED], else [m[dest] = src] if
    [m[dest]] is [UNUSED], else nothing; it returns true in the first two
    cases and false in the third.  A successful call changes one slot,
    which was [UNUSED], and leaves every other slot as it was. *)
Theorem InsertUndirectedMove_policy (nd : bool) (b : CBaseBoard) (src dest : Z) :
  board_shape b → IsUndirected b = true → table_ok (m_nMove b) →
  valid_cell b src → valid_cell b dest →
  (rd (m_nMove b) src = Ok UNUSED →
     InsertUndirectedMove nd b src dest
     = Ok (true, with_move b (<[Z.to_nat src := dest]> (m_nMove b))))
  ∧ (rd (m_nMove b) src ≠ Ok UNUSED → rd (m_nMove b) dest = Ok UNUSED →
     InsertUndirectedMove nd b src dest
     = Ok (true, with_move b (<[Z.to_nat dest := src]> (m_nMove b))))
  ∧ (rd (m_nMove b) src ≠ Ok UNUSED → rd (m_nMove b) dest ≠ Ok UNUSED →
     InsertUndirectedMove nd b src dest = Ok (false, b))
  ∧ (∀ b', InsertUndirectedMove nd b src dest = Ok (true, b') →
       ∃ k v, (k = src ∧ v = dest ∨ k = dest ∧ v = src)
         ∧ rd (m_nMove b) k = Ok UNUSED
         ∧ rd (m_nMove b') k = Ok v
         ∧ (∀ j, j ≠ k → rd (m_nMove b') j = rd (m_nMove b) j)
         ∧ length (m_nMove b') = length (m_nMove b)
         ∧ m_nMove2 b' = None).
Proof.
  intros Hb Hu Hok Hs Hd.
  destruct (shape_primary b src Hb Hs) as [vs Hvs].
  destruct (shape_primary b dest Hb Hd) as [vd Hvd].
  pose proof (rd_Ok_bounds _ _ _ Hvs) as Bs.
  pose proof (rd_Ok_bounds _ _ _ Hvd) as Bd.
  assert (Hrun : InsertUndirectedMove nd b src dest
    = if vs =? UNUSED
      then Ok (true, with_move b (<[Z.to_nat src := dest]> (m_nMove b)))
      else if vd =? UNUSED
      then Ok (true, with_move b (<[Z.to_nat dest := src]> (m_nMove b)))
      else Ok (false, b)).
  { unfold InsertUndirectedMove, assert_, wr1. rewrite Hu, orb_true_r. simpl.
    rewrite Hvs. simpl.
    rewrite (free_iff_UNUSED vs) by (by eapply table_ok_rd).
    destruct (vs =? UNUSED).
    - by rewrite wr_in_bounds.
    - rewrite Hvd. simpl.
      rewrite (free_iff_UNUSED vd) by (by eapply table_ok_rd).
      destruct (vd =? UNUSED); [by rewrite wr_in_bounds | done]. }
  rewrite Hrun, Hvs, Hvd.
  split; [|split; [|split]].
  - intros [= ->]. done.
  - intros Hns [= ->].
    destruct (Z.eqb_spec vs UNUSED) as [->|]; [done | done].
  - intros Hns Hnd.
    destruct (Z.eqb_spec vs UNUSED) as [->|]; [done|].
    destruct (Z.eqb_spec vd UNUSED) as [->|]; [done | done].
  - intros b' Hb'.
    assert (Hnone : m_nMove2 b = None)
      by (unfold IsUndirected in Hu; by destruct (m_nMove2 b)).
    destruct (Z.eqb_spec vs UNUSED) as [->|Hvs'].
    + injection Hb' as <-. exists src, dest. simpl.
      split; [by left|]. split; [done|].
      split; [by apply rd_insert_eq|].
      split; [intros j Hj; apply rd_insert_other; [done | lia]|].
      split; [apply length_insert | done].
    + destruct (Z.eqb_spec vd UNUSED) as [->|Hvd']; [|done].
      injection Hb' as <-. exists dest, src. simpl.
      split; [by right|]. split; [done|].
      split; [by apply rd_insert_eq|].
      split; [intros j Hj; apply rd_insert_other; [done | lia]|].
      split; [apply length_insert | done].
Qed.

Ltac concrete_shape :=
  unfold board_shape, valid_cell, table_ok, INT_MAX; simpl;
  repeat split; try lia; try (intros ? [= <-]; simpl; lia);
  try (repeat constructor; unfold UNUSED; lia).

Lemma InsertUndirectedMove_policy_witness :
  InsertUndirectedMove false (board_of 2 2 [-1; 2; -1; -1] None) 0 1
  = Ok (true, board_of 2 2 [1; 2; -1; -1] None).
Proof.
  apply (InsertUndirectedMove_policy false
           (board_of 2 2 [-1; 2; -1; -1] None) 0 1);
    try reflexivity; concrete_shape.
Defined.

(** ** Deletion of a move *)

Lemma with_move_id b : with_move b (m_nMove b) = b.
Proof. by destruct b. Qed.

Lemma with_move_shape b t :
  board_shape b → length t = length (m_nMove b) → board_shape (with_move b t).
Proof.
  unfold board_shape. simpl. intros (?&?&?&?&?&?) Hlen.
  rewrite Hlen. done.
Qed.

Lemma clear_slot_length t i j : length (clear_slot t i j) = length t.
Proof.
  unfold clear_slot. destruct (rd t i); try done.
  destruct (_ =? _); [apply length_insert | done].
Qed.

Lemma clear_run b i j :
  board_shape b → valid_cell b i →
  ∃ v, rd (m_nMove b) i = Ok v
       ∧ (if v =? j then wr1 b i UNUSED else Ok b)
         = Ok (with_move b (clear_slot (m_nMove b) i j)).
Proof.
  intros Hb Hi. destruct (shape_primary b i Hb Hi) as [v Hv].
  exists v. split; [done|]. unfold clear_slot, wr1. rewrite Hv.
  destruct (v =? j).
  - rewrite wr_in_bounds by (by eapply rd_Ok_bounds). done.
  - by rewrite with_move_id.
Qed.

Lemma primary_cleared_shape b src dest :
  board_shape b → board_shape (primary_cleared b src dest).
Proof.
  intros Hb. apply with_move_shape; [done|].
  by rewrite !clear_slot_length.
Qed.

Lemma DeleteMove_unfold b src dest :
  board_shape b → valid_cell b src → valid_cell b dest →
  DeleteMove b src dest
  = let b2 := primary_cleared b src dest in
    if IsDirected b2 then
      present ← IsMove b2 src dest;
      if negb present then Ok (false, b2)
      else
        vs2 ← rd2 b2 src;
        b3 ← (if vs2 =? dest then wr2 b2 src UNUSED else Ok b2);
        vd2 ← rd2 b3 dest;
        b4 ← (if vd2 =? src then wr2 b3 dest UNUSED else Ok b3);
        Ok (true, b4)
    else Ok (true, b2).
Proof.
  intros Hb Hs Hd. unfold DeleteMove.
  destruct (clear_run b src dest Hb Hs) as (vs & Hvs & Hc1).
  rewrite Hvs. simpl. rewrite Hc1. simpl.
  set (b1 := with_move b (clear_slot (m_nMove b) src dest)).
  assert (Hb1 : board_shape b1)
    by (apply with_move_shape; [done | apply clear_slot_length]).
  destruct (clear_run b1 dest src Hb1 Hd) as (vd & Hvd & Hc2).
  simpl in Hvd. rewrite Hvd. simpl. rewrite Hc2. done.
Qed.

Lemma IsMove_directed b t2 i j :
  board_shape b → m_nMove2 b = Some t2 → valid_cell b i → valid_cell b j →
  ∃ vi wi vj wj,
    rd (m_nMove b) i = Ok vi ∧ rd t2 i = Ok wi
    ∧ rd (m_nMove b) j = Ok vj ∧ rd t2 j = Ok wj
    ∧ IsMove b i j = Ok ((vi =? j) || (wi =? j) || (vj =? i) || (wj =? i)).
Proof.
  intros Hb H2 Hi Hj.
  destruct (shape_primary b i Hb Hi) as [vi Hvi].
  destruct (shape_primary b j Hb Hj) as [vj Hvj].
  destruct (shape_secondary b t2 i Hb H2 Hi) as [wi Hwi].
  destruct (shape_secondary b t2 j Hb H2 Hj) as [wj Hwj].
  exists vi, wi, vj, wj. repeat (split; [done|]).
  unfold IsMove, orelse, eqv, rd2.
  rewrite (proj2 (shape_in_range b i Hb) Hi), (proj2 (shape_in_range b j Hb) Hj).
  rewrite H2, Hvi, Hwi, Hvj, Hwj. simpl.
  destruct (vi =? j); [done|]. destruct (wi =? j); [done|].
  destruct (vj =? i); done.
Qed.

(** C5. On a directed board [DeleteMove(src,dest)] first clears the
    primary slots of [src] and [dest] that hold the other endpoint, and
    only then asks [IsMove]: if the move is no longer found the call
    returns false and the primary table stays cleared; if it is found the
    call returns true, and the primary table is the cleared one as well. *)
Theorem DeleteMove_directed_clears_first (b : CBaseBoard) (t2 : list Z)
    (src dest : Z) :
  board_shape b → m_nMove2 b = Some t2 →
  valid_cell b src → valid_cell b dest →
  ∃ present, IsMove (primary_cleared b src dest) src dest = Ok present
    ∧ if present
      then ∃ b', DeleteMove b src dest = Ok (true, b')
                 ∧ m_nMove b' = m_nMove (primary_cleared b src dest)
      else DeleteMove b src dest = Ok (false, primary_cleared b src dest).
Proof.
  intros Hb H2 Hs Hd.
  rewrite (DeleteMove_unfold b src dest Hb Hs Hd). cbv zeta.
  set (b2 := primary_cleared b src dest).
  assert (Hb2 : board_shape b2) by by apply primary_cleared_shape.
  assert (H22 : m_nMove2 b2 = Some t2) by done.
  assert (Hdir : IsDirected b2 = true)
    by (unfold IsDirected, IsUndirected; by rewrite H22).
  rewrite Hdir.
  destruct (IsMove_directed b2 t2 src dest Hb2 H22) as
    (vi & wi & vj & wj & Hvi & Hwi & Hvj & Hwj & Hmove); [done..|].
  rewrite Hmove. eexists. split; [done|].
  destruct (_ || _); simpl; [|done].
  unfold rd2, wr2. rewrite H22, Hwi. simpl.
  pose proof (rd_Ok_bounds _ _ _ Hwi) as Bs.
  pose proof (rd_Ok_bounds _ _ _ Hwj) as Bd.
  destruct (wi =? dest); simpl.
  - rewrite wr_in_bounds by done. simpl.
    destruct (rd_in_bounds (<[Z.to_nat src := UNUSED]> t2) dest) as [u Hu];
      [by rewrite length_insert|].
    rewrite Hu. simpl. destruct (u =? src); simpl.
    + rewrite wr_in_bounds by (by rewrite length_insert). simpl. eauto.
    + eauto.
  - rewrite H2, Hwj. simpl. destruct (wj =? src); simpl.
    + rewrite ?H2, wr_in_bounds by done. simpl. eauto.
    + eauto.
Qed.

Lemma DeleteMove_directed_clears_first_witness :
  DeleteMove (board_of 2 1 [1; -1] (Some [-1; -1])) 0 1
  = Ok (false, board_of 2 1 [-1; -1] (Some [-1; -1])).
Proof.
  destruct (DeleteMove_directed_clears_first
              (board_of 2 1 [1; -1] (Some [-1; -1])) [-1; -1] 0 1
              ltac:(concrete_shape) eq_refl
              ltac:(concrete_shape) ltac:(concrete_shape))
    as (present & Hp & Hrun).
  vm_compute in Hp. injection Hp as <-. exact Hrun.
Defined.

(** On a directed board the deletion of a move that no table records
    returns false and changes nothing. *)
Lemma DeleteMove_absent_directed b t2 src dest :
  board_shape b → m_nMove2 b = Some t2 →
  valid_cell b src → valid_cell b dest → move_absent b src dest →
  DeleteMove b src dest = Ok (false, b).
Proof.
  intros Hb H2 Hs Hd (A1 & A2 & A3 & A4).
  assert (Hc : primary_cleared b src dest = b).
  { unfold primary_cleared, clear_slot.
    destruct (shape_primary b src Hb Hs) as [vs Hvs].
    destruct (shape_primary b dest Hb Hd) as [vd Hvd].
    rewrite Hvs. destruct (Z.eqb_spec vs dest) as [->|]; [done|].
    rewrite Hvd. destruct (Z.eqb_spec vd src) as [->|]; [done|].
    apply with_move_id. }
  rewrite (DeleteMove_unfold b src dest Hb Hs Hd). cbv zeta. rewrite Hc.
  unfold IsDirected, IsUndirected. rewrite H2. simpl.
  destruct (IsMove_directed b t2 src dest Hb H2 Hs Hd) as
    (vi & wi & vj & wj & Hvi & Hwi & Hvj & Hwj & Hmove).
  rewrite Hmove. unfold rd2 in A3, A4. rewrite H2 in A3, A4.
  destruct (Z.eqb_spec vi dest) as [->|]; [done|].
  destruct (Z.eqb_spec wi dest) as [->|]; [done|].
  destruct (Z.eqb_spec vj src) as [->|]; [done|].
  destruct (Z.eqb_spec wj src) as [->|]; [done|].
  done.
Qed.

(** On an undirected board [DeleteMove] returns true whatever the
    tables hold. *)
Lemma DeleteMove_undirected b src dest :
  board_shape b → IsUndirected b = true →
  valid_cell b src → valid_cell b dest →
  DeleteMove b src dest = Ok (true, primary_cleared b src dest).
Proof.
  intros Hb Hu Hs Hd.
  rewrite (DeleteMove_unfold b src dest Hb Hs Hd). cbv zeta.
  unfold IsDirected. replace (IsUndirected (primary_cleared b src dest))
    with (IsUndirected b) by done.
  by rewrite Hu.
Qed.

(** C4. On the freshly constructed (undirected) 2x2 board no move is
    recorded, and yet [DeleteMove(0,1)] returns true. *)
Theorem DeleteMove_absent_on_undirected :
  let b := CBaseBoard_new 2 2 in
  move_absent b 0 1 ∧ DeleteMove b 0 1 = Ok (true, b).
Proof. split; [by repeat split | reflexivity]. Qed.

(** ** Insertion of a directed move *)

Lemma Ok_inj {A} (x y : A) : Ok x = Ok y ↔ x = y.
Proof. split; [by intros [=] | by intros ->]. Qed.

Lemma rd2_Some b t2 i : m_nMove2 b = Some t2 → rd2 b i = rd t2 i.
Proof. unfold rd2. by intros ->. Qed.

Lemma IsDirected_Some b t2 : m_nMove2 b = Some t2 → IsDirected b = true.
Proof. unfold IsDirected, IsUndirected. by intros ->. Qed.

Ltac free_cases :=
  repeat match goal with
  | |- context [?v <? 0] =>
      destruct (Z.ltb_spec v 0);
      try (exfalso; unfold valid_cell in *; lia)
  end.

Ltac run :=
  repeat first
    [ progress cbn [mbind res_bind m_nMove m_nMove2 with_move with_move2]
    | progress unfold wr1, wr2, rd2
    | match goal with H : m_nMove2 _ = Some _ |- _ => rewrite H end
    | match goal with H : rd _ _ = Ok _ |- _ => rewrite H end
    | rewrite wr_in_bounds by (rewrite ?length_insert; done)
    | rewrite rd_insert_eq by (rewrite ?length_insert; done)
    | rewrite rd_insert_other by (done || lia)
    | progress free_cases ].

(** C6 (amended). On a directed board whose slots hold cells or
    [UNUSED], [InsertDirectedMove(src,dest)] with [src <> dest] returns
    false iff [src] has no free slot or [dest] has no free slot; with
    [src = dest] the cell needs two free slots.  If [src] has no free
    slot nothing is written; if the call fails at [dest], the slot
    claimed at [src] stays written. *)
Theorem InsertDirectedMove_failure (nd : bool) (b : CBaseBoard)
    (t2 : list Z) (src dest : Z) :
  board_shape b → m_nMove2 b = Some t2 →
  table_ok (m_nMove b) → table_ok t2 →
  valid_cell b src → valid_cell b dest →
  ∃ r b', InsertDirectedMove nd b src dest = Ok (r, b')
    ∧ (src ≠ dest → r = false ↔ no_free_slot b src ∨ no_free_slot b dest)
    ∧ (src = dest →
         r = false ↔ ¬ (rd (m_nMove b) src = Ok UNUSED ∧ rd2 b src = Ok UNUSED))
    ∧ (no_free_slot b src → b' = b)
    ∧ (r = false → rd (m_nMove b) src = Ok UNUSED →
         b' = with_move b (<[Z.to_nat src := dest]> (m_nMove b)))
    ∧ (r = false → rd (m_nMove b) src ≠ Ok UNUSED → rd2 b src = Ok UNUSED →
         b' = with_move2 b (Some (<[Z.to_nat src := dest]> t2))).
Proof.
  intros Hb H2 Hok Hok2 Hs Hd.
  destruct (shape_primary b src Hb Hs) as [vs Hvs].
  destruct (shape_primary b dest Hb Hd) as [vd Hvd].
  destruct (shape_secondary b t2 src Hb H2 Hs) as [ws Hws].
  destruct (shape_secondary b t2 dest Hb H2 Hd) as [wd Hwd].
  pose proof (rd_Ok_bounds _ _ _ Hvs) as Bs.
  pose proof (rd_Ok_bounds _ _ _ Hvd) as Bd.
  pose proof (rd_Ok_bounds _ _ _ Hws) as Bs2.
  pose proof (rd_Ok_bounds _ _ _ Hwd) as Bd2.
  pose proof (table_ok_rd _ _ _ Hok Hvs) as Lvs.
  pose proof (table_ok_rd _ _ _ Hok Hvd) as Lvd.
  pose proof (table_ok_rd _ _ _ Hok2 Hws) as Lws.
  pose proof (table_ok_rd _ _ _ Hok2 Hwd) as Lwd.
  assert (Hdpos : ¬ dest = UNUSED ∧ ¬ src = UNUSED)
    by (unfold UNUSED, valid_cell in *; lia).
  unfold no_free_slot. rewrite !(rd2_Some b t2) by done.
  unfold InsertDirectedMove, assert_.
  rewrite (IsDirected_Some b t2 H2), orb_true_r.
  cbn [mbind res_bind]. rewrite Hvs. cbn [mbind res_bind].
  destruct (decide (src = dest)) as [<-|Hne].
  - (* a move from a cell to itself *)
    assert (vd = vs) as -> by congruence.
    assert (wd = ws) as -> by congruence.
    run; eexists _, _; (split; [reflexivity|]);
      rewrite ?Ok_inj; unfold UNUSED in *;
      intuition (try lia; try congruence).
  - run; eexists _, _; (split; [reflexivity|]);
      rewrite ?Ok_inj; unfold UNUSED in *;
      intuition (try lia; try congruence).
Qed.

Lemma InsertDirectedMove_failure_witness :
  ∃ r b', InsertDirectedMove false (board_of 2 1 [1; 0] (Some [-1; 0])) 0 1
          = Ok (r, b')
    ∧ (r = false ↔ no_free_slot (board_of 2 1 [1; 0] (Some [-1; 0])) 0
                   ∨ no_free_slot (board_of 2 1 [1; 0] (Some [-1; 0])) 1).
Proof.
  destruct (InsertDirectedMove_failure false
              (board_of 2 1 [1; 0] (Some [-1; 0])) [-1; 0] 0 1
              ltac:(concrete_shape) eq_refl ltac:(concrete_shape)
              ltac:(concrete_shape) ltac:(concrete_shape)
              ltac:(concrete_shape))
    as (r & b' & Hrun & Hiff & _).
  exists r, b'. split; [exact Hrun | apply Hiff; lia].
Defined.

(** C6 as first stated fails for a move from a cell to itself: after
    [InsertDirectedMove(0,1)] on the empty directed two-cell board, cell
    0 still has its secondary slot free, and [InsertDirectedMove(0,0)]
    returns false all the same (having written that slot). *)
Lemma InsertDirectedMove_self_move_counterexample :
  let b := board_of 2 1 [1; 0] (Some [-1; -1]) in
  InsertDirectedMove false (board_of 2 1 [-1; -1] (Some [-1; -1])) 0 1
  = Ok (true, b)
  ∧ InsertDirectedMove false b 0 0
    = Ok (false, board_of 2 1 [1; 0] (Some [0; -1]))
  ∧ ¬ (no_free_slot b 0 ∨ no_free_slot b 0).
Proof.
  split; [reflexivity|]. split; [reflexivity|].
  unfold no_free_slot. simpl. intros [[_ H]|[_ H]]; by apply H.
Qed.

(** ** Move indices *)

Lemma to_int_to_unsigned z : - 2 ^ 31 ≤ z < 2 ^ 31 → to_int (to_unsigned z) = z.
Proof.
  intros Hz. unfold to_int, to_unsigned.
  rewrite Zplus_mod_idemp_l. rewrite Z.mod_small by lia. lia.
Qed.

Lemma uadd_to_unsigned a d : uadd a (to_unsigned d) = to_unsigned (a + d).
Proof. unfold uadd, to_unsigned. by rewrite Zplus_mod_idemp_r. Qed.

Section Coordinates.

Variable b : CBaseBoard.
Hypothesis Hb : board_shape b.

Lemma shape_width_pos i : valid_cell b i → 0 < m_nWidth b ≤ INT_MAX.
Proof.
  destruct Hb as (Hw & Hh & Hn & Hmax & _). unfold valid_cell. intros Hi.
  assert (m_nWidth b ≠ 0) by (intros E; rewrite E in Hn; lia).
  assert (m_nHeight b ≠ 0) by (intros E; rewrite E in Hn; lia).
  nia.
Qed.

Lemma shape_height_pos i : valid_cell b i → 0 < m_nHeight b ≤ INT_MAX.
Proof.
  destruct Hb as (Hw & Hh & Hn & Hmax & _). unfold valid_cell. intros Hi.
  assert (m_nWidth b ≠ 0) by (intros E; rewrite E in Hn; lia).
  assert (m_nHeight b ≠ 0) by (intros E; rewrite E in Hn; lia).
  nia.
Qed.

Lemma col_valid i : valid_cell b i → col b i = i mod m_nWidth b.
Proof.
  intros Hi. pose proof (shape_size b Hb) as Hn. unfold col.
  rewrite to_unsigned_small; [done|].
  unfold valid_cell, INT_MAX in *. lia.
Qed.

Lemma row_valid i : valid_cell b i → row b i = i / m_nWidth b.
Proof.
  intros Hi. pose proof (shape_size b Hb) as Hn. unfold row.
  rewrite to_unsigned_small; [done|].
  unfold valid_cell, INT_MAX in *. lia.
Qed.

Lemma col_bounds i : valid_cell b i → 0 ≤ i mod m_nWidth b < m_nWidth b.
Proof. intros Hi. apply Z.mod_pos_bound. by eapply shape_width_pos. Qed.

Lemma row_bounds i : valid_cell b i → 0 ≤ i / m_nWidth b < m_nHeight b.
Proof.
  intros Hi. pose proof (shape_width_pos i Hi) as Hw.
  destruct Hb as (_ & _ & Hn & _). unfold valid_cell in Hi.
  split; [apply Z.div_pos; lia|].
  apply Z.div_lt_upper_bound; lia.
Qed.

(** The displacement as [GetMoveIndex] computes it is the difference of
    the coordinates. *)
Lemma displacement_x src dest :
  valid_cell b src → valid_cell b dest →
  to_int (usub (col b dest) (col b src))
  = dest mod m_nWidth b - src mod m_nWidth b.
Proof.
  intros Hs Hd. rewrite !col_valid by done. unfold usub.
  pose proof (col_bounds src Hs). pose proof (col_bounds dest Hd).
  pose proof (shape_width_pos src Hs). unfold INT_MAX in *.
  apply to_int_to_unsigned. lia.
Qed.

Lemma displacement_y src dest :
  valid_cell b src → valid_cell b dest →
  to_int (usub (row b dest) (row b src))
  = dest / m_nWidth b - src / m_nWidth b.
Proof.
  intros Hs Hd. rewrite !row_valid by done. unfold usub.
  pose proof (row_bounds src Hs). pose proof (row_bounds dest Hd).
  pose proof (shape_height_pos src Hs). unfold INT_MAX in *.
  apply to_int_to_unsigned. lia.
Qed.

Lemma GetMoveIndex_switch src dest :
  valid_cell b src → valid_cell b dest →
  GetMoveIndex b src dest
  = Ok (canonical_index (dest mod m_nWidth b - src mod m_nWidth b)
          (dest / m_nWidth b - src / m_nWidth b)).
Proof.
  intros Hs Hd. unfold GetMoveIndex.
  pose proof (shape_width_pos src Hs) as Hw.
  destruct (Z.eqb_spec (m_nWidth b) 0); [lia|].
  cbv zeta. rewrite displacement_x, displacement_y by done.
  generalize (dest mod m_nWidth b - src mod m_nWidth b).
  generalize (dest / m_nWidth b - src / m_nWidth b).
  intros dy dx. f_equal.
  unfold canonical_index, move_index_table, assoc. simpl.
  repeat match goal with
  | |- context [?x =? ?y] => destruct (Z.eqb_spec x y); try lia
  end; reflexivity.
Qed.

(** Applying the displacement between two cells to the first one leads
    to the second. *)
Lemma GetDest_displacement src dest :
  valid_cell b src → valid_cell b dest →
  GetDest b src (dest mod m_nWidth b - src mod m_nWidth b,
                 dest / m_nWidth b - src / m_nWidth b)
  = Ok dest.
Proof.
  intros Hs Hd. unfold GetDest.
  pose proof (shape_width_pos src Hs) as Hw.
  pose proof (shape_height_pos src Hs) as Hh.
  pose proof (col_bounds src Hs). pose proof (col_bounds dest Hd).
  pose proof (row_bounds src Hs). pose proof (row_bounds dest Hd).
  pose proof (shape_size b Hb) as Hn.
  destruct (Z.eqb_spec (m_nWidth b) 0); [lia|].
  cbv zeta. simpl fst. simpl snd. rewrite !uadd_to_unsigned.
  rewrite col_valid, row_valid by done.
  unfold INT_MAX, valid_cell in *.
  rewrite !to_int_to_unsigned by lia.
  replace (src mod m_nWidth b + (dest mod m_nWidth b - src mod m_nWidth b))
    with (dest mod m_nWidth b) by lia.
  replace (src / m_nWidth b + (dest / m_nWidth b - src / m_nWidth b))
    with (dest / m_nWidth b) by lia.
  unfold InRangeX, InRangeY. rewrite !to_int_small by lia.
  replace (0 <=? dest mod m_nWidth b) with true by (symmetry; apply Z.leb_le; lia).
  replace (dest mod m_nWidth b <? m_nWidth b) with true
    by (symmetry; apply Z.ltb_lt; lia).
  replace (0 <=? dest / m_nWidth b) with true by (symmetry; apply Z.leb_le; lia).
  replace (dest / m_nWidth b <? m_nHeight b) with true
    by (symmetry; apply Z.ltb_lt; lia).
  simpl. f_equal.
  pose proof (Z.div_mod dest (m_nWidth b) ltac:(lia)) as Hdm.
  assert (0 ≤ dest / m_nWidth b * m_nWidth b) by nia.
  rewrite (to_unsigned_small (dest / _)) by lia.
  unfold umul. rewrite (to_unsigned_small (_ * _)) by lia.
  rewrite to_int_to_unsigned by lia. lia.
Qed.

End Coordinates.

(** C8. For valid cells [src] and [dest], [GetMoveIndex(src,dest)] is the
    entry of the fixed table for the displacement between them, and
    [UNUSED] when the displacement is none of the eight knight's moves;
    for a knight's move the index names that very displacement in
    [g_vecDeltas], and [GetDest] applied to [src] and it yields [dest]. *)
Theorem GetMoveIndex_GetDest_inverse (b : CBaseBoard) (src dest : Z) :
  board_shape b → valid_cell b src → valid_cell b dest →
  let dx := dest mod m_nWidth b - src mod m_nWidth b in
  let dy := dest / m_nWidth b - src / m_nWidth b in
  GetMoveIndex b src dest = Ok (canonical_index dx dy)
  ∧ ((dx, dy) ∉ g_vecDeltas → GetMoveIndex b src dest = Ok UNUSED)
  ∧ ((dx, dy) ∈ g_vecDeltas →
       ∃ k delta, GetMoveIndex b src dest = Ok k
         ∧ assoc (dx, dy) move_index_table = Some k
         ∧ g_vecDeltas !! Z.to_nat k = Some delta
         ∧ delta = (dx, dy)
         ∧ GetDest b src delta = Ok dest).
Proof.
  intros Hb Hs Hd dx dy.
  pose proof (GetMoveIndex_switch b Hb src dest Hs Hd) as Hidx.
  pose proof (GetDest_displacement b Hb src dest Hs Hd) as Hdest.
  fold dx dy in Hidx, Hdest. clearbody dx dy.
  split; [done|]. rewrite Hidx. split.
  - intros Hnot. f_equal.
    assert (assoc (dx, dy) move_index_table = None ∨ (dx, dy) ∈ g_vecDeltas)
      as [Hnone|Hin]; [| unfold canonical_index; by rewrite Hnone | done].
    unfold move_index_table, assoc, g_vecDeltas. simpl.
    repeat match goal with
    | |- context [?x =? ?y] => destruct (Z.eqb_spec x y); try lia
    end; first [ by left | right; subst; apply list_elem_of_In; simpl; tauto ].
  - intros Hin. unfold g_vecDeltas in Hin.
    rewrite !elem_of_cons in Hin. rewrite elem_of_nil in Hin.
    destruct Hin as [[= -> ->]|[[= -> ->]|[[= -> ->]|[[= -> ->]|
                    [[= -> ->]|[[= -> ->]|[[= -> ->]|[[= -> ->]|[]]]]]]]]];
      eexists _, _; (split; [reflexivity|]); (split; [reflexivity|]);
      (split; [reflexivity|]); (split; [reflexivity|]); exact Hdest.
Qed.

Lemma GetMoveIndex_GetDest_inverse_witness :
  GetMoveIndex (board_of 8 8 (replicate 64 UNUSED) None) 0 10 = Ok 7
  ∧ GetDest (board_of 8 8 (replicate 64 UNUSED) None) 0 (2, 1) = Ok 10.
Proof.
  destruct (GetMoveIndex_GetDest_inverse
              (board_of 8 8 (replicate 64 UNUSED) None) 0 10
              ltac:(concrete_shape) ltac:(concrete_shape)
              ltac:(concrete_shape))
    as (Hidx & _ & Hknight).
  split; [exact Hidx|].
  destruct Hknight as (k & delta & _ & _ & _ & -> & Hdest).
  - apply list_elem_of_In. vm_compute. tauto.
  - exact Hdest.
Defined.

(** ** The tourney test *)

Lemma for_stop {S : Type} k i guard body (s : S) :
  guard s = false → for_ k i guard body s = Ok s.
Proof. intros Hg. destruct k; simpl; [done | by rewrite Hg]. Qed.

Lemma rd_app_middle pre v l : rd (pre ++ v :: l) (Z.of_nat (length pre)) = Ok v.
Proof.
  apply rd_Ok. split; [lia|]. rewrite Nat2Z.id. by apply list_lookup_middle.
Qed.

Lemma length_snoc_Z (pre : list Z) v :
  Z.of_nat (length (pre ++ [v])) = Z.of_nat (length pre) + 1.
Proof. rewrite length_app. simpl. lia. Qed.

Lemma count_both_app es1 es2 c :
  count_both (es1 ++ es2) c = count_both es1 c + count_both es2 c.
Proof.
  unfold count_both. induction es1 as [|e es1 IH]; simpl; [done|].
  rewrite IH. lia.
Qed.

Lemma count_dest_app es1 es2 c :
  count_dest (es1 ++ es2) c = count_dest es1 c + count_dest es2 c.
Proof.
  unfold count_dest. induction es1 as [|e es1 IH]; simpl; [done|].
  rewrite IH. lia.
Qed.

Lemma indicator_bounds P : 0 ≤ indicator P ≤ 1.
Proof. destruct P; simpl; lia. Qed.

Lemma count_dest_bounds i l c :
  0 ≤ count_dest (entries_from i l) c ≤ Z.of_nat (length l).
Proof.
  revert i. induction l as [|v l IH]; intros i; simpl; [lia|].
  specialize (IH (i + 1)). unfold count_dest in *. simpl.
  pose proof (indicator_bounds (v =? c)). lia.
Qed.

(** Counting both endpoints adds one for the slot owned by [c]. *)
Lemma count_both_entries i l c :
  count_both (entries_from i l) c
  = indicator ((i <=? c) && (c <? i + Z.of_nat (length l)))
    + count_dest (entries_from i l) c.
Proof.
  revert i. induction l as [|v l IH]; intros i.
  - cbn [entries_from length]. unfold count_both, count_dest. cbn [foldr].
    destruct (Z.leb_spec i c), (Z.ltb_spec c (i + Z.of_nat 0)); simpl; lia.
  - cbn [entries_from]. unfold count_both, count_dest in *.
    cbn [foldr fst snd]. rewrite IH.
    cbn [length]. unfold indicator.
    destruct (Z.eqb_spec i c), (Z.leb_spec i c), (Z.leb_spec (i + 1) c),
      (Z.ltb_spec c (i + Z.of_nat (S (length l)))),
      (Z.ltb_spec c (i + 1 + Z.of_nat (length l))); simpl; lia.
Qed.

Lemma counts_ext count f g : counts count f → (∀ c, f c = g c) → counts count g.
Proof. intros Hc Hfg c Hi. rewrite <- Hfg. by apply Hc. Qed.

Lemma counts_replicate n : counts (replicate n 0) (λ _, 0).
Proof.
  intros c Hc. rewrite length_replicate in Hc. apply rd_Ok.
  split; [lia|]. apply lookup_replicate_2. lia.
Qed.

Lemma incr_run count f i :
  counts count f → 0 ≤ i < Z.of_nat (length count) → f i < INT_MAX →
  ∃ count', incr count i = Ok count'
    ∧ length count' = length count
    ∧ counts count' (λ c, f c + indicator (i =? c)).
Proof.
  intros Hc Hi Hmax. unfold incr. rewrite (Hc i Hi). simpl.
  destruct (Z.ltb_spec (f i) INT_MAX); [|lia].
  rewrite wr_in_bounds by done. eexists. split; [done|].
  split; [apply length_insert|].
  intros c Hcb. rewrite length_insert in Hcb.
  destruct (Z.eqb_spec i c) as [<-|Hne]; simpl.
  - by apply rd_insert_eq.
  - rewrite rd_insert_other by lia. rewrite Z.add_0_r. by apply Hc.
Qed.

Section Tourney.

Variable b : CBaseBoard.
Hypothesis Hb : board_shape b.

Lemma tourney_loop_undirected l : ∀ pre count f,
  m_nMove b = pre ++ l →
  Z.of_nat (length count) = m_nSize b →
  counts count f →
  (∀ c, valid_cell b c → f c + 2 * Z.of_nat (length l) ≤ INT_MAX) →
  ∃ count',
    for_ (length l) (Z.of_nat (length pre)) snd (IsTourney_undirected_step b)
      (count, true)
    = Ok (count', forallb (CellIndexInRange b) l)
    ∧ length count' = length count
    ∧ (forallb (CellIndexInRange b) l = true →
       counts count'
         (λ c, f c + count_both (entries_from (Z.of_nat (length pre)) l) c)).
Proof.
  induction l as [|v l IH]; intros pre count f Hm Hlen Hc Hmax.
  - simpl. exists count. split; [done|]. split; [done|]. intros _.
    eapply counts_ext; [done|]. intros c. unfold count_both. simpl. lia.
  - cbn [length for_ snd forallb].
    assert (Hstep : IsTourney_undirected_step b (Z.of_nat (length pre)) (count, true)
      = if CellIndexInRange b v
        then count1 ← incr count (Z.of_nat (length pre));
             count2 ← incr count1 v; Ok (count2, true)
        else Ok (count, false)).
    { unfold IsTourney_undirected_step. by rewrite Hm, rd_app_middle. }
    rewrite Hstep. clear Hstep.
    destruct (CellIndexInRange b v) eqn:Hv.
    + apply (shape_in_range b v Hb) in Hv.
      assert (Hi : valid_cell b (Z.of_nat (length pre))).
      { destruct Hb as (_ & _ & _ & _ & Hl & _). unfold valid_cell.
        rewrite <- Hl, Hm, length_app. simpl. lia. }
      destruct (incr_run count f (Z.of_nat (length pre)) Hc) as
        (count1 & Hr1 & Hl1 & Hc1).
      { unfold valid_cell in Hi. lia. }
      { specialize (Hmax _ Hi). simpl in Hmax. lia. }
      rewrite Hr1. cbn [mbind res_bind].
      destruct (incr_run count1 _ v Hc1) as (count2 & Hr2 & Hl2 & Hc2).
      { unfold valid_cell in Hv. lia. }
      { specialize (Hmax _ Hv). simpl in Hmax.
        pose proof (indicator_bounds (Z.of_nat (length pre) =? v)). lia. }
      rewrite Hr2. cbn [mbind res_bind].
      edestruct (IH (pre ++ [v]) count2) as (count' & Hrun & Hl' & Hc');
        [ by rewrite <- app_assoc | lia | exact Hc2 | |].
      { intros c Hcv. specialize (Hmax _ Hcv). simpl in Hmax.
        pose proof (indicator_bounds (Z.of_nat (length pre) =? c)).
        pose proof (indicator_bounds (v =? c)). lia. }
      rewrite length_snoc_Z in Hrun, Hc'. rewrite Hrun.
      exists count'. split; [done|]. split; [congruence|].
      intros Hall. eapply counts_ext; [by apply Hc'|].
      intros c. unfold count_both. cbn [entries_from foldr fst snd]. lia.
    + cbn [mbind res_bind]. rewrite for_stop by done.
      exists count. simpl. by repeat split.
Qed.

Lemma tourney_loop_directed t2 l : ∀ l2 pre pre2 count f,
  m_nMove b = pre ++ l → t2 = pre2 ++ l2 → m_nMove2 b = Some t2 →
  length pre = length pre2 → length l = length l2 →
  Z.of_nat (length count) = m_nSize b →
  counts count f →
  (∀ c, valid_cell b c → f c + 2 * Z.of_nat (length l) ≤ INT_MAX) →
  ∃ count',
    for_ (length l) (Z.of_nat (length pre)) snd (IsTourney_directed_step b)
      (count, true)
    = Ok (count', forallb (CellIndexInRange b) l
                  && forallb (CellIndexInRange b) l2)
    ∧ length count' = length count
    ∧ (forallb (CellIndexInRange b) l && forallb (CellIndexInRange b) l2 = true →
       counts count'
         (λ c, f c + count_dest (entries_from (Z.of_nat (length pre)) l) c
                   + count_dest (entries_from (Z.of_nat (length pre)) l2) c)).
Proof.
  induction l as [|v l IH];
    intros l2 pre pre2 count f Hm Ht2 H2 Hpre Hll Hlen Hc Hmax.
  - destruct l2; [|done]. simpl. exists count. split; [done|].
    split; [done|].
    intros _. eapply counts_ext; [done|]. intros c. unfold count_dest. simpl. lia.
  - destruct l2 as [|v2 l2]; [done|].
    cbn [length for_ snd forallb].
    assert (Hbody : IsTourney_directed_step b (Z.of_nat (length pre)) (count, true)
      = s1 ← (if CellIndexInRange b v
              then count0 ← incr count v; Ok (count0, true)
              else Ok (count, false));
        if CellIndexInRange b v2
        then count0 ← incr s1.1 v2; Ok (count0, s1.2)
        else Ok (s1.1, false)).
    { unfold IsTourney_directed_step. rewrite Hm, rd_app_middle.
      cbn [mbind res_bind fst snd].
      destruct (if CellIndexInRange b v then _ else _); try done.
      cbn [mbind res_bind].
      rewrite (rd2_Some b t2) by done. by rewrite Ht2, Hpre, rd_app_middle. }
    rewrite Hbody. clear Hbody.
    assert (Hstep : ∀ cnt g w (flag : bool),
      length cnt = length count → counts cnt g →
      (∀ c, valid_cell b c → g c < INT_MAX) →
      ∃ cnt', (if CellIndexInRange b w
               then count0 ← incr cnt w; Ok (count0, flag)
               else Ok (cnt, false))
              = Ok (cnt', CellIndexInRange b w && flag)
        ∧ length cnt' = length count
        ∧ (CellIndexInRange b w = true →
           counts cnt' (λ c, g c + indicator (w =? c)))).
    { intros cnt g w flag Hl Hg Hgm.
      destruct (CellIndexInRange b w) eqn:Hw; [|by exists cnt].
      apply (shape_in_range b w Hb) in Hw.
      destruct (incr_run cnt g w Hg) as (cnt' & Hr & Hl' & Hc').
      { unfold valid_cell in Hw. lia. }
      { by apply Hgm. }
      rewrite Hr. exists cnt'. simpl. split; [done|].
      split; [congruence | done]. }
    destruct (Hstep count f v true eq_refl Hc) as (count1 & Hr1 & Hl1 & Hc1).
    { intros c Hcv. specialize (Hmax _ Hcv). simpl in Hmax. lia. }
    rewrite Hr1. cbn [mbind res_bind fst snd].
    destruct (CellIndexInRange b v) eqn:Hv.
    + specialize (Hc1 eq_refl).
      destruct (Hstep count1 _ v2 true Hl1 Hc1) as (count2 & Hr2 & Hl2 & Hc2).
      { intros c Hcv. specialize (Hmax _ Hcv). simpl in Hmax.
        pose proof (indicator_bounds (v =? c)). lia. }
      cbn [andb]. rewrite Hr2.
      destruct (CellIndexInRange b v2) eqn:Hv2.
      * specialize (Hc2 eq_refl).
        edestruct (IH l2 (pre ++ [v]) (pre2 ++ [v2]) count2)
          as (count' & Hrun & Hl' & Hc');
          [ by rewrite <- app_assoc | by rewrite <- app_assoc | done
          | rewrite !length_app; simpl; lia | simpl in Hll; lia | lia
          | exact Hc2 | |].
        { intros c Hcv. specialize (Hmax _ Hcv). simpl in Hmax.
          pose proof (indicator_bounds (v =? c)).
          pose proof (indicator_bounds (v2 =? c)). lia. }
        rewrite length_snoc_Z in Hrun, Hc'. cbn [andb mbind res_bind]. rewrite Hrun.
        exists count'. split; [done|]. split; [congruence|].
        intros Hall. eapply counts_ext; [by apply Hc'|].
        intros c. unfold count_dest. cbn [entries_from foldr fst snd]. lia.
      * cbn [mbind res_bind]. rewrite for_stop by done. exists count2. cbn [andb].
        rewrite andb_false_r. by repeat split.
    + cbn [andb].
      destruct (Hstep count1 f v2 false Hl1) as (count2 & Hr2 & Hl2 & _).
      { simpl in Hr1. injection Hr1 as <-. done. }
      { intros c Hcv. specialize (Hmax _ Hcv). simpl in Hmax. lia. }
      rewrite Hr2, andb_false_r. cbn [mbind res_bind]. rewrite for_stop by done.
      exists count2. by repeat split.
Qed.

Lemma tourney_loop_degree count : ∀ l pre (flag : bool),
  count = pre ++ l →
  for_ (length l) (Z.of_nat (length pre)) (λ _, true)
    (IsTourney_degree_step count) flag
  = Ok (flag && forallb (λ x, x =? 2) l).
Proof.
  induction l as [|x l IH]; intros pre flag Hcount.
  - simpl. by rewrite andb_true_r.
  - cbn [length for_ forallb].
    assert (Hstep : IsTourney_degree_step count (Z.of_nat (length pre)) flag
      = Ok (if negb (x =? 2) then false else flag)).
    { unfold IsTourney_degree_step. by rewrite Hcount, rd_app_middle. }
    rewrite Hstep. clear Hstep. cbn [mbind res_bind].
    rewrite <- (length_snoc_Z pre x).
    rewrite (IH (pre ++ [x])) by (by rewrite <- app_assoc).
    f_equal. destruct (x =? 2), flag; done.
Qed.

End Tourney.

Lemma counts_all_two count g :
  counts count g →
  forallb (λ x, x =? 2) count = true
  ↔ ∀ c, 0 ≤ c < Z.of_nat (length count) → g c = 2.
Proof.
  intros Hc. rewrite forallb_forall. split.
  - intros Hall c Hcb.
    specialize (Hc c Hcb). apply rd_Ok in Hc as [_ Hc].
    apply Z.eqb_eq, Hall, list_elem_of_In, list_elem_of_lookup. eauto.
  - intros Hall x Hin. apply Z.eqb_eq.
    apply list_elem_of_In, list_elem_of_lookup in Hin as [i Hx].
    pose proof (lookup_lt_Some _ _ _ Hx) as Hi.
    specialize (Hc (Z.of_nat i) ltac:(lia)). apply rd_Ok in Hc as [_ Hc].
    rewrite Nat2Z.id in Hc. rewrite <- (Hall (Z.of_nat i)) by lia. congruence.
Qed.

Lemma in_range_entries b i l :
  board_shape b →
  forallb (CellIndexInRange b) l = true
  ↔ Forall (λ e, valid_cell b e.2) (entries_from i l).
Proof.
  intros Hb. revert i. induction l as [|v l IH]; intros i; simpl.
  - split; [constructor | done].
  - specialize (IH (i + 1)). pose proof (shape_in_range b v Hb) as Hv. split.
    + intros [H1 H2]%andb_true_iff. constructor; [by apply Hv | by apply IH].
    + intros H. inversion H as [|? ? H1 H2]; subst.
      apply andb_true_iff. split; [by apply Hv | by apply IH].
Qed.

Lemma shape_length_primary b :
  board_shape b → length (m_nMove b) = Z.to_nat (m_nSize b).
Proof. intros (_ & _ & _ & _ & Hl & _). lia. Qed.

Lemma shape_length_secondary b t2 :
  board_shape b → m_nMove2 b = Some t2 → length t2 = Z.to_nat (m_nSize b).
Proof. intros (_ & _ & _ & _ & _ & Hl) H2. specialize (Hl _ H2). lia. Qed.

(** What [IsTourney] computes. *)
Lemma IsTourney_spec b :
  board_shape b →
  ∃ r, IsTourney b = Ok r
    ∧ (r = true ↔ all_cells_used b ∧ ∀ c, valid_cell b c → degree b c = 2).
Proof.
  intros Hb. pose proof (shape_size b Hb) as Hn.
  pose proof (shape_length_primary b Hb) as Hlen.
  assert (Hmax : ∀ c, valid_cell b c →
            0 + 2 * Z.of_nat (length (m_nMove b)) ≤ INT_MAX).
  { intros _ _. destruct Hb as (_ & _ & _ & ? & ? & _). lia. }
  unfold IsTourney, degree, all_cells_used, degree_both_endpoints,
    degree_destinations, all_entries, entries.
  rewrite <- Hlen.
  destruct (m_nMove2 b) as [t2|] eqn:H2; unfold IsUndirected; rewrite H2.
  - (* directed *)
    pose proof (shape_length_secondary b t2 Hb H2) as Hlen2.
    destruct (tourney_loop_directed b Hb t2 (m_nMove b) t2 [] []
                (replicate (length (m_nMove b)) 0) (λ _, 0))
      as (count' & Hrun & Hl' & Hc'); try done.
    { lia. }
    { rewrite length_replicate. lia. }
    { apply counts_replicate. }
    change (Z.of_nat (length [])) with 0 in Hrun, Hc'.
    simpl default. rewrite Hrun. cbn [mbind res_bind snd fst].
    pose proof (in_range_entries b 0 (m_nMove b) Hb) as E1.
    pose proof (in_range_entries b 0 t2 Hb) as E2.
    destruct (forallb (CellIndexInRange b) (m_nMove b)
              && forallb (CellIndexInRange b) t2) eqn:Hall; cbn [negb].
    + rewrite length_replicate in Hl'. rewrite <- Hl'.
      pose proof (tourney_loop_degree count' count' [] true eq_refl) as Hdeg.
      change (Z.of_nat (length [])) with 0 in Hdeg. rewrite Hdeg.
      apply andb_true_iff in Hall as [Hall1 Hall2]. specialize (Hc' eq_refl).
      eexists. split; [done|]. cbn [andb].
      rewrite (counts_all_two _ _ Hc'). split.
      * intros Htwo. split; [apply Forall_app; tauto|]. intros c Hcv.
        rewrite count_dest_app, <- (Htwo c); [lia|].
        unfold valid_cell in Hcv. lia.
      * intros [_ Htwo] c Hcb. rewrite <- (Htwo c), count_dest_app; [lia|].
        unfold valid_cell. lia.
    + exists false. split; [done|]. split; [done|].
      intros [[Hall1 Hall2]%Forall_app _].
      apply E1 in Hall1. apply E2 in Hall2. rewrite Hall1, Hall2 in Hall. done.
  - (* undirected *)
    destruct (tourney_loop_undirected b Hb (m_nMove b) []
                (replicate (length (m_nMove b)) 0) (λ _, 0))
      as (count' & Hrun & Hl' & Hc'); try done.
    { rewrite length_replicate. lia. }
    { apply counts_replicate. }
    change (Z.of_nat (length [])) with 0 in Hrun, Hc'.
    simpl default. rewrite Hrun. cbn [mbind res_bind snd fst].
    pose proof (in_range_entries b 0 (m_nMove b) Hb) as E1.
    rewrite app_nil_r.
    destruct (forallb (CellIndexInRange b) (m_nMove b)) eqn:Hall; cbn [negb].
    + rewrite length_replicate in Hl'. rewrite <- Hl'.
      pose proof (tourney_loop_degree count' count' [] true eq_refl) as Hdeg.
      change (Z.of_nat (length [])) with 0 in Hdeg. rewrite Hdeg.
      specialize (Hc' eq_refl).
      eexists. split; [done|]. cbn [andb].
      rewrite (counts_all_two _ _ Hc'). split.
      * intros Htwo. split; [tauto|]. intros c Hcv.
        rewrite <- (Htwo c); [lia|]. unfold valid_cell in Hcv. lia.
      * intros [_ Htwo] c Hcb. rewrite <- (Htwo c); [lia|].
        unfold valid_cell. lia.
    + exists false. split; [done|]. split; [done|].
      intros [Hall1 _]. apply E1 in Hall1. done.
Qed.

(** C2 (amended). [IsTourney] returns false if some entry of the primary
    table, or of the secondary table of a directed board, is no valid
    cell; otherwise it returns true iff every cell has degree 2, where
    the degree counts both endpoints of every entry on an undirected
    board and the destination of every entry on a directed one. *)
Theorem IsTourney_degree_two (b : CBaseBoard) :
  board_shape b →
  (¬ all_cells_used b → IsTourney b = Ok false)
  ∧ (all_cells_used b →
     ∃ r, IsTourney b = Ok r
       ∧ (r = true ↔ ∀ c, valid_cell b c → degree b c = 2))
  ∧ (IsUndirected b = true → ∀ c, degree b c = degree_both_endpoints b c)
  ∧ (IsDirected b = true → ∀ c, degree b c = degree_destinations b c).
Proof.
  intros Hb. destruct (IsTourney_spec b Hb) as (r & Hrun & Hr).
  split; [|split; [|split]].
  - intros Hnot. rewrite Hrun. f_equal.
    destruct r; [|done]. exfalso. apply Hnot. by apply Hr.
  - intros Hall. exists r. split; [done|]. rewrite Hr. tauto.
  - intros Hu c. unfold degree. by rewrite Hu.
  - intros Hd c. unfold degree, IsDirected in *.
    by destruct (IsUndirected b).
Qed.

Lemma IsTourney_degree_two_witness :
  IsTourney (board_of 2 1 [1; 0] (Some [1; 0])) = Ok true.
Proof.
  destruct (IsTourney_degree_two (board_of 2 1 [1; 0] (Some [1; 0]))
              ltac:(concrete_shape)) as (_ & Hused & _).
  destruct Hused as (r & Hrun & Hr).
  - unfold all_cells_used. vm_compute. repeat constructor; discriminate.
  - rewrite Hrun. f_equal. apply Hr. intros c Hc.
    unfold valid_cell in Hc. simpl in Hc.
    assert (c = 0 ∨ c = 1) as [->| ->] by lia; reflexivity.
Defined.

(** C2 as first stated fails on directed boards: on the directed
    two-cell board whose four slots all hold the other cell, [IsTourney]
    returns true, while each cell is an endpoint of every one of the four
    entries. *)
Lemma IsTourney_directed_counterexample :
  let b := board_of 2 1 [1; 0] (Some [1; 0]) in
  all_cells_used b
  ∧ IsTourney b = Ok true
  ∧ degree_both_endpoints b 0 = 4
  ∧ ¬ (∀ c, valid_cell b c → degree_both_endpoints b c = 2).
Proof.
  split; [|split; [|split]].
  - unfold all_cells_used. vm_compute. repeat constructor; discriminate.
  - reflexivity.
  - reflexivity.
  - intros H. specialize (H 0). unfold valid_cell in H. simpl in H.
    specialize (H ltac:(lia)). vm_compute in H. discriminate.
Qed.

(** ** The tour test *)

Lemma succ_cell_undirected b prev cur :
  IsUndirected b = true → succ_cell b prev cur = rd (m_nMove b) cur.
Proof.
  intros Hu. unfold succ_cell, IsDirected. rewrite Hu.
  destruct (rd (m_nMove b) cur); simpl; [by rewrite andb_false_r | done..].
Qed.

Lemma IsTour_cond_iff b s :
  board_shape b →
  IsTour_cond b s = true
  ↔ ts_count s < m_nSize b ∧ valid_cell b (ts_cur s) ∧ ts_cur s ≠ 0.
Proof.
  intros Hb. unfold IsTour_cond.
  rewrite !andb_true_iff, negb_true_iff, Z.ltb_lt, Z.eqb_neq.
  rewrite (shape_in_range b _ Hb). tauto.
Qed.

Lemma IsTour_body_Continue b s s1 :
  IsTour_body b s = Ok (Continue s1) →
  succ_cell b (ts_prev s) (ts_cur s) = Ok (ts_cur s1)
  ∧ ts_prev s1 = ts_cur s ∧ ts_count s1 = ts_count s + 1.
Proof.
  unfold IsTour_body, succ_cell, IsDirected.
  destruct (rd (m_nMove b) (ts_cur s)) as [dest0| | |]; simpl; try done.
  destruct (dest0 =? ts_prev s); simpl.
  - destruct (IsUndirected b); simpl; [done|].
    destruct (rd2 b (ts_cur s)); simpl; try done.
    by intros [= <-].
  - by intros [= <-].
Qed.

Lemma IsTour_body_Return b s v : IsTour_body b s = Ok (Return v) → v = false.
Proof.
  unfold IsTour_body.
  destruct (rd (m_nMove b) (ts_cur s)) as [dest0| | |]; simpl; try done.
  destruct (dest0 =? ts_prev s); simpl; [|done].
  destruct (IsUndirected b); simpl; [by intros [= <-]|].
  destruct (rd2 b (ts_cur s)); simpl; done.
Qed.

Lemma IsTour_body_of_succ b prev cur count nxt :
  succ_cell b prev cur = Ok nxt →
  (IsUndirected b = true → nxt ≠ prev) →
  IsTour_body b {| ts_prev := prev; ts_cur := cur; ts_count := count |}
  = Ok (Continue {| ts_prev := cur; ts_cur := nxt; ts_count := count + 1 |}).
Proof.
  unfold IsTour_body, succ_cell, IsDirected. simpl.
  destruct (rd (m_nMove b) cur) as [dest0| | |]; simpl; try done.
  destruct (Z.eqb_spec dest0 prev) as [->|Hne]; simpl.
  - destruct (IsUndirected b); simpl.
    + intros [= <-] Hback. by destruct Hback.
    + intros -> _. done.
  - by intros [= <-] _.
Qed.

Section Tour.

Variable b : CBaseBoard.
Hypothesis Hb : board_shape b.

Lemma IsTour_loop_Return fuel : ∀ s v,
  while_ fuel (IsTour_cond b) (IsTour_body b) s = Ok (Return v) → v = false.
Proof.
  induction fuel as [|fuel IH]; intros s v; simpl;
    destruct (IsTour_cond b s); try done.
  destruct (IsTour_body b s) as [[s1|v1]| | |] eqn:Hbody; simpl; try done.
  - apply IH.
  - intros [= <-]. by eapply IsTour_body_Return.
Qed.

(** A run of the loop that ends on cell 0 with [count == m_nSize] has
    followed a walk. *)
Lemma IsTour_loop_sound fuel : ∀ s s',
  while_ fuel (IsTour_cond b) (IsTour_body b) s = Ok (Continue s') →
  ts_count s' = m_nSize b → ts_cur s' = 0 →
  ∃ cells, walk b (ts_prev s) (ts_cur s) cells
    ∧ Forall (λ c, valid_cell b c ∧ c ≠ 0) cells
    ∧ ts_count s + Z.of_nat (length cells) = m_nSize b.
Proof.
  induction fuel as [|fuel IH]; intros s s'; simpl;
    destruct (IsTour_cond b s) eqn:Hcond; try done;
    try (intros [= <-] Hcount Hcur; exists []; rewrite Hcur;
         split; [constructor | split; [constructor | simpl; lia]]).
  destruct (IsTour_body b s) as [[s1|v1]| | |] eqn:Hbody; simpl; try done.
  intros Hrun Hcount Hcur.
  destruct (IH _ _ Hrun Hcount Hcur) as (cells & Hwalk & Hall & Hlen).
  apply IsTour_body_Continue in Hbody as (Hsucc & Hprev & Hcnt).
  apply IsTour_cond_iff in Hcond as (Hlt & Hvalid & Hnz); [|done].
  exists (ts_cur s :: cells). split; [|split].
  - econstructor; [exact Hsucc|]. by rewrite <- Hprev.
  - by constructor.
  - simpl length. lia.
Qed.

(** A walk that keeps to valid cells other than 0 drives the loop home;
    on an undirected board it must not turn back on its steps. *)
Lemma IsTour_loop_complete prev cur cells :
  walk b prev cur cells →
  ∀ count fuel,
    Forall (λ c, valid_cell b c ∧ c ≠ 0) cells →
    count + Z.of_nat (length cells) = m_nSize b →
    (length cells ≤ fuel)%nat →
    (IsUndirected b = true →
     NoDup (prev :: cells) ∧ ((length cells ≤ 1)%nat → prev ≠ 0)) →
    ∃ prev',
      while_ fuel (IsTour_cond b) (IsTour_body b)
        {| ts_prev := prev; ts_cur := cur; ts_count := count |}
      = Ok (Continue {| ts_prev := prev'; ts_cur := 0;
                        ts_count := m_nSize b |}).
Proof.
  induction 1 as [prev|prev cur nxt cells Hsucc Hwalk IH];
    intros count fuel Hall Hlen Hfuel Hund.
  - exists prev. simpl in Hlen.
    assert (Hcond : IsTour_cond b
              {| ts_prev := prev; ts_cur := 0; ts_count := count |} = false)
      by (unfold IsTour_cond; simpl; by rewrite andb_false_r).
    replace (m_nSize b) with count by lia.
    destruct fuel; simpl; by rewrite Hcond.
  - apply Forall_cons_1 in Hall as [[Hvalid Hnz] Hall].
    simpl length in Hlen, Hfuel.
    destruct fuel as [|fuel]; [lia|].
    assert (Hcond : IsTour_cond b
              {| ts_prev := prev; ts_cur := cur; ts_count := count |} = true)
      by (apply IsTour_cond_iff; simpl; [done | repeat split; [lia | apply Hvalid..| done]]).
    simpl. rewrite Hcond.
    rewrite (IsTour_body_of_succ b prev cur count nxt Hsucc).
    + simpl. apply IH; [done | lia | lia |].
      intros Hu. destruct (Hund Hu) as [Hnd _].
      apply NoDup_cons_1_2 in Hnd. split; [done | by intros _].
    + intros Hu. destruct (Hund Hu) as [Hnd Hshort].
      inversion Hwalk as [p|p c n' cs Hs Hw]; subst.
      * intros <-. by apply Hshort.
      * intros <-. apply NoDup_cons_1_1 in Hnd.
        apply Hnd. by do 2 constructor.
Qed.

(** The loop always comes to an end within its fuel. *)
Lemma IsTour_loop_total fuel : ∀ s,
  m_nSize b - ts_count s ≤ Z.of_nat fuel →
  ∃ r, while_ fuel (IsTour_cond b) (IsTour_body b) s = Ok r.
Proof.
  induction fuel as [|fuel IH]; intros s Hfuel; simpl;
    destruct (IsTour_cond b s) eqn:Hcond; eauto;
    apply IsTour_cond_iff in Hcond as (Hlt & Hvalid & Hnz); try done;
    try lia.
  destruct (shape_primary b _ Hb Hvalid) as [dest0 Hd].
  assert (Hbody : (∃ v, IsTour_body b s = Ok (Return v))
                  ∨ ∃ s1, IsTour_body b s = Ok (Continue s1)
                          ∧ ts_count s1 = ts_count s + 1).
  { unfold IsTour_body. rewrite Hd. simpl.
    destruct (dest0 =? ts_prev s); [|right; eauto].
    unfold IsUndirected, rd2.
    destruct (m_nMove2 b) as [t2|] eqn:H2; [|left; eauto].
    destruct (shape_secondary b t2 _ Hb H2 Hvalid) as [w Hw].
    rewrite Hw. right. eauto. }
  destruct Hbody as [[v ->]|(s1 & -> & Hcnt)]; simpl; [eauto|].
  apply IH. lia.
Qed.

(** On an undirected board the cells of a walk that avoids cell 0 are
    determined by the cell it starts on. *)
Lemma walk_undirected_det prev cur cells :
  IsUndirected b = true →
  walk b prev cur cells → ∀ prev' cells',
  walk b prev' cur cells' → 0 ∉ cells → 0 ∉ cells' → cells = cells'.
Proof.
  intros Hu. induction 1 as [prev|prev cur nxt cells Hsucc Hwalk IH];
    intros prev' cells' Hwalk' H0 H0'.
  - inversion Hwalk'; subst; [done|].
    exfalso. apply H0'. constructor.
  - inversion Hwalk' as [|p c nxt' cs Hsucc' Hw']; subst.
    + exfalso. apply H0. constructor.
    + rewrite succ_cell_undirected in Hsucc, Hsucc' by done.
      assert (nxt' = nxt) as -> by congruence.
      f_equal. eapply IH; [done | |].
      * intros Hin. apply H0. by constructor.
      * intros Hin. apply H0'. by constructor.
Qed.

Lemma walk_suffix l1 : ∀ prev cur x l2,
  walk b prev cur (l1 ++ x :: l2) → ∃ prev', walk b prev' x (x :: l2).
Proof.
  induction l1 as [|y l1 IH]; intros prev cur x l2 Hwalk; simpl in Hwalk.
  - inversion Hwalk; subst. eexists. econstructor; done.
  - inversion Hwalk; subst. by eapply IH.
Qed.

Lemma walk_undirected_NoDup prev cur cells :
  IsUndirected b = true → walk b prev cur cells → 0 ∉ cells → NoDup cells.
Proof.
  intros Hu Hwalk. induction Hwalk as [prev|prev cur nxt cells Hsucc Hwalk IH];
    intros H0; [constructor|].
  assert (H0' : 0 ∉ cells) by (intros Hin; apply H0; by constructor).
  constructor; [|by apply IH].
  intros Hin. apply list_elem_of_split in Hin as (l1 & l2 & ->).
  destruct (walk_suffix _ _ _ _ _ Hwalk) as [prev' Hsuf].
  assert (Heq : cur :: l1 ++ cur :: l2 = cur :: l2).
  { eapply (walk_undirected_det prev cur); [done | | exact Hsuf | done |].
    - econstructor; done.
    - intros Hin. apply H0. rewrite elem_of_cons in Hin.
      destruct Hin as [->|Hin]; [constructor|].
      constructor. apply elem_of_app. right. by constructor. }
  apply (f_equal length) in Heq. simpl in Heq.
  rewrite length_app in Heq. simpl in Heq. lia.
Qed.

Lemma Forall_valid_nonzero cells :
  Forall (valid_cell b) cells → 0 ∉ cells →
  Forall (λ c, valid_cell b c ∧ c ≠ 0) cells.
Proof.
  intros Hall H0. induction Hall as [|c cells Hc Hall IH]; constructor.
  - split; [done|]. intros ->. apply H0. constructor.
  - apply IH. intros Hin. apply H0. by constructor.
Qed.

Lemma Forall_nonzero_notin cells :
  Forall (λ c, valid_cell b c ∧ c ≠ 0) cells →
  Forall (valid_cell b) cells ∧ 0 ∉ cells.
Proof.
  induction 1 as [|c cells [Hc Hnz] Hall [IH1 IH2]].
  - split; [constructor | by intros ?%elem_of_nil].
  - split; [by constructor|].
    intros [?|?]%elem_of_cons; [by apply Hnz | done].
Qed.

(** [IsTour] returns true exactly when the walk from cell 0 comes back
    to cell 0 after [m_nSize] steps spent on valid cells other than 0
    and, on an undirected board, without turning back on its steps. *)
Lemma IsTour_true_walk :
  1 ≤ m_nSize b →
  IsTour b = Ok true →
  ∃ cells, closed_walk b cells
    ∧ Z.of_nat (length (0 :: cells)) = m_nSize b
    ∧ Forall (λ c, valid_cell b c ∧ c ≠ 0) cells.
Proof.
  intros Hn. unfold IsTour.
  destruct (rd (m_nMove b) 0) as [c1| | |] eqn:Hc1; simpl; try done.
  destruct (while_ _ _ _ _) as [[s'|v]| | |] eqn:Hrun; simpl; try done.
  - intros [= Hend]. apply andb_true_iff in Hend as [Hcnt Hcur].
    apply Z.eqb_eq in Hcnt, Hcur.
    destruct (IsTour_loop_sound _ _ _ Hrun Hcnt Hcur) as (cells & Hw & Hall & Hl).
    simpl in Hw, Hl. exists cells. split; [by exists c1|].
    split; [simpl length; lia | done].
  - intros [= ->]. by apply IsTour_loop_Return in Hrun.
Qed.

Lemma IsTour_of_walk cells :
  closed_walk b cells →
  Z.of_nat (length (0 :: cells)) = m_nSize b →
  Forall (λ c, valid_cell b c ∧ c ≠ 0) cells →
  (IsUndirected b = true → NoDup (0 :: cells) ∧ 3 ≤ m_nSize b) →
  IsTour b = Ok true.
Proof.
  intros (c1 & Hc1 & Hwalk) Hlen Hall Hund. unfold IsTour.
  rewrite Hc1. simpl. simpl length in Hlen.
  destruct (IsTour_loop_complete 0 c1 cells Hwalk 1 (Z.to_nat (m_nSize b)))
    as [prev' ->]; [done | lia | lia | |].
  - intros Hu. destruct (Hund Hu) as [Hnd Hn]. split; [done | lia].
  - simpl. by rewrite !Z.eqb_refl.
Qed.

Lemma primary_cycle_walk (k : nat) : ∀ i,
  3 ≤ m_nSize b → primary_cycle b →
  1 ≤ i → i + Z.of_nat k = m_nSize b →
  walk b (i - 1) (i mod m_nSize b) (seqZ i (Z.of_nat k)).
Proof.
  induction k as [|k IH]; intros i Hn Hcyc Hi Hik.
  - replace i with (m_nSize b) by lia. rewrite Z.mod_same by lia.
    rewrite seqZ_nil by lia. constructor.
  - rewrite Z.mod_small by lia. rewrite seqZ_cons by lia.
    replace (Z.pred (Z.of_nat (S k))) with (Z.of_nat k) by lia.
    apply (walk_step b (i - 1) i ((i + 1) mod m_nSize b)).
    + unfold succ_cell. rewrite (Hcyc i) by (unfold valid_cell; lia). simpl.
      destruct (Z.eqb_spec ((i + 1) mod m_nSize b) (i - 1)) as [Heq|]; [|done].
      exfalso. destruct (decide (i + 1 = m_nSize b)) as [E|E].
      * rewrite E, Z.mod_same in Heq by lia. lia.
      * rewrite Z.mod_small in Heq by lia. lia.
    + pose proof (IH (i + 1) Hn Hcyc ltac:(lia) ltac:(lia)) as Hw.
      replace (i + 1 - 1) with i in Hw by lia.
      replace (Z.succ i) with (i + 1) by lia. exact Hw.
Qed.

Lemma primary_cycle_hamiltonian :
  3 ≤ m_nSize b → primary_cycle b → hamiltonian_cycle b.
Proof.
  intros Hn Hcyc. exists (seqZ 1 (m_nSize b - 1)).
  assert (Hseq : 0 :: seqZ 1 (m_nSize b - 1) = seqZ 0 (m_nSize b))
    by (rewrite (seqZ_cons 0) by lia; f_equal).
  split; [|split; [|split]].
  - exists 1. split.
    + rewrite (Hcyc 0) by (unfold valid_cell; lia).
      by rewrite Z.mod_small by lia.
    + pose proof (primary_cycle_walk (Z.to_nat (m_nSize b - 1)) 1 Hn Hcyc) as Hw.
      rewrite Z2Nat.id, Z.mod_small in Hw by lia. apply Hw; lia.
  - rewrite Hseq, length_seqZ. lia.
  - rewrite Hseq. apply Forall_seqZ. unfold valid_cell. lia.
  - rewrite Hseq. apply NoDup_seqZ.
Qed.

End Tour.

(** C1 (amended). On a well-shaped board with at least two cells
    [IsTour] returns.  On an undirected board with at least three cells
    it returns true iff the moves form a single Hamiltonian cycle.  On a
    directed board it returns true for every Hamiltonian cycle, and more
    generally iff the walk from cell 0 is back at cell 0 after [m_nSize]
    steps spent on valid cells other than 0.  A primary table encoding
    [0 -> 1 -> ... -> n-1 -> 0] with at least three cells passes, and a
    board whose cell 0 is [UNUSED] fails. *)
Theorem IsTour_hamiltonian (b : CBaseBoard) :
  board_shape b → 2 ≤ m_nSize b →
  (∃ r, IsTour b = Ok r)
  ∧ (IsUndirected b = true → 3 ≤ m_nSize b →
     IsTour b = Ok true ↔ hamiltonian_cycle b)
  ∧ (IsDirected b = true →
     (hamiltonian_cycle b → IsTour b = Ok true)
     ∧ (IsTour b = Ok true
        ↔ ∃ cells, closed_walk b cells
            ∧ Z.of_nat (length (0 :: cells)) = m_nSize b
            ∧ Forall (λ c, valid_cell b c ∧ c ≠ 0) cells))
  ∧ (3 ≤ m_nSize b → primary_cycle b → IsTour b = Ok true)
  ∧ (rd (m_nMove b) 0 = Ok UNUSED → IsTour b = Ok false).
Proof.
  intros Hb Hn.
  assert (Hzero : valid_cell b 0) by (unfold valid_cell; lia).
  assert (Hham : hamiltonian_cycle b →
            (IsUndirected b = true → 3 ≤ m_nSize b) → IsTour b = Ok true).
  { intros (cells & Hcw & Hlen & Hvalid & Hnd) Hund.
    apply (IsTour_of_walk b Hb cells); [done | done | |].
    - apply Forall_valid_nonzero.
      + by apply Forall_cons_1 in Hvalid as [_ ?].
      + by apply NoDup_cons_1_1 in Hnd.
    - intros Hu. split; [done | by apply Hund]. }
  assert (Hdir : IsDirected b = true → IsUndirected b = true → 3 ≤ m_nSize b).
  { unfold IsDirected. by intros ->%negb_true_iff. }
  split; [|split; [|split; [|split]]].
  - unfold IsTour. destruct (shape_primary b 0 Hb Hzero) as [c1 ->]. simpl.
    destruct (IsTour_loop_total b Hb (Z.to_nat (m_nSize b))
                {| ts_prev := 0; ts_cur := c1; ts_count := 1 |}) as [r ->].
    { simpl. lia. }
    simpl. destruct r; eauto.
  - intros Hu Hn3. split; [|by auto].
    intros Htrue.
    destruct (IsTour_true_walk b Hb ltac:(lia) Htrue) as
      (cells & Hcw & Hlen & Hall).
    destruct (Forall_nonzero_notin b cells Hall) as [Hvalid H0].
    exists cells. split; [done|]. split; [done|].
    split; [by constructor|].
    apply NoDup_cons_2; [done|].
    destruct Hcw as (c1 & _ & Hwalk).
    by eapply walk_undirected_NoDup.
  - intros Hd. split; [by auto|]. split.
    + apply IsTour_true_walk; [done | lia].
    + intros (cells & Hcw & Hlen & Hall).
      apply (IsTour_of_walk b Hb cells); [done..|].
      intros Hu. exfalso. unfold IsDirected in Hd. by rewrite Hu in Hd.
  - intros Hn3 Hcyc. apply Hham; [|done].
    by apply primary_cycle_hamiltonian.
  - intros Hunused. unfold IsTour. rewrite Hunused. simpl.
    assert (Hcond : IsTour_cond b
              {| ts_prev := 0; ts_cur := UNUSED; ts_count := 1 |} = false).
    { unfold IsTour_cond, CellIndexInRange. simpl. by rewrite andb_false_r. }
    destruct (Z.to_nat (m_nSize b)); simpl; rewrite Hcond; simpl;
      by rewrite andb_false_r.
Qed.

Lemma IsTour_hamiltonian_witness :
  IsTour (board_of 2 2 [1; 2; 3; 0] None) = Ok true.
Proof.
  destruct (IsTour_hamiltonian (board_of 2 2 [1; 2; 3; 0] None)
              ltac:(concrete_shape) ltac:(simpl; lia))
    as (_ & _ & _ & Hcycle & _).
  apply Hcycle; [simpl; lia|].
  intros i Hi. unfold valid_cell in Hi. simpl in Hi.
  assert (i = 0 ∨ i = 1 ∨ i = 2 ∨ i = 3) as [->|[->|[->| ->]]] by lia;
    reflexivity.
Defined.

(** C1 as first stated fails in two places.  On the undirected two-cell
    board the table [0 -> 1 -> 0] is a Hamiltonian cycle, and [IsTour]
    returns false (the walk would have to turn back).  On a directed
    board the walk may pass a cell twice: after [MakeDirected] and the
    insertions (0,1), (1,2), (2,1) on the empty four-cell board, [IsTour]
    returns true although cell 3 is on no move at all. *)
Lemma IsTour_counterexample :
  (let b := board_of 2 1 [1; 0] None in
   primary_cycle b ∧ hamiltonian_cycle b ∧ IsTour b = Ok false)
  ∧ (let b := board_of 2 2 [1; 0; 1; -1] (Some [-1; 2; 1; -1]) in
     (b0 ← MakeDirected (CBaseBoard_new 2 2);
      r1 ← InsertDirectedMove false b0 0 1;
      r2 ← InsertDirectedMove false r1.2 1 2;
      r3 ← InsertDirectedMove false r2.2 2 1;
      Ok r3.2) = Ok b
     ∧ IsTour b = Ok true
     ∧ ¬ hamiltonian_cycle b).
Proof.
  split.
  - split; [|split; [|reflexivity]].
    + intros i Hi. unfold valid_cell in Hi. simpl in Hi.
      assert (i = 0 ∨ i = 1) as [->| ->] by lia; reflexivity.
    + exists [1]. split; [|split; [reflexivity|split]].
      * exists 1. split; [reflexivity|].
        apply (walk_step _ 0 1 0); [reflexivity | constructor].
      * repeat constructor; unfold valid_cell; simpl; lia.
      * apply NoDup_cons_2; [|apply NoDup_cons_2; [|constructor]];
          rewrite ?elem_of_cons, ?elem_of_nil; lia || tauto.
  - split; [reflexivity|]. split; [reflexivity|].
    intros (cells & (c1 & Hc1 & Hwalk) & Hlen & Hvalid & Hnd).
    vm_compute in Hc1. injection Hc1 as <-.
    inversion Hwalk as [|p c n1 cells1 Hs1 Hw1]; subst.
    vm_compute in Hs1. injection Hs1 as <-.
    inversion Hw1 as [|p c n2 cells2 Hs2 Hw2]; subst.
    vm_compute in Hs2. injection Hs2 as <-.
    inversion Hw2 as [|p c n3 cells3 Hs3 Hw3]; subst.
    apply NoDup_cons_1_2, NoDup_cons_1_1 in Hnd.
    apply Hnd. do 2 constructor.
Qed.

(** ** From the undirected to the directed representation and back *)

Lemma count_dest_notin k l c : c ∉ l → count_dest (entries_from k l) c = 0.
Proof.
  revert k. induction l as [|v l IH]; intros k Hc; [done|].
  unfold count_dest in *. cbn [entries_from foldr snd].
  rewrite IH by (intros Hin; apply Hc; by constructor).
  destruct (Z.eqb_spec v c) as [->|]; [|done].
  exfalso. apply Hc. constructor.
Qed.

Lemma count_dest_in k l c : c ∈ l → 1 ≤ count_dest (entries_from k l) c.
Proof.
  revert k. induction l as [|v l IH]; intros k Hc.
  - by apply elem_of_nil in Hc.
  - unfold count_dest in *. cbn [entries_from foldr snd].
    pose proof (count_dest_bounds (k + 1) l c) as Hb. unfold count_dest in Hb.
    apply elem_of_cons in Hc as [->|Hc].
    + rewrite Z.eqb_refl. simpl. lia.
    + specialize (IH (k + 1) Hc). pose proof (indicator_bounds (v =? c)). lia.
Qed.

Lemma count_dest_NoDup k l c : NoDup l → count_dest (entries_from k l) c ≤ 1.
Proof.
  intros Hnd. revert k. induction Hnd as [|v l Hv Hnd IH]; intros k.
  - unfold count_dest. simpl. lia.
  - unfold count_dest in *. cbn [entries_from foldr snd].
    destruct (Z.eqb_spec v c) as [->|]; simpl.
    + pose proof (count_dest_notin (k + 1) l c Hv) as H0.
      unfold count_dest in H0. lia.
    + apply IH.
Qed.

Lemma NoDup_of_count_dest l : ∀ k,
  (∀ c, c ∈ l → count_dest (entries_from k l) c ≤ 1) → NoDup l.
Proof.
  induction l as [|v l IH]; intros k Hcount; [constructor|].
  apply NoDup_cons_2.
  - intros Hin. specialize (Hcount v ltac:(constructor)).
    pose proof (count_dest_in (k + 1) l v Hin) as H1.
    unfold count_dest in *. cbn [entries_from foldr snd] in Hcount.
    rewrite Z.eqb_refl in Hcount. simpl in Hcount. lia.
  - apply (IH (k + 1)). intros c Hc.
    specialize (Hcount c ltac:(by constructor)).
    unfold count_dest in *. cbn [entries_from foldr snd] in Hcount.
    pose proof (indicator_bounds (v =? c)). lia.
Qed.

Lemma Forall_entries_valid b k l :
  Forall (λ e, valid_cell b e.2) (entries_from k l)
  ↔ Forall (λ v, 0 ≤ v < m_nSize b) l.
Proof.
  revert k. induction l as [|v l IH]; intros k; simpl.
  - split; constructor.
  - split; intros H; apply Forall_cons_1 in H as [H1 H2];
      (constructor; [exact H1 | by apply (IH (k + 1))]).
Qed.

Lemma IsTourney_undirected_bijective b :
  board_shape b → IsUndirected b = true → IsTourney b = Ok true →
  bijective_table (m_nSize b) (m_nMove b).
Proof.
  intros Hb Hu Htrue.
  destruct (IsTourney_spec b Hb) as (r & Hrun & Hr).
  assert (r = true) as -> by congruence.
  destruct (proj1 Hr eq_refl) as [Hused Hdeg]. clear Hr Hrun.
  assert (H2 : m_nMove2 b = None)
    by (unfold IsUndirected in Hu; by destruct (m_nMove2 b)).
  unfold all_cells_used, degree, degree_both_endpoints, all_entries, entries
    in Hused, Hdeg.
  rewrite Hu in Hdeg. rewrite H2 in Hused, Hdeg. simpl in Hused, Hdeg.
  rewrite app_nil_r in Hused, Hdeg.
  assert (Hlen : Z.of_nat (length (m_nMove b)) = m_nSize b)
    by (by destruct Hb as (_ & _ & _ & _ & ? & _)).
  assert (Hone : ∀ c, 0 ≤ c < m_nSize b →
            count_dest (entries_from 0 (m_nMove b)) c = 1).
  { intros c Hc. specialize (Hdeg c Hc).
    rewrite count_both_entries in Hdeg. rewrite Hlen in Hdeg.
    destruct (Z.leb_spec 0 c), (Z.ltb_spec c (0 + m_nSize b));
      simpl in Hdeg; lia. }
  apply Forall_entries_valid in Hused.
  split; [done|]. split; [done|]. split.
  - apply (NoDup_of_count_dest _ 0). intros c Hc.
    rewrite Hone; [lia|].
    apply list_elem_of_lookup in Hc as [i Hi].
    rewrite Forall_lookup in Hused. by eapply Hused.
  - intros c Hc. destruct (decide (c ∈ m_nMove b)) as [|Hnot]; [done|].
    pose proof (count_dest_notin 0 _ c Hnot). specialize (Hone c Hc). lia.
Qed.

Lemma bijective_rd n t i :
  bijective_table n t → 0 ≤ i < n → ∃ c, rd t i = Ok c ∧ 0 ≤ c < n.
Proof.
  intros (Hlen & Hall & _) Hi.
  destruct (rd_in_bounds t i ltac:(lia)) as [c Hc]. exists c. split; [done|].
  apply rd_Ok in Hc as [_ Hc]. rewrite Forall_lookup in Hall. by eapply Hall.
Qed.

Lemma bijective_inj n t i j c :
  bijective_table n t → rd t i = Ok c → rd t j = Ok c → i = j.
Proof.
  intros (_ & _ & Hnd & _) [Hi Hic]%rd_Ok [Hj Hjc]%rd_Ok.
  rewrite NoDup_alt in Hnd. specialize (Hnd _ _ _ Hic Hjc). lia.
Qed.

Lemma bijective_surj n t c :
  bijective_table n t → 0 ≤ c < n → ∃ i, rd t i = Ok c ∧ 0 ≤ i < n.
Proof.
  intros (Hlen & _ & _ & Hsurj) Hc.
  apply Hsurj, list_elem_of_lookup in Hc as [i Hi].
  exists (Z.of_nat i). pose proof (lookup_lt_Some _ _ _ Hi).
  split; [|lia]. apply rd_Ok. split; [lia|]. by rewrite Nat2Z.id.
Qed.

Lemma inverse_bijective n t t2 :
  bijective_table n t → Z.of_nat (length t2) = n → inverse_table t t2 →
  bijective_table n t2.
Proof.
  intros Hbij Hlen Hinv.
  assert (Hback : ∀ c i, rd t2 c = Ok i → rd t i = Ok c ∧ 0 ≤ i < n).
  { intros c i Hci. pose proof (rd_Ok_bounds _ _ _ Hci) as Hc.
    destruct (bijective_surj n t c Hbij ltac:(lia)) as (i' & Hi' & Hr).
    pose proof (Hinv _ _ Hi'). assert (i = i') as -> by congruence. done. }
  split; [done|]. split; [|split].
  - apply Forall_lookup. intros c i Hci.
    pose proof (lookup_lt_Some _ _ _ Hci).
    apply (Hback (Z.of_nat c) i). apply rd_Ok. split; [lia|].
    by rewrite Nat2Z.id.
  - apply NoDup_alt. intros c1 c2 i H1 H2.
    destruct (Hback (Z.of_nat c1) i) as [E1 _];
      [apply rd_Ok; split; [lia | by rewrite Nat2Z.id]|].
    destruct (Hback (Z.of_nat c2) i) as [E2 _];
      [apply rd_Ok; split; [lia | by rewrite Nat2Z.id]|].
    assert (Z.of_nat c1 = Z.of_nat c2) by congruence. lia.
  - intros i Hi. destruct (bijective_rd n t i Hbij Hi) as (c & Hc & _).
    apply Hinv in Hc. apply rd_Ok in Hc as [_ Hc].
    apply list_elem_of_lookup. eauto.
Qed.

Lemma bijective_count_dest n t c :
  bijective_table n t → 0 ≤ c < n → count_dest (entries_from 0 t) c = 1.
Proof.
  intros (_ & _ & Hnd & Hsurj) Hc.
  pose proof (count_dest_NoDup 0 t c Hnd).
  pose proof (count_dest_in 0 t c (Hsurj c Hc)). lia.
Qed.

Lemma bijective_IsTourney_directed b t2 :
  board_shape b → m_nMove2 b = Some t2 →
  bijective_table (m_nSize b) (m_nMove b) →
  bijective_table (m_nSize b) t2 →
  IsTourney b = Ok true.
Proof.
  intros Hb H2 Hbij Hbij2.
  destruct (IsTourney_spec b Hb) as (r & -> & Hr). f_equal. apply Hr.
  unfold all_cells_used, degree, degree_destinations, all_entries, entries,
    IsUndirected.
  rewrite H2. simpl. split.
  - apply Forall_app. split; apply Forall_entries_valid.
    + by destruct Hbij as (_ & ? & _).
    + by destruct Hbij2 as (_ & ? & _).
  - intros c Hc. rewrite count_dest_app.
    rewrite (bijective_count_dest _ _ c Hbij Hc).
    rewrite (bijective_count_dest _ _ c Hbij2 Hc). done.
Qed.

Lemma bijective_IsTourney_undirected b :
  board_shape b → m_nMove2 b = None →
  bijective_table (m_nSize b) (m_nMove b) →
  IsTourney b = Ok true.
Proof.
  intros Hb H2 Hbij.
  destruct (IsTourney_spec b Hb) as (r & -> & Hr). f_equal. apply Hr.
  unfold all_cells_used, degree, degree_both_endpoints, all_entries, entries,
    IsUndirected.
  rewrite H2. simpl. rewrite app_nil_r. split.
  - apply Forall_entries_valid. by destruct Hbij as (_ & ? & _).
  - intros c Hc. rewrite count_both_entries.
    rewrite (bijective_count_dest _ _ c Hbij Hc).
    destruct Hbij as (-> & _). unfold valid_cell in Hc.
    destruct (Z.leb_spec 0 c), (Z.ltb_spec c (0 + m_nSize b)); simpl; lia.
Qed.

Lemma MakeDirected_loop b :
  board_shape b → bijective_table (m_nSize b) (m_nMove b) →
  ∀ l pre t2,
    m_nMove b = pre ++ l →
    Z.of_nat (length t2) = m_nSize b →
    (∀ i c, pre !! i = Some c → rd t2 c = Ok (Z.of_nat i)) →
    ∃ t2',
      for_ (length l) (Z.of_nat (length pre)) (λ _, true)
        (MakeDirected_step b) t2 = Ok t2'
      ∧ Z.of_nat (length t2') = m_nSize b
      ∧ ∀ i c, (pre ++ l) !! i = Some c → rd t2' c = Ok (Z.of_nat i).
Proof.
  intros Hb Hbij. induction l as [|v l IH]; intros pre t2 Hm Hlen Hinv.
  - exists t2. rewrite app_nil_r. by repeat split.
  - cbn [length for_].
    assert (Hv : m_nMove b !! length pre = Some v)
      by (rewrite Hm; by apply list_lookup_middle).
    assert (Hvalid : valid_cell b v).
    { destruct Hbij as (_ & Hall & _). rewrite Forall_lookup in Hall.
      by eapply Hall. }
    assert (Hstep : MakeDirected_step b (Z.of_nat (length pre)) t2
                    = Ok (<[Z.to_nat v := Z.of_nat (length pre)]> t2)).
    { unfold MakeDirected_step. rewrite Hm, rd_app_middle. simpl.
      rewrite (proj2 (shape_in_range b v Hb) Hvalid).
      apply wr_in_bounds. unfold valid_cell in Hvalid. lia. }
    rewrite Hstep. cbn [mbind res_bind].
    rewrite <- (length_snoc_Z pre v).
    destruct (IH (pre ++ [v]) (<[Z.to_nat v := Z.of_nat (length pre)]> t2))
      as (t2' & Hrun & Hlen' & Hinv').
    + by rewrite <- app_assoc.
    + by rewrite length_insert.
    + intros i c Hi.
      apply lookup_snoc_Some in Hi as [[Hlt Hi]|[-> ->]].
      * assert (c ≠ v).
        { intros ->. destruct Hbij as (_ & _ & Hnd & _).
          rewrite NoDup_alt in Hnd.
          assert (m_nMove b !! i = Some v)
            by (rewrite Hm; by apply lookup_app_l_Some).
          specialize (Hnd _ _ _ H Hv). lia. }
        rewrite rd_insert_other; [by apply Hinv | done |].
        unfold valid_cell in Hvalid. lia.
      * apply rd_insert_eq. unfold valid_cell in Hvalid. lia.
    + exists t2'. rewrite <- app_assoc in Hinv'. done.
Qed.

Lemma MakeDirected_bijective b :
  board_shape b → IsUndirected b = true →
  bijective_table (m_nSize b) (m_nMove b) →
  ∃ t2, MakeDirected b = Ok (with_move2 b (Some t2))
    ∧ Z.of_nat (length t2) = m_nSize b
    ∧ inverse_table (m_nMove b) t2.
Proof.
  intros Hb Hu Hbij. unfold MakeDirected. rewrite Hu.
  pose proof (shape_size b Hb) as Hn.
  destruct (MakeDirected_loop b Hb Hbij (m_nMove b) []
              (replicate (Z.to_nat (m_nSize b)) UNUSED))
    as (t2 & Hrun & Hlen & Hinv); [done | | done |].
  { rewrite length_replicate. lia. }
  rewrite (shape_length_primary b Hb) in Hrun.
  change (Z.of_nat (length [])) with 0 in Hrun. cbv zeta. rewrite Hrun.
  exists t2. split; [done|]. split; [done|].
  intros i c [Hi Hc]%rd_Ok. specialize (Hinv _ _ Hc).
  by rewrite Z2Nat.id in Hinv.
Qed.

Lemma free_slots_length t : (free_slots t ≤ length t)%nat.
Proof.
  induction t as [|v t IH]; simpl; [lia|]. destruct (v =? UNUSED); lia.
Qed.

Lemma free_slots_fill t : ∀ i v,
  t !! i = Some UNUSED → v ≠ UNUSED →
  (free_slots (<[i := v]> t) + 1 = free_slots t)%nat.
Proof.
  induction t as [|x t IH]; intros i v Hi Hv; [done|].
  destruct i as [|i]; simpl in *.
  - injection Hi as ->. rewrite Z.eqb_refl.
    destruct (Z.eqb_spec v UNUSED); [done | lia].
  - rewrite <- (IH i v Hi Hv). lia.
Qed.

Section Undirect.

Variable b : CBaseBoard.
Variable t2 : list Z.
Hypothesis Hb : board_shape b.
Hypothesis H2 : m_nMove2 b = Some t2.
Hypothesis Hbij : bijective_table (m_nSize b) (m_nMove b).
Hypothesis Hinv : inverse_table (m_nMove b) t2.

Lemma move_valid c v : rd (m_nMove b) c = Ok v → valid_cell b c ∧ valid_cell b v.
Proof.
  intros Hc. pose proof (rd_Ok_bounds _ _ _ Hc) as Hcb.
  destruct Hbij as (Hlen & Hall & _). split; [unfold valid_cell; lia|].
  apply rd_Ok in Hc as [_ Hc]. rewrite Forall_lookup in Hall. by eapply Hall.
Qed.

Lemma move_not_UNUSED c v : rd (m_nMove b) c = Ok v → v ≠ UNUSED.
Proof.
  intros [_ Hv]%move_valid. unfold valid_cell, UNUSED in *. lia.
Qed.

Lemma MakeUndirected_body_run start s :
  walk_inv b start s →
  ∃ nxt, rd (m_nMove b) (ws_cur s) = Ok nxt
    ∧ MakeUndirected_body b s
      = Ok (Continue {| ws_prev := ws_cur s; ws_cur := nxt;
                        ws_temp := <[Z.to_nat (ws_prev s) := ws_cur s]>
                                     (ws_temp s) |}).
Proof.
  intros [Hlen Hprev Hcur Hfree _ _ _ _ _].
  destruct (move_valid _ _ Hcur) as [_ Hcv].
  destruct (bijective_rd _ _ (ws_cur s) Hbij Hcv) as (nxt & Hnxt & _).
  exists nxt. split; [done|]. unfold MakeUndirected_body.
  rewrite wr_in_bounds by (unfold valid_cell in Hprev; lia).
  cbn [mbind res_bind]. rewrite Hnxt. cbn [mbind res_bind].
  destruct (Z.eqb_spec nxt (ws_prev s)) as [E|E]; [|done].
  rewrite (rd2_Some b t2 _ H2), (Hinv _ _ Hcur). simpl. by rewrite E.
Qed.

Lemma walk_inv_step start s nxt :
  walk_inv b start s → ws_cur s ≠ start →
  rd (m_nMove b) (ws_cur s) = Ok nxt →
  walk_inv b start
    {| ws_prev := ws_cur s; ws_cur := nxt;
       ws_temp := <[Z.to_nat (ws_prev s) := ws_cur s]> (ws_temp s) |}.
Proof.
  intros [Hlen Hprev Hcur Hfree Hcopy Hback Hpred Hstart Hdone] Hne Hnxt.
  destruct (move_valid _ _ Hcur) as [_ Hcv].
  pose proof (move_not_UNUSED _ _ Hcur) as Hcu.
  assert (Hpb : 0 ≤ ws_prev s < Z.of_nat (length (ws_temp s)))
    by (unfold valid_cell in Hprev; lia).
  assert (Hset : ∀ c, rd (ws_temp s) c ≠ Ok UNUSED →
            rd (<[Z.to_nat (ws_prev s) := ws_cur s]> (ws_temp s)) c
            ≠ Ok UNUSED).
  { intros c Hc. destruct (decide (c = ws_prev s)) as [->|Hcp]; [done|].
    rewrite rd_insert_other; [done | done | lia]. }
  assert (Hcur_free : rd (ws_temp s) (ws_cur s) = Ok UNUSED).
  { destruct (Hcopy _ Hcv) as [|Hfilled]; [done|]. exfalso.
    apply (Hback _ _ Hcur Hne); [|done].
    rewrite Hfilled, Hnxt. intros [= E]. by apply (move_not_UNUSED _ _ Hnxt). }
  assert (Hcp : ws_cur s ≠ ws_prev s).
  { intros E. destruct Hpred as [Hs|(p & Hp & Hpset)]; [congruence|].
    rewrite E in Hcur.
    assert (p = ws_prev s) as -> by (by eapply bijective_inj).
    done. }
  constructor; simpl.
  - by rewrite length_insert.
  - done.
  - done.
  - rewrite rd_insert_other; [done | done | lia].
  - intros c Hc. destruct (decide (c = ws_prev s)) as [->|Hne'].
    + right. rewrite rd_insert_eq by done. done.
    + rewrite rd_insert_other; [by apply Hcopy | done | lia].
  - intros c v Hc Hv Hvset.
    destruct (decide (v = ws_prev s)) as [->|Hvp].
    + destruct Hpred as [Hs|(p & Hp & Hpset)]; [done|].
      assert (c = p) as -> by (by eapply bijective_inj).
      by apply Hset.
    + rewrite rd_insert_other in Hvset; [|done|lia].
      apply Hset. by eapply Hback.
  - right. exists (ws_prev s). split; [done|].
    rewrite rd_insert_eq by done. intros [= E]. done.
  - destruct Hstart as [Hs|Hs]; [|right; by apply Hset].
    right. rewrite <- Hs, rd_insert_eq by done. intros [= E]. done.
  - intros c Hc. by apply Hset, Hdone.
Qed.

Lemma free_slots_pos temp i :
  rd temp i = Ok UNUSED → (1 ≤ free_slots temp)%nat.
Proof.
  intros [_ Hi]%rd_Ok. revert Hi. generalize (Z.to_nat i). clear.
  induction temp as [|v temp IH]; intros [|k] Hk; simpl in *; try done.
  - injection Hk as ->. rewrite Z.eqb_refl. lia.
  - specialize (IH _ Hk). lia.
Qed.

(** The cycle walk comes back to [start] before its fuel runs out. *)
Lemma MakeUndirected_walk start fuel : ∀ s,
  walk_inv b start s →
  (free_slots (ws_temp s) ≤ fuel)%nat →
  ∃ s', while_ fuel (MakeUndirected_cond b start) (MakeUndirected_body b) s
        = Ok (Continue s')
    ∧ walk_inv b start s' ∧ ws_cur s' = start.
Proof.
  induction fuel as [|fuel IH]; intros s Hs Hfuel;
    pose proof (wi_cur _ _ _ Hs) as Hcur;
    destruct (move_valid _ _ Hcur) as [_ Hcv];
    assert (Hcond : MakeUndirected_cond b start s = negb (ws_cur s =? start))
      by (unfold MakeUndirected_cond;
          by rewrite (proj2 (shape_in_range b _ Hb) Hcv));
    simpl; rewrite Hcond;
    destruct (Z.eqb_spec (ws_cur s) start) as [E|E]; simpl; eauto.
  - pose proof (free_slots_pos _ _ (wi_free _ _ _ Hs)). lia.
  - destruct (MakeUndirected_body_run start s Hs) as (nxt & Hnxt & ->).
    simpl. apply IH.
    + by apply walk_inv_step.
    + simpl.
      pose proof (wi_free _ _ _ Hs) as [_ Hfree]%rd_Ok.
      pose proof (free_slots_fill _ _ (ws_cur s) Hfree
                    (move_not_UNUSED _ _ Hcur)). lia.
Qed.

(** The last write of a walk closes the cycle and re-establishes the
    invariant of the outer loop. *)
Lemma walk_inv_close start s :
  walk_inv b start s → ws_cur s = start → valid_cell b start →
  outer_inv b (start + 1)
    (<[Z.to_nat (ws_prev s) := ws_cur s]> (ws_temp s)).
Proof.
  intros [Hlen Hprev Hcur Hfree Hcopy Hback Hpred Hstart Hdone] Hend Hsv.
  pose proof (move_not_UNUSED _ _ Hcur) as Hcu.
  assert (Hpb : 0 ≤ ws_prev s < Z.of_nat (length (ws_temp s)))
    by (unfold valid_cell in Hprev; lia).
  assert (Hset : ∀ c, rd (ws_temp s) c ≠ Ok UNUSED →
            rd (<[Z.to_nat (ws_prev s) := ws_cur s]> (ws_temp s)) c
            ≠ Ok UNUSED).
  { intros c Hc. destruct (decide (c = ws_prev s)) as [->|Hcp]; [done|].
    rewrite rd_insert_other; [done | done | lia]. }
  assert (Hnew : rd (<[Z.to_nat (ws_prev s) := ws_cur s]> (ws_temp s))
                   (ws_prev s) ≠ Ok UNUSED).
  { rewrite rd_insert_eq by done. by intros [= E]. }
  constructor.
  - by rewrite length_insert.
  - intros c Hc. destruct (decide (c = ws_prev s)) as [->|Hne'].
    + right. rewrite rd_insert_eq by done. done.
    + rewrite rd_insert_other; [by apply Hcopy | done | lia].
  - intros c v Hc Hvset.
    destruct (decide (v = start)) as [->|Hvs].
    { rewrite <- Hend in Hc.
      assert (c = ws_prev s) as -> by (by eapply bijective_inj). done. }
    destruct (decide (v = ws_prev s)) as [->|Hvp].
    + destruct Hpred as [Hs|(p & Hp & Hpset)]; [done|].
      assert (c = p) as -> by (by eapply bijective_inj).
      by apply Hset.
    + rewrite rd_insert_other in Hvset; [|done|lia].
      apply Hset. by eapply Hback.
  - intros c Hc. destruct (decide (c = start)) as [->|Hcs].
    + destruct Hstart as [<-|Hs]; [done | by apply Hset].
    + apply Hset, Hdone. lia.
Qed.

Lemma MakeUndirected_loop fuel (k : nat) : ∀ start temp,
  (Z.to_nat (m_nSize b) ≤ fuel)%nat →
  0 ≤ start → start + Z.of_nat k = m_nSize b →
  outer_inv b start temp →
  ∃ temp',
    for_ k start (λ _, true) (MakeUndirected_step fuel b) temp = Ok temp'
    ∧ outer_inv b (m_nSize b) temp'.
Proof.
  induction k as [|k IH]; intros start temp Hfuel Hs0 Hsk Hinv0.
  - exists temp. split; [done|]. by replace (m_nSize b) with start by lia.
  - cbn [for_].
    assert (Hsv : valid_cell b start) by (unfold valid_cell; lia).
    assert (Hstep : ∃ temp1, MakeUndirected_step fuel b start temp = Ok temp1
                             ∧ outer_inv b (start + 1) temp1).
    { destruct Hinv0 as [Hlen Hcopy Hback Hdone].
      destruct (rd_in_bounds temp start ltac:(unfold valid_cell in Hsv; lia))
        as [v Hv].
      unfold MakeUndirected_step. rewrite Hv. cbn [mbind res_bind].
      destruct (Z.eqb_spec v UNUSED) as [->|Hvu].
      - destruct (bijective_rd _ _ start Hbij Hsv) as (cur & Hcur & Hcv).
        rewrite Hcur. cbn [mbind res_bind].
        destruct (MakeUndirected_walk start fuel
                    {| ws_prev := start; ws_cur := cur; ws_temp := temp |})
          as (s' & -> & Hs' & Hend).
        { constructor; simpl; try done; [|by left..].
          intros c w Hc _. by apply Hback. }
        { simpl. pose proof (free_slots_length temp). lia. }
        cbn [mbind res_bind].
        pose proof (wi_prev _ _ _ Hs') as Hpv.
        rewrite (proj2 (shape_in_range b _ Hb) Hpv).
        rewrite (proj2 (shape_in_range b (ws_cur s') Hb))
          by (by rewrite Hend).
        cbn [andb].
        rewrite wr_in_bounds
          by (pose proof (wi_len _ _ _ Hs'); unfold valid_cell in Hpv; lia).
        eexists. split; [done|]. by apply walk_inv_close.
      - exists temp. split; [done|]. constructor; try done.
        intros c Hc. destruct (decide (c = start)) as [->|Hcs].
        + rewrite Hv. by intros [= E].
        + apply Hdone. lia. }
    destruct Hstep as (temp1 & -> & Hinv1). cbn [mbind res_bind].
    apply IH; [done | lia | lia | done].
Qed.

Lemma outer_inv_done temp :
  outer_inv b (m_nSize b) temp → temp = m_nMove b.
Proof.
  intros [Hlen Hcopy _ Hdone].
  destruct Hbij as (Hmlen & _).
  apply list_eq. intros i.
  destruct (decide (i < length temp)%nat) as [Hi|Hi].
  - assert (Hiv : valid_cell b (Z.of_nat i)) by (unfold valid_cell; lia).
    destruct (Hcopy _ Hiv) as [Hu|Heq].
    + by destruct (Hdone _ Hiv).
    + unfold rd in Heq. destruct (Z.leb_spec 0 (Z.of_nat i)); [|lia].
      rewrite Nat2Z.id in Heq.
      destruct (lookup_lt_is_Some_2 temp i Hi) as [x Hx].
      destruct (lookup_lt_is_Some_2 (m_nMove b) i ltac:(lia)) as [y Hy].
      rewrite Hx, Hy in Heq. rewrite Hx, Hy. congruence.
  - rewrite !lookup_ge_None_2 by lia. done.
Qed.

(** On a directed board whose tables are a bijection and its inverse
    [MakeUndirected] gives back the primary table as it is. *)
Lemma MakeUndirected_bijective fuel :
  (Z.to_nat (m_nSize b) ≤ fuel)%nat →
  MakeUndirected fuel b = Ok (with_move2 b None).
Proof.
  intros Hfuel. unfold MakeUndirected.
  rewrite (IsDirected_Some b t2 H2).
  rewrite (bijective_IsTourney_directed b t2 Hb H2 Hbij
             (inverse_bijective _ _ _ Hbij
                (proj2 (proj2 (proj2 (proj2 (proj2 Hb)))) _ H2) Hinv)).
  cbn [mbind res_bind]. cbv zeta.
  pose proof (shape_size b Hb) as Hn.
  destruct (MakeUndirected_loop fuel (Z.to_nat (m_nSize b)) 0
              (replicate (Z.to_nat (m_nSize b)) UNUSED))
    as (temp & -> & Hdone); [done | done | lia | |].
  - constructor.
    + rewrite length_replicate. lia.
    + intros c Hc. left. apply rd_Ok. unfold valid_cell in Hc.
      split; [lia|]. apply lookup_replicate_2. lia.
    + intros c v Hc Hv. exfalso. apply Hv.
      destruct (move_valid _ _ Hc) as [_ Hvv]. unfold valid_cell in Hvv.
      apply rd_Ok. split; [lia|]. apply lookup_replicate_2. lia.
    + intros c Hc. lia.
  - cbn [mbind res_bind]. rewrite (outer_inv_done _ Hdone).
    by rewrite with_move_id.
Qed.

End Undirect.

Lemma with_move2_shape b t2 :
  board_shape b → Z.of_nat (length t2) = m_nSize b →
  board_shape (with_move2 b (Some t2)).
Proof.
  unfold board_shape. simpl. intros (?&?&?&?&?&?) Hlen.
  repeat split; try done. by intros ? [= <-].
Qed.

Lemma with_move2_undo b t2 :
  IsUndirected b = true → with_move2 (with_move2 b (Some t2)) None = b.
Proof.
  unfold IsUndirected. destruct b as [w h n t [?|]]; [done|]. by intros _.
Qed.

(** C3. On an undirected board that passes [IsTourney], [MakeDirected]
    followed by [MakeUndirected] (with fuel for one walk around the
    board) yields an undirected board with the same edges that passes
    [IsTourney] again; the primary table is in fact the one the round
    trip started from. *)
Theorem MakeDirected_MakeUndirected_roundtrip (b : CBaseBoard) (fuel : nat) :
  board_shape b → IsUndirected b = true → IsTourney b = Ok true →
  (Z.to_nat (m_nSize b) ≤ fuel)%nat →
  ∃ bd b',
    MakeDirected b = Ok bd ∧ IsDirected bd = true
    ∧ MakeUndirected fuel bd = Ok b'
    ∧ IsUndirected b' = true
    ∧ (∀ i j, edge b' i j ↔ edge b i j)
    ∧ IsTourney b' = Ok true
    ∧ m_nMove b' = m_nMove b.
Proof.
  intros Hb Hu Htourney Hfuel.
  pose proof (IsTourney_undirected_bijective b Hb Hu Htourney) as Hbij.
  destruct (MakeDirected_bijective b Hb Hu Hbij) as (t2 & Hmd & Hlen & Hinv).
  exists (with_move2 b (Some t2)), b.
  split; [done|]. split; [done|]. split.
  - rewrite (MakeUndirected_bijective (with_move2 b (Some t2)) t2);
      [by rewrite with_move2_undo | by apply with_move2_shape | done..].
  - by repeat split.
Qed.

Lemma MakeDirected_MakeUndirected_roundtrip_witness :
  ∃ bd, MakeDirected (board_of 2 2 [1; 0; 3; 2] None) = Ok bd
    ∧ MakeUndirected 4 bd = Ok (board_of 2 2 [1; 0; 3; 2] None).
Proof.
  destruct (MakeDirected_MakeUndirected_roundtrip
              (board_of 2 2 [1; 0; 3; 2] None) 4
              ltac:(concrete_shape) eq_refl eq_refl ltac:(simpl; lia))
    as (bd & b' & Hmd & _ & Hmu & _ & _ & _ & Hsame).
  exists bd. split; [exact Hmd|]. rewrite Hmu. f_equal.
  vm_compute in Hmd. injection Hmd as <-.
  vm_compute in Hmu. injection Hmu as <-. reflexivity.
Defined.

(** * Further properties of the board *)

(** ** Clearing a board *)

Lemma replicate_snoc_app {A} (k : nat) (x : A) (l : list A) :
  replicate k x ++ x :: l = replicate (S k) x ++ l.
Proof. induction k as [|k IH]; simpl; [done | by rewrite IH]. Qed.

Lemma Clear_loop l : ∀ k : nat,
  for_ (length l) (Z.of_nat k) (λ _, true) (λ i t, wr t i UNUSED)
    (replicate k UNUSED ++ l)
  = Ok (replicate (k + length l) UNUSED).
Proof.
  induction l as [|v l IH]; intros k.
  - simpl. by rewrite app_nil_r, Nat.add_0_r.
  - cbn [length for_].
    rewrite wr_in_bounds
      by (rewrite length_app, length_replicate; simpl; lia).
    cbn [mbind res_bind]. rewrite Nat2Z.id.
    rewrite insert_app_r_alt by (by rewrite length_replicate).
    rewrite length_replicate, Nat.sub_diag. cbn [insert list_insert].
    rewrite replicate_snoc_app.
    replace (Z.of_nat k + 1) with (Z.of_nat (S k)) by lia.
    rewrite IH. f_equal. f_equal. lia.
Qed.

(** X1. [Clear] turns a well-shaped board into the undirected board of
    the same dimensions whose every slot is [UNUSED]; for an even size
    that is the board the constructor builds. *)
Theorem Clear_resets (b : CBaseBoard) :
  board_shape b →
  Clear b
  = Ok {| m_nWidth := m_nWidth b; m_nHeight := m_nHeight b;
          m_nSize := m_nSize b;
          m_nMove := replicate (Z.to_nat (m_nSize b)) UNUSED;
          m_nMove2 := None |}
  ∧ (Z.land (m_nSize b) 1 = 0 →
     Clear b = Ok (CBaseBoard_new (m_nWidth b) (m_nHeight b))).
Proof.
  intros Hb.
  assert (Hrun : Clear b
    = Ok {| m_nWidth := m_nWidth b; m_nHeight := m_nHeight b;
            m_nSize := m_nSize b;
            m_nMove := replicate (Z.to_nat (m_nSize b)) UNUSED;
            m_nMove2 := None |}).
  { unfold Clear. rewrite <- (shape_length_primary b Hb).
    pose proof (Clear_loop (m_nMove b) 0) as Hloop.
    change (Z.of_nat 0) with 0 in Hloop. cbn [replicate app Nat.add] in Hloop.
    by rewrite Hloop. }
  split; [done|]. intros Heven. rewrite Hrun. f_equal.
  unfold CBaseBoard_new. cbv zeta.
  pose proof (shape_size b Hb) as Hn.
  destruct Hb as (_ & _ & Hwh & _). rewrite <- Hwh.
  rewrite to_unsigned_small by (unfold INT_MAX in Hn; lia).
  by rewrite Heven.
Qed.

Lemma Clear_resets_witness :
  Clear (board_of 2 1 [1; 0] (Some [1; 0])) = Ok (CBaseBoard_new 2 1).
Proof.
  apply (Clear_resets (board_of 2 1 [1; 0] (Some [1; 0]))).
  - concrete_shape.
  - reflexivity.
Defined.

(** ** Looking a move up *)

(** X2. On an undirected board [IsMove(i,j)] with valid cells returns
    true when [m[i] == j]; otherwise it goes on to read the secondary
    table, which is absent.  It never returns false there.  With an
    invalid cell it returns false on every board. *)
Theorem IsMove_on_undirected (b : CBaseBoard) (i j : Z) :
  0 ≤ m_nSize b →
  (¬ (valid_cell b i ∧ valid_cell b j) → IsMove b i j = Ok false)
  ∧ (board_shape b → IsUndirected b = true →
     valid_cell b i → valid_cell b j →
     (rd (m_nMove b) i = Ok j → IsMove b i j = Ok true)
     ∧ (rd (m_nMove b) i ≠ Ok j → IsMove b i j = Undefined)).
Proof.
  intros Hn. split.
  - intros Hnot. unfold IsMove.
    destruct (decide (valid_cell b i)) as [Hi|Hi].
    + rewrite (CellIndexInRange_false b j Hn) by (unfold valid_cell in *; tauto).
      by rewrite andb_false_r.
    + by rewrite (CellIndexInRange_false b i Hn Hi).
  - intros Hb Hu Hi Hj. unfold IsMove, orelse, eqv, rd2.
    rewrite (proj2 (shape_in_range b i Hb) Hi).
    rewrite (proj2 (shape_in_range b j Hb) Hj).
    destruct (shape_primary b i Hb Hi) as [v Hv]. rewrite Hv. simpl.
    unfold IsUndirected in Hu. destruct (m_nMove2 b); [done|].
    split.
    + intros [= ->]. by rewrite Z.eqb_refl.
    + intros Hne. destruct (Z.eqb_spec v j) as [->|]; done.
Qed.

Lemma IsMove_on_undirected_witness :
  IsMove (board_of 2 1 [-1; 0] None) 0 1 = Undefined.
Proof.
  apply (proj2 (proj2 (IsMove_on_undirected (board_of 2 1 [-1; 0] None) 0 1
                         ltac:(simpl; lia))
                  ltac:(concrete_shape) eq_refl
                  ltac:(concrete_shape) ltac:(concrete_shape))).
  discriminate.
Defined.


(** ** The two halves of a directed insertion *)

Lemma with_move2_id b : with_move2 b (m_nMove2 b) = b.
Proof. by destruct b. Qed.


Lemma InsertDirectedMove_claim nd b src dest :
  IsDirected b = true →
  InsertDirectedMove nd b src dest
  = o ← claim_slot b src dest;
    match o with
    | None => Ok (false, b)
    | Some b1 =>
        o2 ← claim_slot b1 dest src;
        match o2 with
        | None => Ok (false, b1)
        | Some b2 => Ok (true, b2)
        end
    end.
Proof.
  intros Hd. unfold InsertDirectedMove, assert_, claim_slot.
  rewrite Hd, orb_true_r. cbn [mbind res_bind].
  destruct (rd (m_nMove b) src) as [x| | |]; cbn [mbind res_bind]; try done.
  assert (Hsecond : ∀ b1,
    (vd ← rd (m_nMove b1) dest;
     if vd <? 0 then b' ← wr1 b1 dest src; Ok (true, b')
     else vd2 ← rd2 b1 dest;
          if vd2 <? 0 then b' ← wr2 b1 dest src; Ok (true, b')
          else Ok (false, b1))
    = o2 ← (x0 ← rd (m_nMove b1) dest;
            if x0 <? 0 then b' ← wr1 b1 dest src; Ok (Some b')
            else x2 ← rd2 b1 dest;
                 if x2 <? 0 then b' ← wr2 b1 dest src; Ok (Some b')
                 else Ok None);
      match o2 with
      | None => Ok (false, b1)
      | Some b2 => Ok (true, b2)
      end).
  { intros b1.
    destruct (rd (m_nMove b1) dest) as [y| | |]; cbn [mbind res_bind]; try done.
    destruct (y <? 0); [by destruct (wr1 b1 dest src)|].
    destruct (rd2 b1 dest) as [y2| | |]; cbn [mbind res_bind]; try done.
    destruct (y2 <? 0); [by destruct (wr2 b1 dest src) | done]. }
  destruct (x <? 0).
  - destruct (wr1 b src dest) as [b1| | |]; cbn [mbind res_bind];
      try done; try apply Hsecond.
  - destruct (rd2 b src) as [x2| | |]; cbn [mbind res_bind]; try done.
    destruct (x2 <? 0); [|done].
    destruct (wr2 b src dest) as [b1| | |]; cbn [mbind res_bind];
      try done; try apply Hsecond.
Qed.

(** What a cell's claim of a slot leaves behind. *)
Lemma claim_slot_spec b t2 c v :
  board_shape b → m_nMove2 b = Some t2 → valid_cell b c →
  ∃ x x2, rd (m_nMove b) c = Ok x ∧ rd t2 c = Ok x2
    ∧ claim_slot b c v
      = Ok (if x <? 0 then Some (with_move b (<[Z.to_nat c := v]> (m_nMove b)))
            else if x2 <? 0
            then Some (with_move2 b (Some (<[Z.to_nat c := v]> t2)))
            else None).
Proof.
  intros Hb H2 Hc.
  destruct (shape_primary b c Hb Hc) as [x Hx].
  destruct (shape_secondary b t2 c Hb H2 Hc) as [x2 Hx2].
  exists x, x2. split; [done|]. split; [done|].
  unfold claim_slot, wr1, wr2, rd2. rewrite Hx, H2, Hx2. cbn [mbind res_bind].
  destruct (x <? 0).
  - by rewrite wr_in_bounds by (by eapply rd_Ok_bounds).
  - destruct (x2 <? 0); [|done].
    by rewrite wr_in_bounds by (by eapply rd_Ok_bounds).
Qed.




(** ** Deleting what was inserted *)

Lemma clear_slot_hit t i j :
  rd t i = Ok j → clear_slot t i j = <[Z.to_nat i := UNUSED]> t.
Proof. intros H. unfold clear_slot. by rewrite H, Z.eqb_refl. Qed.

Lemma clear_slot_miss t i j : rd t i ≠ Ok j → clear_slot t i j = t.
Proof.
  intros H. unfold clear_slot. destruct (rd t i) as [v| | |]; try done.
  destruct (Z.eqb_spec v j) as [->|]; done.
Qed.

Lemma insert_restore t i v :
  rd t i = Ok UNUSED → <[Z.to_nat i := UNUSED]> (<[Z.to_nat i := v]> t) = t.
Proof.
  intros [_ H]%rd_Ok. rewrite list_insert_insert_eq. by apply list_insert_id.
Qed.

(** Writing the two ends of a move into free slots of a table and then
    clearing them as [DeleteMove] does gives the table back. *)
Lemma clear_after_put t src dest (s d : bool) :
  src ≠ dest →
  0 ≤ src < Z.of_nat (length t) → 0 ≤ dest < Z.of_nat (length t) →
  rd t src ≠ Ok dest → rd t dest ≠ Ok src →
  (s = true → rd t src = Ok UNUSED) → (d = true → rd t dest = Ok UNUSED) →
  let t1 := if s then <[Z.to_nat src := dest]> t else t in
  let t' := if d then <[Z.to_nat dest := src]> t1 else t1 in
  clear_slot (clear_slot t' src dest) dest src = t
  ∧ (rd t' src = Ok dest ↔ s = true)
  ∧ (rd t' dest = Ok src ↔ d = true).
Proof.
  intros Hne Bs Bd As Ad Hs Hd t1 t'. subst t1 t'.
  destruct s, d; cbv beta iota.
  - specialize (Hs eq_refl). specialize (Hd eq_refl).
    assert (E1 : rd (<[Z.to_nat dest := src]> (<[Z.to_nat src := dest]> t)) src
                 = Ok dest).
    { rewrite rd_insert_other by lia. by apply rd_insert_eq. }
    assert (E2 : rd (<[Z.to_nat dest := src]> (<[Z.to_nat src := dest]> t)) dest
                 = Ok src)
      by (apply rd_insert_eq; by rewrite length_insert).
    split; [|by split].
    rewrite (clear_slot_hit _ _ _ E1).
    rewrite clear_slot_hit
      by (rewrite rd_insert_other by lia; done).
    apply rd_Ok in Hs as [_ Hs]. apply rd_Ok in Hd as [_ Hd].
    apply list_eq. intros k.
    destruct (decide (k = Z.to_nat src)) as [->|];
      [|destruct (decide (k = Z.to_nat dest)) as [->|]].
    + rewrite list_lookup_insert_ne by lia.
      rewrite list_lookup_insert_eq by (rewrite !length_insert; lia). done.
    + rewrite list_lookup_insert_eq by (rewrite !length_insert; lia). done.
    + by rewrite !list_lookup_insert_ne by lia.
  - specialize (Hs eq_refl).
    assert (E1 : rd (<[Z.to_nat src := dest]> t) src = Ok dest)
      by (by apply rd_insert_eq).
    assert (E2 : rd (<[Z.to_nat src := dest]> t) dest = rd t dest)
      by (apply rd_insert_other; [done | lia]).
    split; [|split; [by split | rewrite E2; split; [done | discriminate]]].
    rewrite (clear_slot_hit _ _ _ E1), insert_restore by done.
    by apply clear_slot_miss.
  - specialize (Hd eq_refl).
    assert (E1 : rd (<[Z.to_nat dest := src]> t) src = rd t src)
      by (apply rd_insert_other; [done | lia]).
    assert (E2 : rd (<[Z.to_nat dest := src]> t) dest = Ok src)
      by (by apply rd_insert_eq).
    split; [|split; [rewrite E1; split; [done | discriminate] | by split]].
    rewrite (clear_slot_miss _ src dest) by (by rewrite E1).
    by rewrite (clear_slot_hit _ _ _ E2), insert_restore.
  - split; [|split; split; done || discriminate].
    rewrite (clear_slot_miss _ src dest) by done. by apply clear_slot_miss.
Qed.

Lemma InsertUndirectedMove_run nd b src dest vs vd :
  IsUndirected b = true →
  rd (m_nMove b) src = Ok vs → rd (m_nMove b) dest = Ok vd →
  InsertUndirectedMove nd b src dest
  = if vs <? 0
    then Ok (true, with_move b (<[Z.to_nat src := dest]> (m_nMove b)))
    else if vd <? 0
    then Ok (true, with_move b (<[Z.to_nat dest := src]> (m_nMove b)))
    else Ok (false, b).
Proof.
  intros Hu Hvs Hvd. unfold InsertUndirectedMove, assert_, wr1.
  rewrite Hu, orb_true_r. cbn [mbind res_bind]. rewrite Hvs.
  cbn [mbind res_bind]. destruct (vs <? 0).
  - by rewrite wr_in_bounds by (by eapply rd_Ok_bounds).
  - rewrite Hvd. cbn [mbind res_bind]. destruct (vd <? 0); [|done].
    by rewrite wr_in_bounds by (by eapply rd_Ok_bounds).
Qed.

(** X4. On an undirected board whose slots hold cells or [UNUSED] and
    that does not record the move yet, [DeleteMove(src,dest)] after a
    successful [InsertUndirectedMove(src,dest)] returns true and gives
    back the board as it was. *)
Theorem InsertUndirectedMove_DeleteMove (nd : bool) (b : CBaseBoard)
    (src dest : Z) (b1 : CBaseBoard) :
  board_shape b → IsUndirected b = true → table_ok (m_nMove b) →
  valid_cell b src → valid_cell b dest →
  rd (m_nMove b) src ≠ Ok dest → rd (m_nMove b) dest ≠ Ok src →
  InsertUndirectedMove nd b src dest = Ok (true, b1) →
  DeleteMove b1 src dest = Ok (true, b).
Proof.
  intros Hb Hu Hok Hs Hd As Ad Hrun.
  destruct (shape_primary b src Hb Hs) as [vs Hvs].
  destruct (shape_primary b dest Hb Hd) as [vd Hvd].
  pose proof (rd_Ok_bounds _ _ _ Hvs) as Bs.
  pose proof (rd_Ok_bounds _ _ _ Hvd) as Bd.
  rewrite (InsertUndirectedMove_run nd b src dest vs vd Hu Hvs Hvd) in Hrun.
  rewrite (free_iff_UNUSED vs) in Hrun by (by eapply table_ok_rd).
  rewrite (free_iff_UNUSED vd) in Hrun by (by eapply table_ok_rd).
  assert (Hdel : ∀ t, length t = length (m_nMove b) →
            clear_slot (clear_slot t src dest) dest src = m_nMove b →
            DeleteMove (with_move b t) src dest = Ok (true, b)).
  { intros t Hlen Hclear.
    rewrite DeleteMove_undirected;
      [| by apply with_move_shape | done | done | done].
    unfold primary_cleared. simpl. rewrite Hclear.
    by destruct b. }
  destruct (Z.eqb_spec vs UNUSED) as [->|Hvs'].
  - injection Hrun as <-. apply Hdel; [apply length_insert|].
    rewrite (clear_slot_hit _ src dest) by (by apply rd_insert_eq).
    rewrite insert_restore by done. by apply clear_slot_miss.
  - destruct (Z.eqb_spec vd UNUSED) as [Evd|Hvd']; [|done].
    injection Hrun as <-. apply Hdel; [apply length_insert|].
    assert (src ≠ dest) by congruence. rewrite Evd in Hvd.
    rewrite (clear_slot_miss _ src dest)
      by (rewrite rd_insert_other by lia; done).
    rewrite (clear_slot_hit _ dest src) by (by apply rd_insert_eq).
    by apply insert_restore.
Qed.

Lemma InsertUndirectedMove_DeleteMove_witness :
  DeleteMove (board_of 2 2 [3; 2; -1; -1] None) 0 3
  = Ok (true, board_of 2 2 [-1; 2; -1; -1] None).
Proof.
  apply (InsertUndirectedMove_DeleteMove false
           (board_of 2 2 [-1; 2; -1; -1] None) 0 3);
    try reflexivity; try discriminate; concrete_shape.
Defined.

Lemma clear_run2 b t2 i j :
  board_shape b → m_nMove2 b = Some t2 → valid_cell b i →
  ∃ v, rd2 b i = Ok v
       ∧ (if v =? j then wr2 b i UNUSED else Ok b)
         = Ok (with_move2 b (Some (clear_slot t2 i j))).
Proof.
  intros Hb H2 Hi. destruct (shape_secondary b t2 i Hb H2 Hi) as [v Hv].
  exists v. rewrite (rd2_Some b t2 i H2). split; [done|].
  unfold clear_slot, wr2. rewrite H2, Hv. destruct (v =? j).
  - rewrite wr_in_bounds by (by eapply rd_Ok_bounds). done.
  - by rewrite <- H2, with_move2_id.
Qed.

(** What [DeleteMove] returns and leaves behind on a directed board. *)
Lemma DeleteMove_directed_run b t2 src dest :
  board_shape b → m_nMove2 b = Some t2 →
  valid_cell b src → valid_cell b dest →
  ∃ present, IsMove (primary_cleared b src dest) src dest = Ok present
    ∧ DeleteMove b src dest
      = Ok (present,
            if present
            then secondary_cleared (primary_cleared b src dest) src dest
            else primary_cleared b src dest).
Proof.
  intros Hb H2 Hs Hd.
  rewrite (DeleteMove_unfold b src dest Hb Hs Hd). cbv zeta.
  set (b2 := primary_cleared b src dest).
  assert (Hb2 : board_shape b2) by by apply primary_cleared_shape.
  assert (H22 : m_nMove2 b2 = Some t2) by done.
  rewrite (IsDirected_Some b2 t2 H22).
  destruct (IsMove_directed b2 t2 src dest Hb2 H22) as
    (vi & wi & vj & wj & Hvi & Hwi & Hvj & Hwj & Hmove); [done..|].
  rewrite Hmove. eexists. split; [done|].
  destruct (_ || _); cbn [mbind res_bind negb]; [|done].
  destruct (clear_run2 b2 t2 src dest Hb2 H22) as (v & -> & Hc1); [done|].
  cbn [mbind res_bind]. rewrite Hc1. cbn [mbind res_bind].
  set (b3 := with_move2 b2 (Some (clear_slot t2 src dest))).
  assert (Hb3 : board_shape b3).
  { apply with_move2_shape; [done|]. rewrite clear_slot_length.
    destruct Hb2 as (_&_&_&_&_&Hl). by apply Hl. }
  destruct (clear_run2 b3 (clear_slot t2 src dest) dest src Hb3 eq_refl)
    as (v' & -> & Hc2); [done|].
  cbn [mbind res_bind]. rewrite Hc2. cbn [mbind res_bind].
  unfold secondary_cleared. by rewrite H22.
Qed.

(** X5. On a directed board whose slots hold cells or [UNUSED] and that
    does not record the move between [src <> dest] yet, [DeleteMove]
    after a successful [InsertDirectedMove] gives back the board as it
    was; but it returns false when the insertion used the primary slots
    of both cells, and true otherwise. *)
Theorem InsertDirectedMove_DeleteMove (nd : bool) (b : CBaseBoard)
    (t2 : list Z) (src dest : Z) (b1 : CBaseBoard) :
  board_shape b → m_nMove2 b = Some t2 → tables_ok b →
  valid_cell b src → valid_cell b dest → src ≠ dest →
  move_absent b src dest →
  InsertDirectedMove nd b src dest = Ok (true, b1) →
  ∃ r, DeleteMove b1 src dest = Ok (r, b)
    ∧ (r = false
       ↔ rd (m_nMove b) src = Ok UNUSED ∧ rd (m_nMove b) dest = Ok UNUSED).
Proof.
  intros Hb H2 [Hok Hok2] Hs Hd Hne (A1 & A2 & A3 & A4) Hrun.
  specialize (Hok2 _ H2).
  rewrite (rd2_Some b t2 src H2) in A3. rewrite (rd2_Some b t2 dest H2) in A4.
  destruct (shape_primary b src Hb Hs) as [x Hx].
  destruct (shape_primary b dest Hb Hd) as [y Hy].
  destruct (shape_secondary b t2 src Hb H2 Hs) as [x2 Hx2].
  destruct (shape_secondary b t2 dest Hb H2 Hd) as [y2 Hy2].
  pose proof (rd_Ok_bounds _ _ _ Hx) as Bs.
  pose proof (rd_Ok_bounds _ _ _ Hy) as Bd.
  pose proof (rd_Ok_bounds _ _ _ Hx2) as Bs2.
  pose proof (rd_Ok_bounds _ _ _ Hy2) as Bd2.
  pose proof (table_ok_rd _ _ _ Hok Hx) as Lx.
  pose proof (table_ok_rd _ _ _ Hok Hy) as Ly.
  pose proof (table_ok_rd _ _ _ Hok2 Hx2) as Lx2.
  pose proof (table_ok_rd _ _ _ Hok2 Hy2) as Ly2.
  (* the board the insertion leaves *)
  assert (Hins : ∃ s d s' d' : bool,
    b1 = with_move2
           (with_move b
              (let t1 := if s then <[Z.to_nat src := dest]> (m_nMove b)
                         else m_nMove b in
               if d then <[Z.to_nat dest := src]> t1 else t1))
           (Some
              (let t1 := if s' then <[Z.to_nat src := dest]> t2 else t2 in
               if d' then <[Z.to_nat dest := src]> t1 else t1))
    ∧ (s = true → x = UNUSED) ∧ (d = true → y = UNUSED)
    ∧ (s' = true → x2 = UNUSED) ∧ (d' = true → y2 = UNUSED)
    ∧ (s = negb s') ∧ (d = negb d')
    ∧ (s = true ↔ x = UNUSED) ∧ (d = true ↔ y = UNUSED)).
  { rewrite (InsertDirectedMove_claim nd b src dest (IsDirected_Some b t2 H2))
      in Hrun.
    destruct (claim_slot_spec b t2 src dest Hb H2 Hs) as (x' & x2' & Ex & Ex2 & E1).
    assert (x' = x) as -> by congruence. assert (x2' = x2) as -> by congruence.
    rewrite E1 in Hrun. cbn [mbind res_bind] in Hrun.
    rewrite (free_iff_UNUSED x Lx) in Hrun.
    rewrite (free_iff_UNUSED x2 Lx2) in Hrun.
    assert (Hsecond : ∀ (s s' : bool),
      (s = true → x = UNUSED) → (s' = true → x2 = UNUSED) → s = negb s' →
      (s = true ↔ x = UNUSED) →
      let m1 := if s then <[Z.to_nat src := dest]> (m_nMove b) else m_nMove b in
      let t21 := if s' then <[Z.to_nat src := dest]> t2 else t2 in
      let b0 := with_move2 (with_move b m1) (Some t21) in
      (o2 ← claim_slot b0 dest src;
       match o2 with
       | Some b2 => Ok (true, b2)
       | None => Ok (false, b0)
       end) = Ok (true, b1) →
      ∃ s d s' d' : bool,
        b1 = with_move2
               (with_move b
                  (let t1 := if s then <[Z.to_nat src := dest]> (m_nMove b)
                             else m_nMove b in
                   if d then <[Z.to_nat dest := src]> t1 else t1))
               (Some
                  (let t1 := if s' then <[Z.to_nat src := dest]> t2 else t2 in
                   if d' then <[Z.to_nat dest := src]> t1 else t1))
        ∧ (s = true → x = UNUSED) ∧ (d = true → y = UNUSED)
        ∧ (s' = true → x2 = UNUSED) ∧ (d' = true → y2 = UNUSED)
        ∧ (s = negb s') ∧ (d = negb d')
        ∧ (s = true ↔ x = UNUSED) ∧ (d = true ↔ y = UNUSED)).
    { intros s s' Cs Cs' Css Cx m1 t21 b0 Hrun2.
      assert (Hb0 : board_shape b0).
      { apply with_move2_shape.
        - apply with_move_shape; [done|]. subst m1.
          destruct s; [apply length_insert | done].
        - subst t21. simpl. pose proof Hb as (_&_&_&_&_&Hl).
          specialize (Hl _ H2). destruct s'; rewrite ?length_insert; lia. }
      destruct (claim_slot_spec b0 t21 dest src Hb0 eq_refl Hd)
        as (y' & y2' & Ey & Ey2 & E2).
      assert (y' = y) as ->.
      { simpl in Ey. subst m1. destruct s;
          [rewrite rd_insert_other in Ey by lia|]; congruence. }
      assert (y2' = y2) as ->.
      { subst t21. destruct s';
          [rewrite rd_insert_other in Ey2 by lia|]; congruence. }
      rewrite E2 in Hrun2. cbn [mbind res_bind] in Hrun2.
      rewrite (free_iff_UNUSED y Ly) in Hrun2.
      rewrite (free_iff_UNUSED y2 Ly2) in Hrun2.
      destruct (Z.eqb_spec y UNUSED) as [Ey'|Ey'].
      - injection Hrun2 as <-. exists s, true, s', false.
        split; [done|]. repeat split; try done; apply Cx.
      - destruct (Z.eqb_spec y2 UNUSED) as [Ey2'|Ey2']; [|done].
        injection Hrun2 as <-. exists s, false, s', true.
        split; [done|]. repeat split; try done; apply Cx. }
    destruct (Z.eqb_spec x UNUSED) as [Ex'|Ex'].
    - apply (Hsecond true false); try done. cbv beta iota zeta.
      replace (with_move2 (with_move b (<[Z.to_nat src := dest]> (m_nMove b)))
                 (Some t2))
        with (with_move b (<[Z.to_nat src := dest]> (m_nMove b)))
        by (rewrite <- H2; by destruct b).
      done.
    - destruct (Z.eqb_spec x2 UNUSED) as [Ex2'|Ex2']; [|done].
      apply (Hsecond false true); done. }
  destruct Hins as (s & d & s' & d' & -> & Cs & Cd & Cs' & Cd' & Css & Cdd & Cx & Cy).
  set (m' := let t1 := if s then <[Z.to_nat src := dest]> (m_nMove b)
                       else m_nMove b in
             if d then <[Z.to_nat dest := src]> t1 else t1).
  set (t2' := let t1 := if s' then <[Z.to_nat src := dest]> t2 else t2 in
              if d' then <[Z.to_nat dest := src]> t1 else t1).
  destruct (clear_after_put (m_nMove b) src dest s d Hne Bs Bd A1 A2)
    as (Hm & Hms & Hmd); [intros E; by rewrite Hx, (Cs E)
                         | intros E; by rewrite Hy, (Cd E) |].
  destruct (clear_after_put t2 src dest s' d' Hne Bs2 Bd2 A3 A4)
    as (Ht & Hts & Htd); [intros E; by rewrite Hx2, (Cs' E)
                         | intros E; by rewrite Hy2, (Cd' E) |].
  fold m' in Hm, Hms, Hmd. fold t2' in Ht, Hts, Htd.
  set (b1 := with_move2 (with_move b m') (Some t2')).
  assert (Hlen' : length m' = length (m_nMove b)).
  { subst m'. cbv zeta. destruct s, d; by rewrite ?length_insert. }
  assert (Hlen2' : Z.of_nat (length t2') = m_nSize b).
  { subst t2'. cbv zeta. pose proof Hb as (_&_&_&_&_&Hl). specialize (Hl _ H2).
    destruct s', d'; by rewrite ?length_insert. }
  assert (Hb1 : board_shape b1).
  { apply with_move2_shape; [by apply with_move_shape | done]. }
  destruct (DeleteMove_directed_run b1 t2' src dest Hb1 eq_refl Hs Hd)
    as (present & Hpresent & ->).
  assert (Hpc : primary_cleared b1 src dest = with_move2 b (Some t2')).
  { unfold primary_cleared. simpl. rewrite Hm.
    destruct b as [w h n t o]. done. }
  rewrite Hpc in Hpresent |- *.
  assert (Hbp : board_shape (with_move2 b (Some t2')))
    by (by apply with_move2_shape).
  destruct (IsMove_directed (with_move2 b (Some t2')) t2' src dest Hbp eq_refl
              Hs Hd) as (vi & wi & vj & wj & Hvi & Hwi & Hvj & Hwj & Hmove).
  simpl in Hvi, Hvj.
  assert (vi = x) as -> by congruence. assert (vj = y) as -> by congruence.
  rewrite Hmove in Hpresent. injection Hpresent as <-.
  assert (Ex : (x =? dest) = false)
    by (apply Z.eqb_neq; intros ->; by apply A1).
  assert (Ey : (y =? src) = false)
    by (apply Z.eqb_neq; intros ->; by apply A2).
  rewrite Ex, Ey. cbn [orb]. rewrite orb_false_r.
  assert (Ews : (wi =? dest) = s').
  { destruct s'; [apply Z.eqb_eq | apply Z.eqb_neq].
    - assert (rd t2' src = Ok dest) by (by apply Hts). congruence.
    - intros ->. by apply Hts in Hwi. }
  assert (Ewd : (wj =? src) = d').
  { destruct d'; [apply Z.eqb_eq | apply Z.eqb_neq].
    - assert (rd t2' dest = Ok src) by (by apply Htd). congruence.
    - intros ->. by apply Htd in Hwj. }
  rewrite Ews, Ewd. exists (s' || d'). split.
  - f_equal. f_equal.
    destruct (s' || d') eqn:Esd.
    + unfold secondary_cleared. simpl. rewrite Ht, <- H2. by destruct b.
    + apply orb_false_elim in Esd as [-> ->]. subst t2'. simpl.
      rewrite <- H2. by destruct b.
  - rewrite Hx, Hy, !Ok_inj, <- Cx, <- Cy. subst s d.
    destruct s', d'; simpl; intuition congruence.
Qed.

Lemma InsertDirectedMove_DeleteMove_witness :
  DeleteMove (board_of 2 1 [1; 0] (Some [-1; -1])) 0 1
  = Ok (false, board_of 2 1 [-1; -1] (Some [-1; -1])).
Proof.
  assert (Hok : tables_ok (board_of 2 1 [-1; -1] (Some [-1; -1])))
    by (split; [concrete_shape | intros ? [= <-]; concrete_shape]).
  assert (Habs : move_absent (board_of 2 1 [-1; -1] (Some [-1; -1])) 0 1)
    by (repeat split; discriminate).
  destruct (InsertDirectedMove_DeleteMove false
              (board_of 2 1 [-1; -1] (Some [-1; -1])) [-1; -1] 0 1
              (board_of 2 1 [1; 0] (Some [-1; -1]))
              ltac:(concrete_shape) eq_refl Hok
              ltac:(concrete_shape) ltac:(concrete_shape) ltac:(lia)
              Habs eq_refl)
    as (r & Hrun & Hr).
  rewrite Hrun. f_equal. f_equal. apply Hr. split; reflexivity.
Defined.

(** ** Tours are tourneys *)

Lemma walk_head b prev cur cells :
  walk b prev cur cells → (cells ++ [0]) !! 0%nat = Some cur.
Proof. by intros [|]. Qed.

Lemma walk_undirected_next b prev cur cells :
  IsUndirected b = true → walk b prev cur cells →
  ∀ k c, cells !! k = Some c →
    ∃ d, (cells ++ [0]) !! S k = Some d ∧ rd (m_nMove b) c = Ok d.
Proof.
  intros Hu Hwalk.
  induction Hwalk as [prev|prev cur nxt cells Hsucc Hwalk IH]; intros k c Hk;
    [done|].
  rewrite succ_cell_undirected in Hsucc by done.
  destruct k as [|k].
  - injection Hk as <-. exists nxt. split; [|done].
    exact (walk_head _ _ _ _ Hwalk).
  - by apply IH.
Qed.

(** The closed walk of a tour on an undirected board makes the primary
    table a bijection of the cells. *)
Lemma tour_bijective b cells :
  board_shape b → IsUndirected b = true →
  closed_walk b cells →
  Z.of_nat (length (0 :: cells)) = m_nSize b →
  Forall (λ c, valid_cell b c ∧ c ≠ 0) cells →
  bijective_table (m_nSize b) (m_nMove b).
Proof.
  intros Hb Hu (c1 & Hc1 & Hwalk) Hlen Hall.
  pose proof (shape_length_primary b Hb) as Hm.
  assert (H0 : 0 ∉ cells).
  { intros Hin. rewrite Forall_lookup in Hall.
    apply list_elem_of_lookup_1 in Hin as [k Hk].
    by destruct (Hall _ _ Hk). }
  assert (Hnd : NoDup (0 :: cells)).
  { apply NoDup_cons_2; [done|]. by eapply walk_undirected_NoDup. }
  set (P := 0 :: cells) in *. set (Q := cells ++ [0]).
  assert (HPQ : P ≡ₚ Q) by apply Permutation_cons_append.
  assert (Hnext : ∀ k c, P !! k = Some c →
            ∃ d, Q !! k = Some d ∧ rd (m_nMove b) c = Ok d).
  { intros [|k] c Hk.
    - injection Hk as <-. exists c1. split; [|done].
      exact (walk_head _ _ _ _ Hwalk).
    - by eapply walk_undirected_next. }
  assert (HPvalid : ∀ x, x ∈ P → 0 ≤ x < m_nSize b).
  { intros x [->|Hin]%elem_of_cons; [simpl length in Hlen; lia|].
    rewrite Forall_lookup in Hall.
    apply list_elem_of_lookup_1 in Hin as [k Hk].
    by destruct (Hall _ _ Hk). }
  assert (Hperm : P ≡ₚ seqZ 0 (m_nSize b)).
  { apply submseteq_length_Permutation.
    - apply NoDup_submseteq; [done|]. intros x Hx. apply elem_of_seqZ.
      specialize (HPvalid x Hx). lia.
    - rewrite length_seqZ. lia. }
  assert (Hidx : ∀ i, 0 ≤ i < m_nSize b → ∃ k, P !! k = Some i).
  { intros i Hi. apply list_elem_of_lookup_1. rewrite Hperm.
    apply elem_of_seqZ. lia. }
  assert (HndQ : NoDup Q) by by rewrite <- HPQ.
  pose proof Hb as (_ & _ & _ & _ & HmZ & _).
  split; [done|]. split; [|split].
  - apply Forall_lookup. intros i v Hv.
    pose proof (lookup_lt_Some _ _ _ Hv) as Hi.
    destruct (Hidx (Z.of_nat i)) as [k Hk]; [lia|].
    destruct (Hnext _ _ Hk) as (d & Hd & Hrd).
    apply rd_Ok in Hrd as [_ Hrd]. rewrite Nat2Z.id in Hrd.
    assert (v = d) as -> by congruence.
    apply HPvalid. rewrite HPQ. by eapply list_elem_of_lookup_2.
  - apply NoDup_alt. intros i j v Hi Hj.
    pose proof (lookup_lt_Some _ _ _ Hi) as Bi.
    pose proof (lookup_lt_Some _ _ _ Hj) as Bj.
    destruct (Hidx (Z.of_nat i)) as [k Hk]; [lia|].
    destruct (Hidx (Z.of_nat j)) as [k' Hk']; [lia|].
    destruct (Hnext _ _ Hk) as (d & Hd & Hrd).
    destruct (Hnext _ _ Hk') as (d' & Hd' & Hrd').
    apply rd_Ok in Hrd as [_ Hrd]. rewrite Nat2Z.id in Hrd.
    apply rd_Ok in Hrd' as [_ Hrd']. rewrite Nat2Z.id in Hrd'.
    assert (d = v) as -> by congruence. assert (d' = v) as -> by congruence.
    rewrite NoDup_alt in HndQ. assert (k = k') as -> by by eapply HndQ.
    assert (Z.of_nat i = Z.of_nat j) by congruence. lia.
  - intros c Hc.
    assert (Hin : c ∈ Q) by (rewrite <- HPQ, Hperm; apply elem_of_seqZ; lia).
    apply list_elem_of_lookup_1 in Hin as [k Hk].
    destruct (lookup_lt_is_Some_2 P k) as [p Hp].
    { rewrite (Permutation_length HPQ). by eapply lookup_lt_Some. }
    destruct (Hnext _ _ Hp) as (d & Hd & Hrd).
    assert (d = c) as -> by congruence.
    apply rd_Ok in Hrd as [_ Hrd]. by eapply list_elem_of_lookup_2.
Qed.

(** X6. On a well-shaped undirected board, a tour is a tourney: whenever
    [IsTour] returns true, so does [IsTourney]. *)
Theorem IsTour_IsTourney_undirected (b : CBaseBoard) :
  board_shape b → IsUndirected b = true →
  IsTour b = Ok true → IsTourney b = Ok true.
Proof.
  intros Hb Hu Htour.
  assert (Hn : 1 ≤ m_nSize b).
  { pose proof (shape_length_primary b Hb) as Hm.
    destruct (m_nMove b) as [|v t] eqn:Ht; [|simpl length in Hm; lia].
    unfold IsTour in Htour. by rewrite Ht in Htour. }
  destruct (IsTour_true_walk b Hb Hn Htour) as (cells & Hw & Hlen & Hall).
  apply bijective_IsTourney_undirected; [done | |].
  - unfold IsUndirected in Hu. by destruct (m_nMove2 b).
  - by eapply tour_bijective.
Qed.

Lemma IsTour_IsTourney_undirected_witness :
  IsTourney (board_of 2 2 [1; 2; 3; 0] None) = Ok true.
Proof.
  apply IsTour_IsTourney_undirected;
    [concrete_shape | reflexivity | reflexivity].
Defined.

(** ** What a deletion leaves on a directed board *)

Lemma clear_slot_get t i j : 0 ≤ j → rd (clear_slot t i j) i ≠ Ok j.
Proof.
  intros Hj. unfold clear_slot. destruct (rd t i) as [v| | |] eqn:Hv.
  - destruct (Z.eqb_spec v j) as [->|Hne].
    + rewrite rd_insert_eq by (by eapply rd_Ok_bounds).
      unfold UNUSED. intros [= E]. lia.
    + rewrite Hv. congruence.
  - by rewrite Hv.
  - by rewrite Hv.
  - by rewrite Hv.
Qed.

Lemma clear_slot_other t i j k : k ≠ i → rd (clear_slot t i j) k = rd t k.
Proof.
  intros Hk. unfold clear_slot. destruct (rd t i) as [v| | |] eqn:Hv; try done.
  destruct (v =? j); [|done].
  apply rd_insert_other; [done|]. apply rd_Ok_bounds in Hv. lia.
Qed.

Lemma cleared_absent t src dest :
  0 ≤ src → 0 ≤ dest →
  rd (clear_slot (clear_slot t src dest) dest src) src ≠ Ok dest
  ∧ rd (clear_slot (clear_slot t src dest) dest src) dest ≠ Ok src.
Proof.
  intros Hs Hd. split; [|by apply clear_slot_get].
  destruct (decide (src = dest)) as [->|Hne]; [by apply clear_slot_get|].
  rewrite clear_slot_other by done. by apply clear_slot_get.
Qed.

Lemma cleared_frame t src dest c :
  c ≠ src → c ≠ dest →
  rd (clear_slot (clear_slot t src dest) dest src) c = rd t c.
Proof. intros Hs Hd. by rewrite !clear_slot_other. Qed.

(** X7. On a well-shaped directed board [DeleteMove(src,dest)] with
    valid cells always returns, and afterwards [IsMove(src,dest)] is
    false and the slots of all other cells are as before.  It returns
    true exactly when the secondary table recorded the move: deleting a
    move held in primary slots only returns false. *)
Theorem DeleteMove_directed_removes (b : CBaseBoard) (t2 : list Z)
    (src dest : Z) :
  board_shape b → m_nMove2 b = Some t2 →
  valid_cell b src → valid_cell b dest →
  ∃ r b', DeleteMove b src dest = Ok (r, b')
    ∧ board_shape b' ∧ IsDirected b' = true
    ∧ IsMove b' src dest = Ok false
    ∧ (r = true ↔ rd t2 src = Ok dest ∨ rd t2 dest = Ok src)
    ∧ ∀ c, c ≠ src → c ≠ dest →
        rd (m_nMove b') c = rd (m_nMove b) c ∧ rd2 b' c = rd t2 c.
Proof.
  intros Hb H2 Hs Hd.
  destruct (DeleteMove_directed_run b t2 src dest Hb H2 Hs Hd)
    as (present & Hpresent & Hrun).
  set (b2 := primary_cleared b src dest) in *.
  assert (Hb2 : board_shape b2) by by apply primary_cleared_shape.
  assert (H22 : m_nMove2 b2 = Some t2) by done.
  assert (Hs0 : 0 ≤ src) by (unfold valid_cell in Hs; lia).
  assert (Hd0 : 0 ≤ dest) by (unfold valid_cell in Hd; lia).
  destruct (cleared_absent (m_nMove b) src dest Hs0 Hd0) as [P1 P2].
  destruct (cleared_absent t2 src dest Hs0 Hd0) as [S1 S2].
  destruct (IsMove_directed b2 t2 src dest Hb2 H22 Hs Hd)
    as (vi & wi & vj & wj & Hvi & Hwi & Hvj & Hwj & Hmove).
  assert (Evi : (vi =? dest) = false).
  { apply Z.eqb_neq. intros ->. by apply P1. }
  assert (Evj : (vj =? src) = false).
  { apply Z.eqb_neq. intros ->. by apply P2. }
  rewrite Hmove, Evi, Evj in Hpresent. cbn [orb] in Hpresent.
  rewrite orb_false_r in Hpresent. injection Hpresent as Hpresent.
  assert (Hr : present = true ↔ rd t2 src = Ok dest ∨ rd t2 dest = Ok src).
  { rewrite <- Hpresent, orb_true_iff, !Z.eqb_eq, Hwi, Hwj, !Ok_inj. done. }
  exists present. eexists. split; [exact Hrun|].
  destruct present.
  - set (b3 := secondary_cleared b2 src dest).
    assert (H23 : m_nMove2 b3
                  = Some (clear_slot (clear_slot t2 src dest) dest src))
      by (unfold b3, secondary_cleared; by rewrite H22).
    assert (Hb3 : board_shape b3).
    { unfold b3, secondary_cleared. rewrite H22. apply with_move2_shape; [done|].
      rewrite !clear_slot_length. destruct Hb2 as (_&_&_&_&_&Hl). by apply Hl. }
    split; [done|]. split; [by eapply IsDirected_Some|].
    split; [|split; [done|]].
    + destruct (IsMove_directed b3 _ src dest Hb3 H23 Hs Hd)
        as (vi' & wi' & vj' & wj' & Hvi' & Hwi' & Hvj' & Hwj' & ->).
      f_equal.
      change (m_nMove b3) with (m_nMove b2) in Hvi', Hvj'.
      assert (vi' = vi) as -> by congruence.
      assert (vj' = vj) as -> by congruence.
      rewrite Evi, Evj.
      replace (wi' =? dest) with false
        by (symmetry; apply Z.eqb_neq; intros ->; by apply S1).
      replace (wj' =? src) with false
        by (symmetry; apply Z.eqb_neq; intros ->; by apply S2).
      done.
    + intros c Hcs Hcd. split.
      * by apply cleared_frame.
      * rewrite (rd2_Some b3 _ c H23). by apply cleared_frame.
  - split; [done|]. split; [by eapply IsDirected_Some|].
    split; [|split; [done|]].
    + rewrite Hmove, Evi, Evj. cbn [orb]. rewrite orb_false_r. by f_equal.
    + intros c Hcs Hcd. split.
      * by apply cleared_frame.
      * by rewrite (rd2_Some b2 _ c H22).
Qed.

Lemma DeleteMove_directed_removes_witness :
  ∃ b', DeleteMove (board_of 2 1 [1; 0] (Some [-1; -1])) 0 1 = Ok (false, b')
    ∧ IsMove b' 0 1 = Ok false.
Proof.
  destruct (DeleteMove_directed_removes
              (board_of 2 1 [1; 0] (Some [-1; -1])) [-1; -1] 0 1
              ltac:(concrete_shape) eq_refl
              ltac:(concrete_shape) ltac:(concrete_shape))
    as (r & b' & Hrun & _ & _ & Hmove & Hr & _).
  exists b'. split; [|done].
  destruct r; [|done]. by destruct (proj1 Hr eq_refl).
Defined.

(** ** The back edges [MakeDirected] computes *)

Lemma rd_snoc pre v i c :
  rd (pre ++ [v]) i = Ok c
  ↔ rd pre i = Ok c ∨ (i = Z.of_nat (length pre) ∧ v = c).
Proof.
  rewrite !rd_Ok, lookup_snoc_Some. split.
  - intros [Hi [[Hlt Hl]|[Hl ->]]]; [by left | right]. split; [lia | done].
  - intros [[Hi Hl]|[-> ->]].
    + split; [done|]. left. split; [|done]. by eapply lookup_lt_Some.
    + split; [lia|]. right. split; [lia | done].
Qed.

Lemma last_source_ext t t' t2 t2' c :
  (∀ i, rd t' i = Ok c ↔ rd t i = Ok c) → rd t2' c = rd t2 c →
  last_source t' t2' c ↔ last_source t t2 c.
Proof.
  intros Ht H2. unfold last_source. rewrite H2.
  split; (intros [[Hu Hno]|(i & Hi & Hr & Hmax)]; [left | right]).
  - split; [done|]. intros i Hi. by apply (Hno i), Ht.
  - exists i. split; [by apply Ht|]. split; [done|].
    intros j Hj. by apply Hmax, Ht.
  - split; [done|]. intros i Hi. by apply (Hno i), Ht.
  - exists i. split; [by apply Ht|]. split; [done|].
    intros j Hj. by apply Hmax, Ht.
Qed.

Lemma MakeDirected_loop_last b :
  board_shape b →
  ∀ l pre t2,
    m_nMove b = pre ++ l →
    Z.of_nat (length t2) = m_nSize b →
    (∀ c, valid_cell b c → last_source pre t2 c) →
    ∃ t2',
      for_ (length l) (Z.of_nat (length pre)) (λ _, true)
        (MakeDirected_step b) t2 = Ok t2'
      ∧ Z.of_nat (length t2') = m_nSize b
      ∧ ∀ c, valid_cell b c → last_source (pre ++ l) t2' c.
Proof.
  intros Hb. induction l as [|v l IH]; intros pre t2 Hm Hlen Hinv.
  - exists t2. rewrite app_nil_r. by repeat split.
  - cbn [length for_].
    assert (Hrd : rd (m_nMove b) (Z.of_nat (length pre)) = Ok v)
      by (rewrite Hm; apply rd_app_middle).
    assert (Hstep : ∃ t2', MakeDirected_step b (Z.of_nat (length pre)) t2
                           = Ok t2'
              ∧ Z.of_nat (length t2') = m_nSize b
              ∧ ∀ c, valid_cell b c → last_source (pre ++ [v]) t2' c).
    { unfold MakeDirected_step. rewrite Hrd. cbn [mbind res_bind].
      destruct (CellIndexInRange b v) eqn:Hv.
      - apply (shape_in_range b v Hb) in Hv.
        rewrite wr_in_bounds by (unfold valid_cell in Hv; lia).
        eexists. split; [done|]. split; [by rewrite length_insert|].
        intros c Hc. destruct (decide (c = v)) as [->|Hne].
        + right. exists (Z.of_nat (length pre)). split; [|split].
          * apply rd_snoc. by right.
          * apply rd_insert_eq. unfold valid_cell in Hv. lia.
          * intros j Hj. apply rd_Ok_bounds in Hj.
            rewrite length_app in Hj. simpl in Hj. lia.
        + assert (Hsame : ∀ i, rd (pre ++ [v]) i = Ok c ↔ rd pre i = Ok c).
          { intros i. rewrite rd_snoc. split; [|by left].
            intros [?|[_ ?]]; [done | congruence]. }
          rewrite (last_source_ext pre (pre ++ [v]) t2 (<[Z.to_nat v := _]> t2) c);
            [by apply Hinv | done |].
          apply rd_insert_other; [done|]. unfold valid_cell in Hv. lia.
      - eexists. split; [done|]. split; [done|].
        intros c Hc.
        assert (Hne : c ≠ v).
        { intros ->. apply (shape_in_range b v Hb) in Hc. congruence. }
        assert (Hsame : ∀ i, rd (pre ++ [v]) i = Ok c ↔ rd pre i = Ok c).
        { intros i. rewrite rd_snoc. split; [|by left].
          intros [?|[_ ?]]; [done | congruence]. }
        rewrite (last_source_ext pre (pre ++ [v]) t2 t2 c);
          [by apply Hinv | done | done]. }
    destruct Hstep as (t2s & -> & Hlens & Hinvs). cbn [mbind res_bind].
    rewrite <- (length_snoc_Z pre v).
    destruct (IH (pre ++ [v]) t2s) as (t2' & Hrun & Hlen' & Hinv');
      [by rewrite <- app_assoc | done | done |].
    exists t2'. rewrite <- app_assoc in Hinv'. done.
Qed.

(** X8. [MakeDirected] on a well-shaped undirected board, whatever its
    entries, returns a well-shaped directed board with the primary table
    unchanged; slot [c] of the new secondary table holds the last cell
    whose move leads to [c], and [UNUSED] when no cell leads there.  On a
    directed board it changes nothing. *)
Theorem MakeDirected_back_edges (b : CBaseBoard) :
  board_shape b →
  (IsDirected b = true → MakeDirected b = Ok b)
  ∧ (IsUndirected b = true →
     ∃ t2, MakeDirected b = Ok (with_move2 b (Some t2))
       ∧ board_shape (with_move2 b (Some t2))
       ∧ ∀ c, valid_cell b c → last_source (m_nMove b) t2 c).
Proof.
  intros Hb. split.
  - unfold MakeDirected, IsDirected. by destruct (IsUndirected b).
  - intros Hu. unfold MakeDirected. rewrite Hu.
    pose proof (shape_size b Hb) as Hn.
    destruct (MakeDirected_loop_last b Hb (m_nMove b) []
                (replicate (Z.to_nat (m_nSize b)) UNUSED))
      as (t2 & Hrun & Hlen & Hinv); [done | | |].
    { rewrite length_replicate. lia. }
    { intros c Hc. left. split.
      - apply rd_Ok. split; [unfold valid_cell in Hc; lia|].
        apply lookup_replicate_2. unfold valid_cell in Hc. lia.
      - intros i [_ Hi]%rd_Ok. done. }
    rewrite (shape_length_primary b Hb) in Hrun.
    change (Z.of_nat (length [])) with 0 in Hrun. cbv zeta. rewrite Hrun.
    exists t2. split; [done|]. split; [by apply with_move2_shape | done].
Qed.

Lemma MakeDirected_back_edges_witness :
  ∃ t2, MakeDirected (board_of 2 2 [1; 3; 1; -1] None)
        = Ok (with_move2 (board_of 2 2 [1; 3; 1; -1] None) (Some t2))
    ∧ last_source [1; 3; 1; -1] t2 1.
Proof.
  destruct (MakeDirected_back_edges (board_of 2 2 [1; 3; 1; -1] None)
              ltac:(concrete_shape)) as [_ H].
  destruct (H eq_refl) as (t2 & Hrun & _ & Hlast).
  exists t2. split; [done|]. apply Hlast. concrete_shape.
Defined.

(** ** Moves by an offset *)

Lemma deltas_small : Forall small_delta g_vecDeltas.
Proof. repeat constructor; unfold small_delta; simpl; lia. Qed.

Lemma assert_passes (nd c : bool) : nd || c = true → assert_ nd c = Ok ().
Proof. unfold assert_. by intros ->. Qed.

Section Offsets.

Variable b : CBaseBoard.
Hypothesis Hb : board_shape b.

Lemma shape_dims i :
  valid_cell b i →
  0 < m_nWidth b < 2 ^ 30 ∧ 0 < m_nHeight b < 2 ^ 30 ∧ m_nSize b < 2 ^ 30.
Proof.
  intros Hi. pose proof (shape_width_pos b Hb i Hi).
  pose proof (shape_height_pos b Hb i Hi).
  destruct Hb as (_ & _ & Hn & Hmax & _). unfold INT_MAX in *. nia.
Qed.

Lemma shift_x i d :
  valid_cell b i → small_delta d →
  to_int (uadd (col b i) (to_unsigned d.1)) = (shifted b i d).1.
Proof.
  intros Hi [Hd _]. rewrite uadd_to_unsigned, (col_valid b Hb i Hi).
  pose proof (col_bounds b Hb i Hi). pose proof (shape_dims i Hi).
  unfold shifted. cbn [fst snd]. apply to_int_to_unsigned. lia.
Qed.

Lemma shift_y i d :
  valid_cell b i → small_delta d →
  to_int (uadd (row b i) (to_unsigned d.2)) = (shifted b i d).2.
Proof.
  intros Hi [_ Hd]. rewrite uadd_to_unsigned, (row_valid b Hb i Hi).
  pose proof (row_bounds b Hb i Hi). pose proof (shape_dims i Hi).
  unfold shifted. cbn [fst snd]. apply to_int_to_unsigned. lia.
Qed.

Lemma in_range_on_board i p :
  valid_cell b i → InRangeX b p.1 && InRangeY b p.2 = on_board b p.
Proof.
  intros Hi. pose proof (shape_dims i Hi). unfold InRangeX, InRangeY, on_board.
  by rewrite !to_int_small by lia.
Qed.

Lemma on_board_bounds p :
  on_board b p = true
  ↔ (0 ≤ p.1 < m_nWidth b) ∧ (0 ≤ p.2 < m_nHeight b).
Proof.
  unfold on_board. rewrite !andb_true_iff, !Z.leb_le, !Z.ltb_lt. tauto.
Qed.

(** The cell at a position of the board: its index as the code computes
    it, and its coordinates. *)
Lemma cell_index p :
  on_board b p = true →
  uadd (umul (to_unsigned p.2) (m_nWidth b)) (to_unsigned p.1) = cell_at b p
  ∧ valid_cell b (cell_at b p)
  ∧ cell_at b p mod m_nWidth b = p.1
  ∧ cell_at b p / m_nWidth b = p.2.
Proof.
  intros [Hx Hy]%on_board_bounds.
  assert (Hv : valid_cell b (cell_at b p)).
  { unfold valid_cell, cell_at. destruct Hb as (_ & _ & -> & _). nia. }
  pose proof (shape_dims _ Hv) as (Hw & Hh & Hn).
  unfold valid_cell, cell_at in *.
  split; [|split; [done|split]].
  - assert (0 ≤ p.2 * m_nWidth b) by nia.
    unfold uadd, umul. rewrite (to_unsigned_small p.1) by lia.
    rewrite (to_unsigned_small p.2) by lia.
    rewrite (to_unsigned_small (p.2 * m_nWidth b)) by lia.
    apply to_unsigned_small. lia.
  - rewrite Z.add_comm, Z_mod_plus_full. apply Z.mod_small. lia.
  - rewrite Z.add_comm, Z_div_plus_full by lia.
    rewrite Z.div_small by lia. lia.
Qed.

Lemma cell_at_coords j :
  valid_cell b j →
  on_board b (j mod m_nWidth b, j / m_nWidth b) = true
  ∧ cell_at b (j mod m_nWidth b, j / m_nWidth b) = j.
Proof.
  intros Hj. pose proof (col_bounds b Hb j Hj). pose proof (row_bounds b Hb j Hj).
  split; [by apply on_board_bounds|].
  unfold cell_at. simpl. pose proof (shape_dims j Hj).
  pose proof (Z.div_mod j (m_nWidth b) ltac:(lia)). lia.
Qed.

Lemma GetDest_run i d :
  valid_cell b i → small_delta d →
  GetDest b i d
  = Ok (if on_board b (shifted b i d) then cell_at b (shifted b i d)
        else UNUSED).
Proof.
  intros Hi Hd. unfold GetDest. pose proof (shape_dims i Hi) as (Hw & _).
  destruct (Z.eqb_spec (m_nWidth b) 0); [lia|]. cbv zeta.
  rewrite (shift_x i d Hi Hd), (shift_y i d Hi Hd).
  rewrite (in_range_on_board i _ Hi).
  destruct (on_board b (shifted b i d)) eqn:Hon; [|done].
  destruct (cell_index _ Hon) as (-> & Hv & _). f_equal.
  pose proof (shape_dims _ Hv). unfold valid_cell in Hv.
  apply to_int_small. lia.
Qed.

Lemma IsOnBoard_run nd i d :
  nd || IsUndirected b = true → valid_cell b i → small_delta d →
  IsOnBoard nd b i d = Ok (on_board b (shifted b i d)).
Proof.
  intros Ha Hi Hd. unfold IsOnBoard. rewrite (assert_passes _ _ Ha).
  cbn [mbind res_bind]. rewrite (proj2 (shape_in_range b i Hb) Hi).
  cbn [negb]. pose proof (shape_dims i Hi) as (Hw & _).
  destruct (Z.eqb_spec (m_nWidth b) 0); [lia|]. cbv zeta.
  rewrite (shift_x i d Hi Hd), (shift_y i d Hi Hd).
  by rewrite (in_range_on_board i _ Hi).
Qed.

Lemma IsUnused_delta_run nd i d :
  nd || IsUndirected b = true → valid_cell b i → small_delta d →
  IsUnused_delta nd b i d = Ok (available b i d).
Proof.
  intros Ha Hi Hd. unfold IsUnused_delta, available.
  rewrite (assert_passes _ _ Ha).
  cbn [mbind res_bind]. rewrite (proj2 (shape_in_range b i Hb) Hi).
  cbn [negb]. pose proof (shape_dims i Hi) as (Hw & _).
  destruct (Z.eqb_spec (m_nWidth b) 0); [lia|]. cbv zeta.
  rewrite (shift_x i d Hi Hd), (shift_y i d Hi Hd).
  rewrite (in_range_on_board i _ Hi).
  destruct (on_board b (shifted b i d)) eqn:Hon; [|done].
  destruct (cell_index _ Hon) as (-> & Hv & _).
  destruct (shape_primary b _ Hb Hv) as [v Hrd].
  unfold slot_free. by rewrite Hrd.
Qed.

Lemma offset_on_board i j d :
  valid_cell b j →
  on_board b (shifted b i d) && (j =? cell_at b (shifted b i d))
  = offset_is b i j d.
Proof.
  intros Hj. unfold offset_is.
  destruct (on_board b (shifted b i d)) eqn:Hon.
  - destruct (cell_index _ Hon) as (_ & _ & Hc & Hr). cbn [andb].
    destruct (Z.eqb_spec j (cell_at b (shifted b i d))) as [->|Hne].
    + rewrite Hc, Hr. unfold shifted. simpl. symmetry.
      apply andb_true_iff. rewrite !Z.eqb_eq. lia.
    + symmetry. apply andb_false_iff. rewrite !Z.eqb_neq.
      destruct (decide (j mod m_nWidth b - i mod m_nWidth b = d.1)) as [E1|];
        [|by left].
      destruct (decide (j / m_nWidth b - i / m_nWidth b = d.2)) as [E2|];
        [|by right].
      exfalso. apply Hne. destruct (cell_at_coords j Hj) as [_ <-].
      unfold shifted. f_equal. f_equal; lia.
  - cbn [andb]. symmetry. apply andb_false_iff. rewrite !Z.eqb_neq.
    destruct (decide (j mod m_nWidth b - i mod m_nWidth b = d.1)) as [E1|];
      [|by left].
    destruct (decide (j / m_nWidth b - i / m_nWidth b = d.2)) as [E2|];
      [|by right].
    exfalso. destruct (cell_at_coords j Hj) as [Hon' _].
    replace (shifted b i d) with (j mod m_nWidth b, j / m_nWidth b) in Hon
      by (unfold shifted; f_equal; lia).
    congruence.
Qed.

Lemma IsKnightMove_loop_run nd i j ds :
  nd || IsUndirected b = true → valid_cell b i → valid_cell b j →
  Forall small_delta ds →
  IsKnightMove_loop nd b i j ds = Ok (existsb (offset_is b i j) ds).
Proof.
  intros Ha Hi Hj Hds. induction Hds as [|d ds Hd Hds IH]; [done|].
  cbn [IsKnightMove_loop existsb].
  rewrite (IsOnBoard_run nd i d Ha Hi Hd). cbn [mbind res_bind]. cbv zeta.
  rewrite <- (offset_on_board i j d Hj).
  destruct (on_board b (shifted b i d)) eqn:Hon; [|done].
  rewrite (shift_x i d Hi Hd), (shift_y i d Hi Hd).
  destruct (cell_index _ Hon) as (-> & _).
  rewrite (to_unsigned_small j)
    by (pose proof (shape_dims j Hj); unfold valid_cell in Hj; lia).
  cbn [andb]. by destruct (j =? _).
Qed.

End Offsets.

Lemma GetDest_target_aux b i d c :
  board_shape b → valid_cell b i → small_delta d →
  GetDest b i d = Ok c → c ≠ UNUSED →
  valid_cell b c
  ∧ c mod m_nWidth b = i mod m_nWidth b + d.1
  ∧ c / m_nWidth b = i / m_nWidth b + d.2.
Proof.
  intros Hb Hi Hd Hrun Hc. rewrite (GetDest_run b Hb i d Hi Hd) in Hrun.
  destruct (on_board b (shifted b i d)) eqn:Hon; [|congruence].
  injection Hrun as <-.
  by destruct (cell_index b Hb _ Hon) as (_ & Hv & Hx & Hy).
Qed.

(** X9. On a well-shaped board, for a valid cell [i] and offsets that
    fit, [GetDest] returns [UNUSED] exactly when the move leaves the
    board, and otherwise a valid cell whose column and row are those of
    [i] shifted by the offsets. *)
Theorem GetDest_target (b : CBaseBoard) (i : Z) (d : MoveDelta) :
  board_shape b → valid_cell b i → small_delta d →
  ∃ c, GetDest b i d = Ok c
    ∧ (c = UNUSED ↔ on_board b (shifted b i d) = false)
    ∧ (c ≠ UNUSED →
       valid_cell b c
       ∧ c mod m_nWidth b = i mod m_nWidth b + d.1
       ∧ c / m_nWidth b = i / m_nWidth b + d.2).
Proof.
  intros Hb Hi Hd. rewrite (GetDest_run b Hb i d Hi Hd).
  eexists. split; [done|].
  destruct (on_board b (shifted b i d)) eqn:Hon.
  - destruct (cell_index b Hb _ Hon) as (_ & Hv & Hc & Hr).
    split; [|done]. split; [|done].
    unfold valid_cell, UNUSED in *. lia.
  - split; done.
Qed.

Lemma GetDest_target_witness :
  ∃ c, GetDest (board_of 3 3 (replicate 9 (-1)) None) 0 (1, 2) = Ok c
    ∧ c mod 3 = 1 ∧ c / 3 = 2.
Proof.
  destruct (GetDest_target (board_of 3 3 (replicate 9 (-1)) None) 0 (1, 2)
              ltac:(concrete_shape) ltac:(concrete_shape)
              ltac:(unfold small_delta; simpl; lia))
    as (c & Hrun & Hu & Hc).
  exists c. split; [done|].
  destruct (decide (c = UNUSED)) as [E|E].
  - apply Hu in E. discriminate E.
  - by destruct (Hc E) as (_ & ? & ?).
Defined.

(** X10. On a well-shaped board, when [GetDest] moves from a valid cell
    by the [k]-th entry of [g_vecDeltas] and stays on the board,
    [GetMoveIndex] from that cell to the destination gives [k] back. *)
Theorem GetDest_GetMoveIndex (b : CBaseBoard) (i c : Z) (k : nat)
    (d : MoveDelta) :
  board_shape b → valid_cell b i →
  g_vecDeltas !! k = Some d →
  GetDest b i d = Ok c → c ≠ UNUSED →
  GetMoveIndex b i c = Ok (Z.of_nat k).
Proof.
  intros Hb Hi Hk Hrun Hc.
  assert (Hd : small_delta d).
  { pose proof deltas_small as Hall. rewrite Forall_lookup in Hall.
    by eapply Hall. }
  destruct (GetDest_target_aux b i d c Hb Hi Hd Hrun Hc) as (Hv & Hx & Hy).
  rewrite (GetMoveIndex_switch b Hb i c Hi Hv).
  replace (c mod m_nWidth b - i mod m_nWidth b) with d.1 by lia.
  replace (c / m_nWidth b - i / m_nWidth b) with d.2 by lia.
  f_equal.
  do 8 (destruct k as [|k]; [by injection Hk as <-|]). done.
Qed.

Lemma GetDest_GetMoveIndex_witness :
  GetMoveIndex (board_of 3 3 (replicate 9 (-1)) None) 0 7 = Ok 6.
Proof.
  apply (GetDest_GetMoveIndex (board_of 3 3 (replicate 9 (-1)) None) 0 7 6
           (1, 2));
    [concrete_shape | concrete_shape | reflexivity | reflexivity | discriminate].
Defined.

(** X11. Where the assertion of an undirected board passes,
    [IsOnBoard(pos,d)] and [IsUnused(pos,d)] return false for a [pos]
    off the board; for a valid [pos] and offsets that fit they agree with
    [GetDest]: [IsOnBoard] is true iff [GetDest] is not [UNUSED], and
    [IsUnused] is true iff moreover the primary slot of that cell is
    [UNUSED]. *)
Theorem IsOnBoard_IsUnused_GetDest (nd : bool) (b : CBaseBoard) (pos : Z)
    (d : MoveDelta) :
  board_shape b → nd || IsUndirected b = true →
  (¬ valid_cell b pos →
   IsOnBoard nd b pos d = Ok false ∧ IsUnused_delta nd b pos d = Ok false)
  ∧ (valid_cell b pos → small_delta d →
     ∃ c, GetDest b pos d = Ok c
       ∧ IsOnBoard nd b pos d = Ok (negb (c =? UNUSED))
       ∧ IsUnused_delta nd b pos d = Ok (slot_free b c)).
Proof.
  intros Hb Ha. split.
  - intros Hpos. unfold IsOnBoard, IsUnused_delta.
    rewrite (assert_passes _ _ Ha). cbn [mbind res_bind].
    by rewrite (CellIndexInRange_false b pos (proj1 (shape_size b Hb)) Hpos).
  - intros Hpos Hd.
    rewrite (GetDest_run b Hb pos d Hpos Hd),
      (IsOnBoard_run b Hb nd pos d Ha Hpos Hd),
      (IsUnused_delta_run b Hb nd pos d Ha Hpos Hd).
    eexists. split; [done|]. unfold available.
    destruct (on_board b (shifted b pos d)) eqn:Hon.
    + destruct (cell_index b Hb _ Hon) as (_ & Hv & _).
      replace (cell_at b (shifted b pos d) =? UNUSED) with false; [done|].
      symmetry. apply Z.eqb_neq. unfold valid_cell, UNUSED in *. lia.
    + done.
Qed.

Lemma IsOnBoard_IsUnused_GetDest_witness :
  IsOnBoard false (board_of 3 3 [-1; -1; -1; -1; -1; -1; -1; 0; -1] None)
    0 (1, 2) = Ok true
  ∧ IsUnused_delta false
      (board_of 3 3 [-1; -1; -1; -1; -1; -1; -1; 0; -1] None) 0 (1, 2)
    = Ok false.
Proof.
  destruct (IsOnBoard_IsUnused_GetDest false
              (board_of 3 3 [-1; -1; -1; -1; -1; -1; -1; 0; -1] None) 0 (1, 2)
              ltac:(concrete_shape) eq_refl) as [_ H].
  destruct (H ltac:(concrete_shape) ltac:(unfold small_delta; simpl; lia))
    as (c & Hc & Hon & Hun).
  injection Hc as <-. by split.
Defined.

Ltac split_offset v :=
  destruct (decide (v = -2));
    [|destruct (decide (v = -1));
      [|destruct (decide (v = 1)); [|destruct (decide (v = 2))]]].

Ltac kill_eqb v :=
  repeat match goal with
  | |- context [v =? ?y] => destruct (Z.eqb_spec v y); try (exfalso; lia)
  end.

Lemma knight_offsets dx dy :
  existsb (λ d : MoveDelta, (dx =? d.1) && (dy =? d.2)) g_vecDeltas
  = negb (canonical_index dx dy =? UNUSED).
Proof.
  unfold canonical_index, move_index_table, assoc, g_vecDeltas.
  split_offset dx; split_offset dy; simpl;
    kill_eqb dx; kill_eqb dy; reflexivity.
Qed.

Lemma knight_offsets_sym dx dy :
  existsb (λ d : MoveDelta, (- dx =? d.1) && (- dy =? d.2)) g_vecDeltas
  = existsb (λ d : MoveDelta, (dx =? d.1) && (dy =? d.2)) g_vecDeltas.
Proof.
  unfold g_vecDeltas.
  split_offset dx; split_offset dy; simpl;
    kill_eqb dx; kill_eqb (- dx); kill_eqb dy; kill_eqb (- dy); reflexivity.
Qed.

Lemma IsKnightMove_run nd b i j :
  board_shape b → nd || IsUndirected b = true →
  valid_cell b i → valid_cell b j →
  IsKnightMove nd b i j
  = Ok (existsb (λ d : MoveDelta,
                   (j mod m_nWidth b - i mod m_nWidth b =? d.1)
                   && (j / m_nWidth b - i / m_nWidth b =? d.2)) g_vecDeltas).
Proof.
  intros Hb Ha Hi Hj. unfold IsKnightMove. cbv zeta.
  pose proof (proj2 (shape_in_range b i Hb) Hi) as Ri.
  pose proof (proj2 (shape_in_range b j Hb) Hj) as Rj.
  unfold CellIndexInRange in Ri, Rj.
  apply andb_true_iff in Ri as [Ri1 Ri2]. apply andb_true_iff in Rj as [Rj1 Rj2].
  rewrite Ri1, Ri2, Rj1, Rj2. cbn [andb].
  exact (IsKnightMove_loop_run b Hb nd i j g_vecDeltas Ha Hi Hj deltas_small).
Qed.

(** X12. [IsKnightMove] returns false when either index is off the
    board.  For two valid cells of a well-shaped board, where the
    assertion of an undirected board passes, it is true exactly when
    [GetMoveIndex] finds a move index for the pair, and it is symmetric
    in the two cells.  On a directed board with assertions enabled it
    stops at the assertion of [IsOnBoard]. *)
Theorem IsKnightMove_GetMoveIndex (nd : bool) (b : CBaseBoard) (i j : Z) :
  board_shape b →
  (¬ (valid_cell b i ∧ valid_cell b j) → IsKnightMove nd b i j = Ok false)
  ∧ (valid_cell b i → valid_cell b j →
     (nd || IsUndirected b = true →
      ∃ k, GetMoveIndex b i j = Ok k
        ∧ IsKnightMove nd b i j = Ok (negb (k =? UNUSED))
        ∧ IsKnightMove nd b j i = IsKnightMove nd b i j)
     ∧ (nd || IsUndirected b = false →
        IsKnightMove nd b i j = AssertFail)).
Proof.
  intros Hb. pose proof (shape_size b Hb) as Hn. split; [|intros Hi Hj; split].
  - intros Hno. unfold IsKnightMove. cbv zeta.
    destruct (decide (valid_cell b i)) as [Hi|Hi].
    + assert (Hj : ¬ valid_cell b j) by tauto.
      pose proof (CellIndexInRange_false b j (proj1 Hn) Hj) as Rj.
      unfold CellIndexInRange in Rj. apply andb_false_iff in Rj.
      destruct (0 <=? i), (i <? to_int (m_nSize b)); cbn [andb]; try done.
      destruct Rj as [->| ->]; [done|]. by destruct (0 <=? j).
    + pose proof (CellIndexInRange_false b i (proj1 Hn) Hi) as Ri.
      unfold CellIndexInRange in Ri. by rewrite Ri.
  - intros Ha.
    rewrite (GetMoveIndex_switch b Hb i j Hi Hj).
    rewrite (IsKnightMove_run nd b i j Hb Ha Hi Hj),
      (IsKnightMove_run nd b j i Hb Ha Hj Hi).
    eexists. split; [done|]. split.
    + by rewrite knight_offsets.
    + f_equal.
      replace (i mod m_nWidth b - j mod m_nWidth b)
        with (- (j mod m_nWidth b - i mod m_nWidth b)) by lia.
      replace (i / m_nWidth b - j / m_nWidth b)
        with (- (j / m_nWidth b - i / m_nWidth b)) by lia.
      apply knight_offsets_sym.
  - intros Ha. unfold IsKnightMove. cbv zeta.
    pose proof (proj2 (shape_in_range b i Hb) Hi) as Ri.
    pose proof (proj2 (shape_in_range b j Hb) Hj) as Rj.
    unfold CellIndexInRange in Ri, Rj.
    apply andb_true_iff in Ri as [Ri1 Ri2].
    apply andb_true_iff in Rj as [Rj1 Rj2].
    rewrite Ri1, Ri2, Rj1, Rj2. cbn [andb].
    unfold g_vecDeltas. cbn [IsKnightMove_loop]. unfold IsOnBoard, assert_.
    by rewrite Ha.
Qed.

Lemma IsKnightMove_GetMoveIndex_witness :
  IsKnightMove false (board_of 3 3 (replicate 9 (-1)) None) 7 0 = Ok true.
Proof.
  destruct (IsKnightMove_GetMoveIndex false
              (board_of 3 3 (replicate 9 (-1)) None) 0 7
              ltac:(concrete_shape)) as [_ H].
  destruct (H ltac:(concrete_shape) ltac:(concrete_shape)) as [H1 _].
  destruct (H1 eq_refl) as (k & Hk & Hij & ->).
  injection Hk as <-. exact Hij.
Defined.

(** ** Counting the available moves *)

Lemma sadd_small a c :
  - 2 ^ 31 ≤ a + c < 2 ^ 31 → sadd a c = Ok (a + c).
Proof.
  intros H. unfold sadd, in_int, INT_MIN, INT_MAX.
  destruct (Z.leb_spec (- 2 ^ 31) (a + c)); [|lia].
  destruct (Z.leb_spec (a + c) (2 ^ 31 - 1)); [done | lia].
Qed.

Lemma GetAvailableMoveCount_step_run b i d count :
  board_shape b → valid_cell b i → small_delta d →
  0 ≤ count < INT_MAX →
  GetAvailableMoveCount_step b (i mod m_nWidth b) (i / m_nWidth b) d count
  = Ok (count + if available b i d then 1 else 0).
Proof.
  intros Hb Hi Hd Hcount. unfold GetAvailableMoveCount_step, available.
  pose proof (col_bounds b Hb i Hi). pose proof (row_bounds b Hb i Hi).
  pose proof (shape_dims b Hb i Hi) as (Hw & Hh & Hn).
  destruct Hd as [Hd1 Hd2]. unfold INT_MAX in Hcount.
  rewrite !sadd_small by lia. cbn [mbind res_bind].
  change (i mod m_nWidth b + d.1) with (shifted b i d).1.
  change (i / m_nWidth b + d.2) with (shifted b i d).2.
  rewrite (in_range_on_board b Hb i (shifted b i d) Hi).
  destruct (on_board b (shifted b i d)) eqn:Hon;
    [|by rewrite Z.add_0_r].
  destruct (cell_index b Hb _ Hon) as (-> & Hv & _).
  rewrite to_int_small
    by (pose proof (shape_dims b Hb _ Hv); unfold valid_cell in Hv; lia).
  destruct (shape_primary b _ Hb Hv) as [v Hrd].
  unfold slot_free. rewrite Hrd. cbn [mbind res_bind andb].
  destruct (v =? UNUSED); [done | by rewrite Z.add_0_r].
Qed.

Lemma GetAvailableMoveCount_loop b i ds :
  board_shape b → valid_cell b i → Forall small_delta ds →
  ∀ count, 0 ≤ count → count + Z.of_nat (length ds) ≤ INT_MAX →
  foreach ds (GetAvailableMoveCount_step b (i mod m_nWidth b) (i / m_nWidth b))
    count
  = Ok (count + Z.of_nat (length (List.filter (available b i) ds))).
Proof.
  intros Hb Hi Hds. induction Hds as [|d ds Hd Hds IH]; intros count H0 Hmax.
  - simpl. by rewrite Z.add_0_r.
  - cbn [foreach List.filter]. simpl length in Hmax.
    rewrite GetAvailableMoveCount_step_run by (done || lia).
    cbn [mbind res_bind].
    destruct (available b i d).
    + rewrite IH by lia. simpl length. f_equal. lia.
    + rewrite Z.add_0_r. by rewrite IH by lia.
Qed.

(** X13. On a well-shaped board, where the assertion of an undirected
    board passes, [GetAvailableMoveCount] of a valid cell returns the
    number of entries of [g_vecDeltas] for which [IsUnused(index,delta)]
    returns true, a number between 0 and 8. *)
Theorem GetAvailableMoveCount_counts (nd : bool) (b : CBaseBoard)
    (index : Z) :
  board_shape b → nd || IsUndirected b = true → valid_cell b index →
  ∃ unused : MoveDelta → bool,
    (∀ d, d ∈ g_vecDeltas → IsUnused_delta nd b index d = Ok (unused d))
    ∧ GetAvailableMoveCount nd b index
      = Ok (Z.of_nat (length (List.filter unused g_vecDeltas)))
    ∧ 0 ≤ Z.of_nat (length (List.filter unused g_vecDeltas)) ≤ 8.
Proof.
  intros Hb Ha Hi. exists (available b index). split; [|split].
  - intros d Hd. apply IsUnused_delta_run; [done..|].
    pose proof deltas_small as Hall. rewrite Forall_forall in Hall.
    apply Hall. by apply list_elem_of_In.
  - unfold GetAvailableMoveCount. rewrite (assert_passes _ _ Ha).
    cbn [mbind res_bind].
    pose proof (shape_dims b Hb index Hi) as (Hw & Hh & Hn).
    destruct (Z.eqb_spec (m_nWidth b) 0); [lia|]. cbv zeta.
    rewrite (col_valid b Hb index Hi), (row_valid b Hb index Hi).
    pose proof (col_bounds b Hb index Hi). pose proof (row_bounds b Hb index Hi).
    rewrite !to_int_small by lia.
    rewrite (GetAvailableMoveCount_loop b index g_vecDeltas Hb Hi deltas_small);
      [done | done | unfold INT_MAX; simpl; lia].
  - split; [lia|].
    pose proof (List.filter_length_le (available b index) g_vecDeltas) as Hle.
    simpl length in Hle at 2. lia.
Qed.

Lemma GetAvailableMoveCount_counts_witness :
  ∃ k, GetAvailableMoveCount false
         (board_of 3 3 [-1; -1; -1; -1; -1; -1; -1; 0; -1] None) 0 = Ok k
    ∧ 0 ≤ k ≤ 8.
Proof.
  destruct (GetAvailableMoveCount_counts false
              (board_of 3 3 [-1; -1; -1; -1; -1; -1; -1; 0; -1] None) 0
              ltac:(concrete_shape) eq_refl ltac:(concrete_shape))
    as (unused & _ & Hrun & Hk).
  eexists. split; [exact Hrun | exact Hk].
Defined.

(** ** Copying a board into a sub-board *)

Lemma smul_small a c :
  - 2 ^ 31 ≤ a * c < 2 ^ 31 → smul a c = Ok (a * c).
Proof.
  intros H. unfold smul, in_int, INT_MIN, INT_MAX.
  destruct (Z.leb_spec (- 2 ^ 31) (a * c)); [|lia].
  destruct (Z.leb_spec (a * c) (2 ^ 31 - 1)); [done | lia].
Qed.

Lemma srem_nonneg a c : 0 ≤ a → 0 < c → srem a c = Ok (a mod c).
Proof.
  intros Ha Hc. unfold srem, INT_MIN.
  destruct (Z.eqb_spec c 0); [lia|].
  destruct (Z.eqb_spec a (- 2 ^ 31)); [lia|]. cbn [orb andb].
  by rewrite Z.rem_mod_nonneg by lia.
Qed.

Lemma sdiv_nonneg a c : 0 ≤ a → 0 < c → sdiv a c = Ok (a / c).
Proof.
  intros Ha Hc. unfold sdiv, INT_MIN.
  destruct (Z.eqb_spec c 0); [lia|].
  destruct (Z.eqb_spec a (- 2 ^ 31)); [lia|]. cbn [orb andb].
  by rewrite Z.quot_div_nonneg by lia.
Qed.

Lemma div_mod_row w x y :
  0 ≤ x < w → (y * w + x) / w = y ∧ (y * w + x) mod w = x.
Proof.
  intros Hx. split.
  - rewrite Z.add_comm, Z_div_plus_full by lia. rewrite Z.div_small by lia. lia.
  - rewrite Z.add_comm, Z_mod_plus_full. by apply Z.mod_small.
Qed.

Section SubBoard.

Variable nd : bool.
Variables b other : CBaseBoard.
Variables x0 y0 : Z.
Hypothesis Hb : board_shape b.
Hypothesis Hu : IsUndirected b = true.
Hypothesis Ho : board_shape other.
Hypothesis Huo : IsUndirected other = true.
Hypothesis Hcells : 0 < m_nSize other.
Hypothesis Hfull : Forall (λ v, 0 ≤ v < m_nSize other) (m_nMove other).
Hypothesis Hx0 : 0 ≤ x0 ∧ x0 + m_nWidth other ≤ m_nWidth b.
Hypothesis Hy0 : 0 ≤ y0 ∧ y0 + m_nHeight other ≤ m_nHeight b.
Hypothesis Hfree : ∀ s, 0 ≤ s < m_nSize other →
  ∃ v, rd (m_nMove b) (place b other x0 y0 s) = Ok v ∧ v < 0.

Lemma source_dims :
  0 < m_nWidth other < 2 ^ 30 ∧ 0 < m_nHeight other < 2 ^ 30
  ∧ m_nSize other < 2 ^ 30
  ∧ m_nSize other = m_nWidth other * m_nHeight other.
Proof.
  assert (Hv : valid_cell other 0) by (unfold valid_cell; lia).
  pose proof (shape_dims other Ho 0 Hv) as (? & ? & ?).
  by destruct Ho as (_ & _ & ? & _).
Qed.

Lemma target_dims :
  0 < m_nWidth b < 2 ^ 30 ∧ 0 < m_nHeight b < 2 ^ 30 ∧ m_nSize b < 2 ^ 30.
Proof.
  pose proof source_dims as (Hw & Hh & _).
  apply (shape_dims b Hb 0). unfold valid_cell.
  destruct Hb as (_ & _ & -> & _). nia.
Qed.

Lemma source_coords s :
  0 ≤ s < m_nSize other →
  0 ≤ s mod m_nWidth other < m_nWidth other
  ∧ 0 ≤ s / m_nWidth other < m_nHeight other.
Proof.
  intros Hs. split.
  - by apply (col_bounds other Ho s).
  - by apply (row_bounds other Ho s).
Qed.

Lemma place_cell s :
  0 ≤ s < m_nSize other →
  on_board b (s mod m_nWidth other + x0, s / m_nWidth other + y0) = true
  ∧ cell_at b (s mod m_nWidth other + x0, s / m_nWidth other + y0)
    = place b other x0 y0 s.
Proof.
  intros Hs. destruct (source_coords s Hs). split; [|done].
  apply on_board_bounds. simpl. lia.
Qed.

Lemma place_valid s :
  0 ≤ s < m_nSize other → valid_cell b (place b other x0 y0 s).
Proof.
  intros Hs. destruct (place_cell s Hs) as [Hon <-].
  by destruct (cell_index b Hb _ Hon) as (_ & ? & _).
Qed.

Lemma place_inj s s' :
  0 ≤ s < m_nSize other → 0 ≤ s' < m_nSize other →
  place b other x0 y0 s = place b other x0 y0 s' → s = s'.
Proof.
  intros Hs Hs' Heq.
  destruct (place_cell s Hs) as [Hon Hc].
  destruct (place_cell s' Hs') as [Hon' Hc'].
  destruct (cell_index b Hb _ Hon) as (_ & _ & Hx & Hy).
  destruct (cell_index b Hb _ Hon') as (_ & _ & Hx' & Hy').
  rewrite Hc in Hx, Hy. rewrite Hc', <- Heq in Hx', Hy'. simpl in *.
  pose proof source_dims as (Hw & _).
  pose proof (Z.div_mod s (m_nWidth other) ltac:(lia)).
  pose proof (Z.div_mod s' (m_nWidth other) ltac:(lia)).
  assert (s mod m_nWidth other = s' mod m_nWidth other) by lia.
  assert (s / m_nWidth other = s' / m_nWidth other) by lia.
  congruence.
Qed.

(** One pass through the body of the loops. *)
Lemma CopyToSubBoard_cell_run x y t :
  0 ≤ x < m_nWidth other → 0 ≤ y < m_nHeight other →
  copied b other x0 y0 (y * m_nWidth other + x) t →
  ∃ t',
    CopyToSubBoard_cell nd other x0 y0 (m_nWidth other) y x (with_move b t)
    = Ok (with_move b t')
    ∧ copied b other x0 y0 (y * m_nWidth other + x + 1) t'.
Proof.
  intros Hx Hy (Hlen & Hdone & Htodo & Hout).
  pose proof source_dims as (Hw & Hh & Hn & Hwh).
  pose proof target_dims as (HW & HH & HN).
  set (s := y * m_nWidth other + x) in *.
  assert (Hs : 0 ≤ s < m_nSize other) by (subst s; nia).
  destruct (div_mod_row (m_nWidth other) x y Hx) as [Hsy Hsx].
  fold s in Hsy, Hsx.
  destruct (shape_primary other s Ho Hs) as [d Hd].
  assert (Hdv : 0 ≤ d < m_nSize other).
  { rewrite Forall_lookup in Hfull. apply rd_Ok in Hd as [_ Hd].
    by eapply Hfull. }
  destruct (place_cell s Hs) as [Hon Hc].
  destruct (place_cell d Hdv) as [Hond Hcd].
  rewrite Hsx, Hsy in Hon, Hc.
  destruct (cell_index b Hb _ Hon) as (Hsrc & Hvs & _).
  destruct (cell_index b Hb _ Hond) as (Hdest & Hvd & _).
  rewrite Hc in Hsrc, Hvs. rewrite Hcd in Hdest, Hvd. simpl in Hsrc, Hdest.
  destruct (source_coords d Hdv) as [Hdx Hdy].
  assert (Hbt : board_shape (with_move b t)) by by apply with_move_shape.
  destruct (shape_primary (with_move b t) _ Hbt Hvs) as [vs Hvs'].
  destruct (shape_primary (with_move b t) _ Hbt Hvd) as [vd Hvd'].
  assert (Hneg : vs < 0).
  { simpl in Hvs'. rewrite (Htodo s) in Hvs' by lia.
    destruct (Hfree s Hs) as (v & Hv & ?). congruence. }
  exists (<[Z.to_nat (place b other x0 y0 s) := place b other x0 y0 d]> t).
  split.
  - unfold CopyToSubBoard_cell.
    rewrite smul_small by nia. cbn [mbind res_bind].
    rewrite (sadd_small (y * m_nWidth other) x) by (fold s; lia).
    cbn [mbind res_bind]. fold s.
    unfold GetMove, assert_. rewrite Huo, orb_true_r. cbn [mbind res_bind].
    rewrite (proj2 (shape_in_range other s Ho) Hs), Hd. cbn [mbind res_bind].
    rewrite srem_nonneg, sdiv_nonneg by lia. cbn [mbind res_bind].
    rewrite !sadd_small by lia. cbn [mbind res_bind]. cbv zeta.
    change (m_nWidth (with_move b t)) with (m_nWidth b).
    rewrite Hsrc, Hdest.
    unfold valid_cell in Hvs, Hvd. rewrite !to_int_small by lia.
    replace (IsDirected (with_move b t)) with false
      by (unfold IsDirected; change (IsUndirected (with_move b t))
            with (IsUndirected b); by rewrite Hu).
    rewrite (InsertUndirectedMove_run nd (with_move b t) _ _ vs vd);
      [|done..].
    destruct (Z.ltb_spec vs 0); [|lia]. done.
  - split; [by rewrite length_insert|]. split; [|split].
    + intros s' Hs'. destruct (decide (s' = s)) as [->|Hne].
      * exists d. split; [done|]. apply rd_insert_eq.
        unfold valid_cell in Hvs.
        destruct Hb as (_ & _ & _ & _ & Hl & _). lia.
      * destruct (Hdone s') as (d' & Hd' & Hr); [lia|].
        exists d'. split; [done|]. rewrite rd_insert_other; [done | |].
        -- intros Heq. apply Hne. symmetry. apply place_inj; [lia..|done].
        -- unfold valid_cell in Hvs. lia.
    + intros s' Hs'. rewrite rd_insert_other; [apply Htodo; lia | |].
      * intros Heq. apply place_inj in Heq; lia.
      * unfold valid_cell in Hvs. lia.
    + intros c Hc'. rewrite rd_insert_other; [by apply Hout | |].
      * intros Heq. by apply (Hc' s).
      * unfold valid_cell in Hvs. lia.
Qed.

Lemma CopyToSubBoard_row y : ∀ (k : nat) x t,
  0 ≤ y < m_nHeight other →
  0 ≤ x → x + Z.of_nat k = m_nWidth other →
  copied b other x0 y0 (y * m_nWidth other + x) t →
  ∃ t',
    for_ k x (λ _, true)
      (λ bsrcx b2,
         CopyToSubBoard_cell nd other x0 y0 (m_nWidth other) y bsrcx b2)
      (with_move b t)
    = Ok (with_move b t')
    ∧ copied b other x0 y0 (y * m_nWidth other + m_nWidth other) t'.
Proof.
  induction k as [|k IH]; intros x t Hy Hx Hk Hinv.
  - exists t. split; [done|].
    by replace (m_nWidth other) with x at 2 by lia.
  - cbn [for_].
    destruct (CopyToSubBoard_cell_run x y t) as (t1 & -> & Hinv1);
      [lia | done | done |].
    cbn [mbind res_bind].
    apply IH; [done | lia | lia |].
    by replace (y * m_nWidth other + (x + 1))
      with (y * m_nWidth other + x + 1) by lia.
Qed.

Lemma CopyToSubBoard_rows : ∀ (k : nat) y t,
  0 ≤ y → y + Z.of_nat k = m_nHeight other →
  copied b other x0 y0 (y * m_nWidth other) t →
  ∃ t',
    for_ k y (λ _, true)
      (λ bsrcy b1,
         for_ (Z.to_nat (m_nWidth other)) 0 (λ _, true)
           (λ bsrcx b2,
              CopyToSubBoard_cell nd other x0 y0 (m_nWidth other) bsrcy
                bsrcx b2)
           b1)
      (with_move b t)
    = Ok (with_move b t')
    ∧ copied b other x0 y0 (m_nSize other) t'.
Proof.
  pose proof source_dims as (Hw & Hh & Hn & Hwh).
  induction k as [|k IH]; intros y t Hy Hk Hinv.
  - exists t. split; [done|].
    replace (m_nSize other) with (y * m_nWidth other); [done|].
    rewrite Hwh. replace y with (m_nHeight other) by lia. lia.
  - cbn [for_].
    destruct (CopyToSubBoard_row y (Z.to_nat (m_nWidth other)) 0 t)
      as (t1 & -> & Hinv1); [lia | lia | lia | by rewrite Z.add_0_r |].
    cbn [mbind res_bind].
    apply IH; [lia | lia |].
    by replace ((y + 1) * m_nWidth other)
      with (y * m_nWidth other + m_nWidth other) by lia.
Qed.

Lemma CopyToSubBoard_run :
  ∃ t, CopyToSubBoard nd b other x0 y0 = Ok (with_move b t)
    ∧ copied b other x0 y0 (m_nSize other) t.
Proof.
  pose proof source_dims as (Hw & Hh & Hn & Hwh).
  unfold CopyToSubBoard, assert_. rewrite Huo, orb_true_r.
  cbn [mbind res_bind]. cbv zeta. rewrite !to_int_small by lia.
  destruct (CopyToSubBoard_rows (Z.to_nat (m_nHeight other)) 0 (m_nMove b))
    as (t & Hrun & Hinv); [lia | lia | |].
  { split; [done|]. split; [intros s Hs; lia|]. by split. }
  rewrite (with_move_id b) in Hrun. by exists t.
Qed.

End SubBoard.

(** X14. [CopyToSubBoard] lays an undirected board [other], all of whose
    cells hold a move, on an undirected board [b], at column [x0] and row
    [y0].  When [other] fits there and the primary slots of [b] under it
    are free, the call returns; the slot under every cell [s] of [other]
    then holds the image of the cell that [s] moves to, and every other
    slot of [b] is unchanged. *)
Theorem CopyToSubBoard_translates (nd : bool) (b other : CBaseBoard)
    (x0 y0 : Z) :
  board_shape b → IsUndirected b = true →
  board_shape other → IsUndirected other = true →
  0 < m_nSize other →
  Forall (λ v, 0 ≤ v < m_nSize other) (m_nMove other) →
  0 ≤ x0 ∧ x0 + m_nWidth other ≤ m_nWidth b →
  0 ≤ y0 ∧ y0 + m_nHeight other ≤ m_nHeight b →
  (∀ s, 0 ≤ s < m_nSize other →
     ∃ v, rd (m_nMove b) (place b other x0 y0 s) = Ok v ∧ v < 0) →
  ∃ t, CopyToSubBoard nd b other x0 y0 = Ok (with_move b t)
    ∧ board_shape (with_move b t)
    ∧ (∀ s d, rd (m_nMove other) s = Ok d →
         rd t (place b other x0 y0 s) = Ok (place b other x0 y0 d))
    ∧ (∀ c, (∀ s, 0 ≤ s < m_nSize other → c ≠ place b other x0 y0 s) →
         rd t c = rd (m_nMove b) c).
Proof.
  intros Hb Hu Ho Huo Hcells Hfull Hx0 Hy0 Hfree.
  destruct (CopyToSubBoard_run nd b other x0 y0 Hb Hu Ho Huo Hcells Hfull
              Hx0 Hy0 Hfree) as (t & Hrun & Hlen & Hdone & _ & Hout).
  exists t. split; [done|]. split; [by apply with_move_shape|].
  split; [|done].
  intros s d Hd. pose proof (rd_Ok_bounds _ _ _ Hd) as Hs.
  destruct Ho as (_ & _ & _ & _ & Hl & _).
  destruct (Hdone s) as (d' & Hd' & Hr); [lia|]. congruence.
Qed.

Lemma CopyToSubBoard_translates_witness :
  ∃ t, CopyToSubBoard false (board_of 4 4 (replicate 16 (-1)) None)
         (board_of 2 2 [1; 3; 0; 2] None) 1 1
       = Ok (with_move (board_of 4 4 (replicate 16 (-1)) None) t)
    ∧ rd t 5 = Ok 6.
Proof.
  destruct (CopyToSubBoard_translates false
              (board_of 4 4 (replicate 16 (-1)) None)
              (board_of 2 2 [1; 3; 0; 2] None) 1 1
              ltac:(concrete_shape) eq_refl ltac:(concrete_shape) eq_refl)
    as (t & Hrun & _ & Hdone & _).
  - simpl. lia.
  - repeat constructor; simpl; lia.
  - simpl. lia.
  - simpl. lia.
  - simpl. intros s Hs.
    assert (s = 0 ∨ s = 1 ∨ s = 2 ∨ s = 3) as [->|[->|[->| ->]]] by lia;
      (eexists; split; [reflexivity | lia]).
  - exists t. split; [done|]. exact (Hdone 0 1 eq_refl).
Defined.

(** ** Construction *)

(** X15. The constructors allocate the primary table only for an even
    number of cells.  For dimensions whose product is even (and small
    enough for [int] indices) the new board is well shaped and
    undirected, every cell of [CBaseBoard(w,h)] reads [UNUSED] and every
    cell of [CBaseBoard(move,w,h)] reads the entry of [move]; for an odd
    product there is no table, and reading any cell of the board, or
    clearing it, is undefined. *)
Theorem constructors_even_size (nd : bool) (move : list Z) (w h : Z) :
  0 ≤ w → 0 ≤ h → 2 * (w * h) ≤ INT_MAX →
  w * h ≤ Z.of_nat (length move) →
  (Z.land (w * h) 1 = 0 →
   board_shape (CBaseBoard_new w h) ∧ IsUndirected (CBaseBoard_new w h) = true
   ∧ board_shape (CBaseBoard_from move w h)
   ∧ IsUndirected (CBaseBoard_from move w h) = true
   ∧ ∀ i, 0 ≤ i < w * h →
       GetMove nd (CBaseBoard_new w h) i = Ok UNUSED
       ∧ GetMove nd (CBaseBoard_from move w h) i = rd move i)
  ∧ (Z.land (w * h) 1 ≠ 0 →
     ∀ i, 0 ≤ i < w * h →
       GetMove nd (CBaseBoard_new w h) i = Undefined
       ∧ GetMove nd (CBaseBoard_from move w h) i = Undefined
       ∧ Clear (CBaseBoard_new w h) = Undefined).
Proof.
  intros Hw Hh Hmax Hmove.
  assert (Hn : 0 ≤ w * h) by nia.
  assert (Hu : to_unsigned (w * h) = w * h)
    by (apply to_unsigned_small; unfold INT_MAX in Hmax; lia).
  assert (Hrange : ∀ i, 0 ≤ i < w * h →
            (0 <=? i) && (i <? to_int (w * h)) = true).
  { intros i Hi. rewrite to_int_small by (unfold INT_MAX in Hmax; lia).
    apply andb_true_iff. rewrite Z.leb_le, Z.ltb_lt. lia. }
  split.
  - intros Heven.
    assert (Hnew : board_shape (CBaseBoard_new w h)).
    { unfold board_shape, CBaseBoard_new. simpl. rewrite Hu, Heven. simpl.
      rewrite length_replicate. repeat split; try done; lia. }
    assert (Hfrom : board_shape (CBaseBoard_from move w h)).
    { unfold board_shape, CBaseBoard_from. simpl. rewrite Hu, Heven. simpl.
      rewrite length_take. repeat split; try done; lia. }
    repeat (split; [done|]).
    intros i Hi. unfold GetMove, assert_, CellIndexInRange, CBaseBoard_new,
      CBaseBoard_from, IsUndirected. simpl. rewrite orb_true_r, Hu, Heven.
    cbn [mbind res_bind]. rewrite (Hrange i Hi). simpl. split.
    + apply rd_Ok. split; [lia|]. apply lookup_replicate_2. lia.
    + unfold rd. destruct (Z.leb_spec 0 i); [|lia].
      by rewrite lookup_take_lt by lia.
  - intros Hodd i Hi.
    unfold GetMove, Clear, assert_, CellIndexInRange, CBaseBoard_new,
      CBaseBoard_from, IsUndirected. simpl. rewrite orb_true_r, Hu.
    destruct (Z.eqb_spec (Z.land (w * h) 1) 0) as [E|_]; [done|].
    cbn [mbind res_bind]. rewrite (Hrange i Hi).
    assert (Hrd : rd [] i = Undefined).
    { unfold rd. by destruct (0 <=? i). }
    rewrite Hrd. repeat split.
    destruct (Z.to_nat (w * h)) as [|k] eqn:Hk; [lia|]. done.
Qed.

Lemma constructors_even_size_witness :
  GetMove false (CBaseBoard_from [1; 2; 3; 0] 2 2) 3 = Ok 0
  ∧ Clear (CBaseBoard_new 3 3) = Undefined.
Proof.
  split.
  - destruct (constructors_even_size false [1; 2; 3; 0] 2 2) as [H _];
      [lia | lia | unfold INT_MAX; lia | simpl; lia |].
    destruct (H eq_refl) as (_ & _ & _ & _ & Hget).
    by destruct (Hget 3 ltac:(lia)) as [_ ->].
  - destruct (constructors_even_size false (replicate 9 0) 3 3) as [_ H];
      [lia | lia | unfold INT_MAX; lia | simpl; lia |].
    by destruct (H ltac:(discriminate) 0 ltac:(lia)) as (_ & _ & ->).
Defined.

(** ** Building a tour by insertions *)

Lemma insert_cycle_loop nd b n : 
  board_shape b → IsUndirected b = true → n = m_nSize b →
  ∀ (k : nat) i t,
    0 ≤ i → i + Z.of_nat k = n →
    length t = length (m_nMove b) →
    (∀ j, 0 ≤ j < i → rd t j = Ok ((j + 1) mod n)) →
    (∀ j, i ≤ j < n → ∃ v, rd t j = Ok v ∧ v < 0) →
    ∃ t',
      insert_moves nd ((λ i, (i, (i + 1) mod n)) <$> seqZ i (Z.of_nat k))
        (with_move b t)
      = Ok (with_move b t')
      ∧ length t' = length (m_nMove b)
      ∧ ∀ j, 0 ≤ j < n → rd t' j = Ok ((j + 1) mod n).
Proof.
  intros Hb Hu Hn. induction k as [|k IH]; intros i t Hi Hk Hlen Hdone Hfree.
  - exists t. split; [done|]. split; [done|]. intros j Hj. apply Hdone. lia.
  - rewrite seqZ_cons by lia.
    replace (Z.pred (Z.of_nat (S k))) with (Z.of_nat k) by lia.
    cbn [fmap list_fmap]. unfold insert_moves. cbn [foreach fst snd].
    assert (Hbt : board_shape (with_move b t)) by by apply with_move_shape.
    assert (Hnpos : 0 < n) by lia.
    pose proof (Z.mod_pos_bound (i + 1) n Hnpos) as Hdest.
    destruct (Hfree i) as (vs & Hvs & Hneg); [lia|].
    destruct (shape_primary (with_move b t) ((i + 1) mod n) Hbt) as [vd Hvd];
      [unfold valid_cell; simpl; lia|].
    rewrite (InsertUndirectedMove_run nd (with_move b t) i _ vs vd);
      [|done..].
    destruct (Z.ltb_spec vs 0); [|lia]. cbn [mbind res_bind snd].
    change (with_move (with_move b t) ?u) with (with_move b u).
    simpl m_nMove.
    pose proof (rd_Ok_bounds _ _ _ Hvs) as Bi.
    destruct (IH (Z.succ i) (<[Z.to_nat i := (i + 1) mod n]> t))
      as (t' & Hrun & Hlen' & Hall); [lia | lia | by rewrite length_insert | |
                                       |].
    + intros j Hj. destruct (decide (j = i)) as [->|Hne].
      * by apply rd_insert_eq.
      * rewrite rd_insert_other by lia. apply Hdone. lia.
    + intros j Hj. rewrite rd_insert_other by lia. apply Hfree. lia.
    + exists t'. by split.
Qed.

(** X16. Inserting the moves [i -> (i+1) mod n] for [i = 0 .. n-1], in
    this order, into a well-shaped undirected board with at least three
    cells and all primary slots free builds a board that both [IsTour]
    and [IsTourney] accept. *)
Theorem insert_cycle_is_tour (nd : bool) (b : CBaseBoard) :
  board_shape b → IsUndirected b = true → 3 ≤ m_nSize b →
  (∀ j, valid_cell b j → ∃ v, rd (m_nMove b) j = Ok v ∧ v < 0) →
  ∃ b', insert_moves nd (cycle_moves (m_nSize b)) b = Ok b'
    ∧ board_shape b' ∧ IsUndirected b' = true
    ∧ primary_cycle b'
    ∧ IsTour b' = Ok true ∧ IsTourney b' = Ok true.
Proof.
  intros Hb Hu Hn Hfree.
  destruct (insert_cycle_loop nd b (m_nSize b) Hb Hu eq_refl
              (Z.to_nat (m_nSize b)) 0 (m_nMove b))
    as (t & Hrun & Hlen & Hall); [lia | lia | done | intros j Hj; lia | |].
  { intros j Hj. by apply Hfree. }
  rewrite Z2Nat.id, with_move_id in Hrun by lia.
  exists (with_move b t). split; [done|].
  assert (Hbt : board_shape (with_move b t)) by by apply with_move_shape.
  assert (Hcyc : primary_cycle (with_move b t)) by (intros j Hj; by apply Hall).
  destruct (primary_cycle_hamiltonian (with_move b t) Hn Hcyc)
    as (cells & Hwalk & Hcells & Hvalid & Hnd).
  assert (Hall0 : Forall (λ c, valid_cell (with_move b t) c ∧ c ≠ 0) cells).
  { apply Forall_cons_1 in Hvalid as [_ Hvalid].
    apply NoDup_cons_1_1 in Hnd as H0.
    rewrite Forall_lookup in Hvalid. apply Forall_lookup. intros k c Hk.
    split; [by eapply Hvalid|]. intros ->. apply H0.
    by eapply list_elem_of_lookup_2. }
  repeat (split; [done|]). split.
  - by apply (IsTour_of_walk (with_move b t) Hbt cells).
  - apply bijective_IsTourney_undirected; [done | |].
    + simpl. unfold IsUndirected in Hu. by destruct (m_nMove2 b).
    + by apply (tour_bijective (with_move b t) cells).
Qed.

Lemma insert_cycle_is_tour_witness :
  ∃ b', insert_moves false (cycle_moves 4) (CBaseBoard_new 2 2) = Ok b'
    ∧ IsTour b' = Ok true.
Proof.
  change (CBaseBoard_new 2 2) with (board_of 2 2 [-1; -1; -1; -1] None).
  destruct (insert_cycle_is_tour false (board_of 2 2 [-1; -1; -1; -1] None)
              ltac:(concrete_shape) eq_refl ltac:(simpl; lia))
    as (b' & Hrun & _ & _ & _ & Htour & _).
  - intros j Hj. unfold valid_cell in Hj. simpl in Hj.
    assert (j = 0 ∨ j = 1 ∨ j = 2 ∨ j = 3) as [->|[->|[->| ->]]] by lia;
      (eexists; split; [reflexivity | lia]).
  - exists b'. by split.
Defined.

(** ** Orienting the cycles of a directed tourney *)

Section Orient.

Variable b : CBaseBoard.
Variable t2 : list Z.
Hypothesis Hb : board_shape b.
Hypothesis H2 : m_nMove2 b = Some t2.
Hypothesis Hg : simple_graph b t2.

Lemma slots c :
  valid_cell b c →
  ∃ x y, rd (m_nMove b) c = Ok x ∧ rd t2 c = Ok y
    ∧ valid_cell b x ∧ valid_cell b y ∧ x ≠ y ∧ x ≠ c ∧ y ≠ c.
Proof. apply Hg. Qed.

Lemma nbr_sym c a : valid_cell b c → nbr b t2 c a → nbr b t2 a c.
Proof. apply Hg. Qed.

Lemma nbr_source c a : nbr b t2 c a → valid_cell b c.
Proof.
  pose proof Hb as (_ & _ & _ & _ & Hl & Hl2). specialize (Hl2 _ H2).
  intros [H|H]; apply rd_Ok_bounds in H; unfold valid_cell; lia.
Qed.

Lemma nbr_valid c a :
  nbr b t2 c a → valid_cell b a ∧ a ≠ c ∧ a ≠ UNUSED.
Proof.
  intros Hn. pose proof (nbr_source c a Hn) as Hc.
  destruct (slots c Hc) as (x & y & Hx & Hy & Vx & Vy & Hxy & Hxc & Hyc).
  assert (a = x ∨ a = y) as [->| ->] by (destruct Hn; [left|right]; congruence);
    (split; [done|]; split; [done|]; unfold valid_cell, UNUSED in *; lia).
Qed.

Lemma other_spec c p :
  nbr b t2 c p →
  nbr b t2 c (other_nbr b t2 c p)
  ∧ other_nbr b t2 c p ≠ p
  ∧ (∀ x, nbr b t2 c x → x = p ∨ x = other_nbr b t2 c p)
  ∧ other_nbr b t2 c (other_nbr b t2 c p) = p.
Proof.
  intros Hn. pose proof (nbr_source c p Hn) as Hc.
  destruct (slots c Hc) as (x & y & Hx & Hy & Vx & Vy & Hxy & Hxc & Hyc).
  unfold other_nbr, nbr in *. rewrite Hx, Hy.
  destruct (Z.eqb_spec x p) as [->|Hxp].
  - repeat split; [by right | done | |].
    + intros z [Hz|Hz]; [left | right]; congruence.
    + destruct (Z.eqb_spec p y); [done | done].
  - assert (p = y) as -> by (destruct Hn; congruence).
    repeat split; [by left | done | |].
    + intros z [Hz|Hz]; [right | left]; congruence.
    + by rewrite Z.eqb_refl.
Qed.

Lemma other_not_self c p : valid_cell b c → other_nbr b t2 c p ≠ p.
Proof.
  intros Hc.
  destruct (slots c Hc) as (x & y & Hx & Hy & Vx & Vy & Hxy & Hxc & Hyc).
  unfold other_nbr. rewrite Hx, Hy.
  destruct (Z.eqb_spec x p); congruence.
Qed.

Lemma filled_source temp c a :
  Z.of_nat (length temp) = m_nSize b → filled temp c a → valid_cell b c.
Proof.
  intros Hl [H _]. apply rd_Ok_bounds in H. unfold valid_cell. lia.
Qed.

Lemma filled_insert temp i v c a :
  0 ≤ i < Z.of_nat (length temp) → rd temp i = Ok UNUSED →
  filled temp c a → filled (<[Z.to_nat i := v]> temp) c a ∧ c ≠ i.
Proof.
  intros Hi Hfree [Hc Ha].
  assert (c ≠ i) by (intros ->; congruence).
  split; [|done]. split; [|done]. rewrite rd_insert_other; [done | done | lia].
Qed.

Lemma filled_insert_inv temp i v c a :
  0 ≤ i < Z.of_nat (length temp) →
  filled (<[Z.to_nat i := v]> temp) c a →
  (c = i ∧ a = v) ∨ (c ≠ i ∧ filled temp c a).
Proof.
  intros Hi [Hc Ha]. destruct (decide (c = i)) as [->|Hne].
  - left. rewrite rd_insert_eq in Hc by done. split; congruence.
  - right. rewrite rd_insert_other in Hc by lia. by split.
Qed.

Lemma MakeUndirected_body_graph start s :
  cycle_inv b t2 start s →
  MakeUndirected_body b s
  = Ok (Continue {| ws_prev := ws_cur s;
                    ws_cur := other_nbr b t2 (ws_cur s) (ws_prev s);
                    ws_temp := <[Z.to_nat (ws_prev s) := ws_cur s]>
                                 (ws_temp s) |}).
Proof.
  intros [Hlen Hprev Hadj _ _ _ _ _ _ _].
  destruct (nbr_valid _ _ Hadj) as (Hcv & _ & _).
  destruct (slots _ Hcv) as (x & y & Hx & Hy & _).
  unfold MakeUndirected_body, other_nbr.
  rewrite wr_in_bounds by (unfold valid_cell in Hprev; lia).
  cbn [mbind res_bind]. rewrite Hx. cbn [mbind res_bind].
  rewrite (rd2_Some b t2 _ H2), Hy.
  by destruct (x =? ws_prev s).
Qed.

(** The walk has not been at [cur] before, unless [cur] is [start]. *)
Lemma cycle_inv_fresh start s :
  cycle_inv b t2 start s → ws_cur s ≠ start →
  rd (ws_temp s) (ws_cur s) = Ok UNUSED.
Proof.
  intros [Hlen Hprev Hadj Hfree Hnbr Hpred Hsucc Hfrom Hstart Hdone] Hne.
  destruct (nbr_valid _ _ Hadj) as (Hcv & Hcp & _).
  destruct (rd_in_bounds (ws_temp s) (ws_cur s)) as [a Ha];
    [unfold valid_cell in Hcv; lia|].
  destruct (decide (a = UNUSED)) as [->|Hau]; [done|]. exfalso.
  assert (Hf : filled (ws_temp s) (ws_cur s) a) by done.
  pose proof (Hnbr _ _ Hf) as Hca.
  destruct (other_spec _ _ Hca) as (_ & _ & Hall & _).
  destruct (Hall (ws_prev s) (nbr_sym _ _ Hprev Hadj)) as [Hpa|Hpo].
  - (* the slot of [cur] points back to [prev] *)
    subst a. destruct (Hsucc _ _ Hf) as [Hr|[_ Hr]].
    + rewrite Hfree in Hr. injection Hr as Hr.
      destruct (other_spec _ _ Hadj) as (Ho & _).
      destruct (nbr_valid _ _ Ho) as (_ & _ & ?). congruence.
    + by apply (other_not_self (ws_prev s) (ws_cur s) Hprev).
  - (* the cell before [cur] would be [prev], whose slot is free *)
    destruct (Hpred _ _ Hf) as [?|Hr]; [done|].
    rewrite <- Hpo, Hfree in Hr. injection Hr as Hr.
    unfold valid_cell, UNUSED in *. lia.
Qed.

Lemma cycle_inv_step start s :
  cycle_inv b t2 start s → ws_cur s ≠ start →
  cycle_inv b t2 start
    {| ws_prev := ws_cur s;
       ws_cur := other_nbr b t2 (ws_cur s) (ws_prev s);
       ws_temp := <[Z.to_nat (ws_prev s) := ws_cur s]> (ws_temp s) |}.
Proof.
  intros Hinv Hne. pose proof (cycle_inv_fresh start s Hinv Hne) as Hfresh.
  destruct Hinv as [Hlen Hprev Hadj Hfree Hnbr Hpred Hsucc Hfrom Hstart Hdone].
  destruct (nbr_valid _ _ Hadj) as (Hcv & Hcp & Hcu).
  pose proof (nbr_sym _ _ Hprev Hadj) as Hback.
  destruct (other_spec _ _ Hback) as (Honbr & Hone & _ & _).
  assert (Hpb : 0 ≤ ws_prev s < Z.of_nat (length (ws_temp s)))
    by (unfold valid_cell in Hprev; lia).
  assert (Hnew : filled (<[Z.to_nat (ws_prev s) := ws_cur s]> (ws_temp s))
                   (ws_prev s) (ws_cur s))
    by (split; [by apply rd_insert_eq | done]).
  constructor; cbn [ws_prev ws_cur ws_temp].
  - by rewrite length_insert.
  - done.
  - done.
  - rewrite rd_insert_other; [done | done | lia].
  - intros c a [[-> ->]|[Hc Hf]]%filled_insert_inv; [done | by apply Hnbr | done].
  - intros c a [[-> ->]|[Hc Hf]]%filled_insert_inv; [| |done].
    + destruct Hfrom as [?|(p & Hp & Hcur)]; [by left | right].
      pose proof (Hnbr _ _ Hp) as Hpn.
      pose proof (filled_source _ _ _ Hlen Hp) as Hpv.
      destruct (other_spec _ _ (nbr_sym _ _ Hpv Hpn)) as (_ & _ & _ & Hinvol).
      assert (E : other_nbr b t2 (ws_prev s) (ws_cur s) = p)
        by (rewrite Hcur; exact Hinvol).
      rewrite E.
      by destruct (filled_insert _ _ (ws_cur s) _ _ Hpb Hfree Hp) as [[? _] _].
    + destruct (Hpred _ _ Hf) as [?|Hr]; [by left | right].
      rewrite rd_insert_other; [done | | lia].
      intros E. rewrite <- E, Hfree in Hr. injection Hr as Hr.
      pose proof (filled_source _ _ _ Hlen Hf) as Hv.
      unfold valid_cell, UNUSED in *. lia.
  - intros c a [[-> ->]|[Hc Hf]]%filled_insert_inv; [by right | | done].
    left. destruct (Hsucc _ _ Hf) as [Hr|[-> Hr]].
    + rewrite rd_insert_other; [done | | lia].
      intros E. rewrite <- E, Hfree in Hr. injection Hr as Hr.
      pose proof (Hnbr _ _ Hf) as Hca.
      pose proof (filled_source _ _ _ Hlen Hf) as Hv.
      destruct (other_spec _ _ (nbr_sym _ _ Hv Hca)) as (Ho & _).
      destruct (nbr_valid _ _ Ho) as (_ & _ & ?). congruence.
    + rewrite rd_insert_eq by done. by rewrite Hr.
  - right. by exists (ws_prev s).
  - destruct Hstart as [E|(a & Ha)]; right.
    + exists (ws_cur s). by rewrite <- E.
    + exists a. by apply (filled_insert _ _ _ _ _ Hpb Hfree Ha).
  - intros c Hc. destruct (Hdone c Hc) as (a & Ha). exists a.
    by apply (filled_insert _ _ _ _ _ Hpb Hfree Ha).
Qed.

(** The cycle walk comes back to [start] before its fuel runs out. *)
Lemma MakeUndirected_walk_graph start fuel : ∀ s,
  cycle_inv b t2 start s →
  (free_slots (ws_temp s) ≤ fuel)%nat →
  ∃ s', while_ fuel (MakeUndirected_cond b start) (MakeUndirected_body b) s
        = Ok (Continue s')
    ∧ cycle_inv b t2 start s' ∧ ws_cur s' = start.
Proof.
  induction fuel as [|fuel IH]; intros s Hs Hfuel;
    pose proof (ci_adj _ _ _ _ Hs) as Hadj;
    destruct (nbr_valid _ _ Hadj) as (Hcv & _ & Hcu);
    assert (Hcond : MakeUndirected_cond b start s = negb (ws_cur s =? start))
      by (unfold MakeUndirected_cond;
          by rewrite (proj2 (shape_in_range b _ Hb) Hcv));
    simpl; rewrite Hcond;
    destruct (Z.eqb_spec (ws_cur s) start) as [E|E]; simpl; eauto.
  - pose proof (free_slots_pos _ _ (ci_free _ _ _ _ Hs)). lia.
  - rewrite (MakeUndirected_body_graph start s Hs). simpl. apply IH.
    + by apply cycle_inv_step.
    + simpl.
      pose proof (ci_free _ _ _ _ Hs) as [_ Hfree]%rd_Ok.
      pose proof (free_slots_fill _ _ (ws_cur s) Hfree Hcu). lia.
Qed.

(** The last write of a walk closes the cycle. *)
Lemma cycle_inv_close start s :
  cycle_inv b t2 start s → ws_cur s = start →
  oriented b t2 (start + 1)
    (<[Z.to_nat (ws_prev s) := ws_cur s]> (ws_temp s)).
Proof.
  intros [Hlen Hprev Hadj Hfree Hnbr Hpred Hsucc Hfrom Hstart Hdone] Hend.
  destruct (nbr_valid _ _ Hadj) as (Hcv & Hcp & Hcu).
  pose proof (nbr_sym _ _ Hprev Hadj) as Hback.
  assert (Hpb : 0 ≤ ws_prev s < Z.of_nat (length (ws_temp s)))
    by (unfold valid_cell in Hprev; lia).
  assert (Hps : ws_prev s ≠ start) by congruence.
  destruct Hstart as [?|(a0 & Ha0)]; [done|].
  destruct Hfrom as [?|(p & Hp & Hcur)]; [done|].
  pose proof (Hnbr _ _ Ha0) as Hsa.
  (* [prev] is the neighbour of [start] that [start] does not point to *)
  assert (Hpa : ws_prev s ≠ a0).
  { intros <-. destruct (Hsucc _ _ Ha0) as [Hr|[_ Hr]].
    - rewrite Hfree in Hr. injection Hr as Hr.
      rewrite <- Hend in Hr.
      destruct (other_spec _ _ Hadj) as (Ho & _).
      destruct (nbr_valid _ _ Ho) as (_ & _ & ?). congruence.
    - rewrite <- Hend in Hr.
      by apply (other_not_self (ws_prev s) (ws_cur s) Hprev). }
  destruct (other_spec _ _ Hsa) as (_ & _ & Hall & _).
  rewrite <- Hend in Hall.
  destruct (Hall _ Hback) as [?|Hpo]; [done|]. rewrite Hend in Hpo.
  constructor.
  - by rewrite length_insert.
  - intros c a [[-> ->]|[Hc Hf]]%filled_insert_inv; [done | by apply Hnbr | done].
  - intros c a [[-> ->]|[Hc Hf]]%filled_insert_inv; [| |done].
    + pose proof (Hnbr _ _ Hp) as Hpn.
      pose proof (filled_source _ _ _ Hlen Hp) as Hpv.
      destruct (other_spec _ _ (nbr_sym _ _ Hpv Hpn)) as (_ & _ & _ & Hinvol).
      assert (E : other_nbr b t2 (ws_prev s) (ws_cur s) = p)
        by (rewrite Hcur; exact Hinvol).
      rewrite E.
      by destruct (filled_insert _ _ (ws_cur s) _ _ Hpb Hfree Hp) as [[? _] _].
    + destruct (Hpred _ _ Hf) as [->|Hr].
      * assert (a = a0) as -> by (destruct Hf, Ha0; congruence).
        rewrite <- Hpo, Hend. by apply rd_insert_eq.
      * rewrite rd_insert_other; [done | | lia].
        intros E. rewrite <- E, Hfree in Hr. injection Hr as Hr.
        pose proof (filled_source _ _ _ Hlen Hf) as Hv.
        unfold valid_cell, UNUSED in *. lia.
  - intros c a [[-> ->]|[Hc Hf]]%filled_insert_inv; [| |done].
    + rewrite Hend. rewrite rd_insert_other by lia.
      destruct Ha0 as [-> _]. f_equal.
      destruct (other_spec _ _ Hsa) as (_ & _ & _ & Hinvol).
      by rewrite Hpo, Hinvol.
    + destruct (Hsucc _ _ Hf) as [Hr|[-> Hr]].
      * rewrite rd_insert_other; [done | | lia].
        intros E. rewrite <- E, Hfree in Hr. injection Hr as Hr.
        pose proof (Hnbr _ _ Hf) as Hca.
        pose proof (filled_source _ _ _ Hlen Hf) as Hv.
        destruct (other_spec _ _ (nbr_sym _ _ Hv Hca)) as (Ho & _).
        destruct (nbr_valid _ _ Ho) as (_ & _ & ?). congruence.
      * rewrite rd_insert_eq by done. by rewrite Hr.
  - intros c Hc. destruct (decide (c = start)) as [->|Hcs].
    + exists a0. by apply (filled_insert _ _ _ _ _ Hpb Hfree Ha0).
    + destruct (Hdone c ltac:(lia)) as (a & Ha). exists a.
      by apply (filled_insert _ _ _ _ _ Hpb Hfree Ha).
Qed.

Lemma MakeUndirected_loop_graph fuel (k : nat) : ∀ start temp,
  (Z.to_nat (m_nSize b) ≤ fuel)%nat →
  0 ≤ start → start + Z.of_nat k = m_nSize b →
  oriented b t2 start temp →
  ∃ temp',
    for_ k start (λ _, true) (MakeUndirected_step fuel b) temp = Ok temp'
    ∧ oriented b t2 (m_nSize b) temp'.
Proof.
  induction k as [|k IH]; intros start temp Hfuel Hs0 Hsk Hinv0.
  - exists temp. split; [done|]. by replace (m_nSize b) with start by lia.
  - cbn [for_].
    assert (Hsv : valid_cell b start) by (unfold valid_cell; lia).
    assert (Hstep : ∃ temp1, MakeUndirected_step fuel b start temp = Ok temp1
                             ∧ oriented b t2 (start + 1) temp1).
    { destruct Hinv0 as [Hlen Hnbr Hpred Hsucc Hdone].
      destruct (rd_in_bounds temp start ltac:(unfold valid_cell in Hsv; lia))
        as [v Hv].
      unfold MakeUndirected_step. rewrite Hv. cbn [mbind res_bind].
      destruct (Z.eqb_spec v UNUSED) as [->|Hvu].
      - destruct (slots start Hsv) as (cur & y & Hcur & _).
        rewrite Hcur. cbn [mbind res_bind].
        destruct (MakeUndirected_walk_graph start fuel
                    {| ws_prev := start; ws_cur := cur; ws_temp := temp |})
          as (s' & -> & Hs' & Hend).
        { constructor; cbn [ws_prev ws_cur ws_temp]; try done.
          - by left.
          - intros c a Hf. right. by apply Hpred.
          - intros c a Hf. left. by apply Hsucc.
          - by left.
          - by left. }
        { simpl. pose proof (free_slots_length temp). lia. }
        cbn [mbind res_bind].
        pose proof (ci_prev _ _ _ _ Hs') as Hpv.
        rewrite (proj2 (shape_in_range b _ Hb) Hpv).
        rewrite (proj2 (shape_in_range b (ws_cur s') Hb))
          by (by rewrite Hend).
        cbn [andb].
        rewrite wr_in_bounds
          by (pose proof (ci_len _ _ _ _ Hs'); unfold valid_cell in Hpv; lia).
        eexists. split; [done|]. by apply cycle_inv_close.
      - exists temp. split; [done|]. constructor; try done.
        intros c Hc. destruct (decide (c = start)) as [->|Hcs].
        + by exists v.
        + apply Hdone. lia. }
    destruct Hstep as (temp1 & -> & Hinv1). cbn [mbind res_bind].
    apply IH; [done | lia | lia | done].
Qed.

(** When all cells are done the new table is a bijection of the cells
    and records the same moves. *)
Lemma oriented_done temp :
  oriented b t2 (m_nSize b) temp →
  bijective_table (m_nSize b) temp
  ∧ ∀ c a, valid_cell b c →
      nbr b t2 c a ↔ rd temp c = Ok a ∨ rd temp a = Ok c.
Proof.
  intros [Hlen Hnbr Hpred Hsucc Hdone].
  assert (Hall : ∀ c, valid_cell b c → ∃ a, filled temp c a)
    by (intros c Hc; by apply Hdone).
  assert (Hfill : ∀ c a, rd temp c = Ok a → filled temp c a).
  { intros c a Hc. pose proof (rd_Ok_bounds _ _ _ Hc).
    destruct (Hall c) as (a' & Ha'); [unfold valid_cell; lia|].
    destruct Ha' as [Ha' ?]. split; [done | congruence]. }
  split; [split; [done | split; [|split]]|].
  - apply Forall_lookup. intros i a Hi.
    pose proof (lookup_lt_Some _ _ _ Hi).
    assert (Hr : rd temp (Z.of_nat i) = Ok a)
      by (apply rd_Ok; split; [lia | by rewrite Nat2Z.id]).
    by destruct (nbr_valid _ _ (Hnbr _ _ (Hfill _ _ Hr))) as (? & _).
  - apply NoDup_alt. intros i j a Hi Hj.
    pose proof (lookup_lt_Some _ _ _ Hi). pose proof (lookup_lt_Some _ _ _ Hj).
    assert (Hri : filled temp (Z.of_nat i) a)
      by (apply Hfill, rd_Ok; split; [lia | by rewrite Nat2Z.id]).
    assert (Hrj : filled temp (Z.of_nat j) a)
      by (apply Hfill, rd_Ok; split; [lia | by rewrite Nat2Z.id]).
    pose proof (Hsucc _ _ Hri) as Si. pose proof (Hsucc _ _ Hrj) as Sj.
    pose proof (filled_source _ _ _ Hlen Hri) as Vi.
    pose proof (filled_source _ _ _ Hlen Hrj) as Vj.
    destruct (other_spec _ _ (nbr_sym _ _ Vi (Hnbr _ _ Hri)))
      as (_ & _ & _ & Ii).
    destruct (other_spec _ _ (nbr_sym _ _ Vj (Hnbr _ _ Hrj)))
      as (_ & _ & _ & Ij).
    assert (other_nbr b t2 a (Z.of_nat i) = other_nbr b t2 a (Z.of_nat j))
      as E by congruence.
    rewrite E in Ii. assert (Z.of_nat i = Z.of_nat j) by congruence. lia.
  - intros c Hc. destruct (Hall c Hc) as (a & Ha).
    pose proof (Hpred _ _ Ha) as [_ Hr]%rd_Ok.
    by eapply list_elem_of_lookup_2.
  - intros c a Hc. split.
    + intros Hn. destruct (Hall c Hc) as (x & Hx).
      destruct (other_spec _ _ (Hnbr _ _ Hx)) as (_ & _ & Hboth & _).
      destruct (Hboth a Hn) as [->| ->].
      * left. by destruct Hx.
      * right. by apply Hpred.
    + intros [Hr|Hr].
      * by apply Hnbr, Hfill.
      * pose proof (Hfill _ _ Hr) as Hf.
        apply nbr_sym; [by eapply filled_source | by apply Hnbr].
Qed.

End Orient.

(** *** The degree test on such a graph *)

Lemma elem_of_entries k l i v :
  (i, v) ∈ entries_from k l ↔ k ≤ i ∧ rd l (i - k) = Ok v.
Proof.
  revert k. induction l as [|x l IH]; intros k.
  - cbn [entries_from]. split; [by intros ?%elem_of_nil|].
    intros [_ [_ H]%rd_Ok]. done.
  - cbn [entries_from]. rewrite elem_of_cons, IH, !rd_Ok. split.
    + intros [[= -> ->]|(Hk & Hi & Hl)].
      * split; [lia|]. split; [lia|]. by rewrite Z.sub_diag.
      * split; [lia|]. split; [lia|].
        replace (Z.to_nat (i - k)) with (S (Z.to_nat (i - (k + 1)))) by lia.
        done.
    + intros (Hk & Hi & Hl). destruct (decide (i = k)) as [->|Hne].
      * left. rewrite Z.sub_diag in Hl. simpl in Hl. congruence.
      * right. split; [lia|]. split; [lia|].
        replace (Z.to_nat (i - k)) with (S (Z.to_nat (i - (k + 1)))) in Hl
          by lia.
        done.
Qed.

Lemma NoDup_entries k l : NoDup (entries_from k l).
Proof.
  revert k. induction l as [|x l IH]; intros k; cbn [entries_from].
  - constructor.
  - apply NoDup_cons_2; [|apply IH].
    intros [Hk _]%elem_of_entries. lia.
Qed.

Lemma count_dest_filter es c :
  count_dest es c = Z.of_nat (length (filter (λ e : Z * Z, e.2 = c) es)).
Proof.
  unfold count_dest. induction es as [|e es IH]; [done|].
  cbn [foldr]. rewrite IH. destruct (Z.eqb_spec e.2 c) as [E|E].
  - rewrite filter_cons_True by done. simpl length. unfold indicator. lia.
  - rewrite filter_cons_False by done. unfold indicator. lia.
Qed.

Section GraphDegree.

Variable b : CBaseBoard.
Variable t2 : list Z.
Hypothesis Hb : board_shape b.
Hypothesis H2 : m_nMove2 b = Some t2.
Hypothesis Hg : simple_graph b t2.

Lemma graph_degree c :
  valid_cell b c →
  count_dest (entries (m_nMove b) ++ entries t2) c = 2.
Proof.
  intros Hc. rewrite count_dest_filter.
  destruct (slots b t2 Hg c Hc)
    as (x & y & Hx & Hy & Vx & Vy & Hxy & Hxc & Hyc).
  assert (Hnx : nbr b t2 c x) by by left.
  assert (Hny : nbr b t2 c y) by by right.
  destruct (other_spec b t2 Hb H2 Hg c x Hnx) as (_ & _ & Hboth & _).
  assert (Hoy : other_nbr b t2 c x = y).
  { destruct (Hboth y Hny) as [?|?]; [congruence | done]. }
  rewrite Hoy in Hboth.
  assert (Hperm :
    filter (λ e : Z * Z, e.2 = c) (entries (m_nMove b) ++ entries t2)
    ≡ₚ [(x, c); (y, c)]).
  { apply list.NoDup_Permutation.
    - apply list.NoDup_filter. apply list.NoDup_app.
      split; [apply NoDup_entries|]. split; [|apply NoDup_entries].
      intros [i v] [_ Hm]%elem_of_entries [_ Ht]%elem_of_entries.
      rewrite Z.sub_0_r in Hm, Ht.
      pose proof (rd_Ok_bounds _ _ _ Hm) as Hi.
      destruct (slots b t2 Hg i) as (x' & y' & Hx' & Hy' & _ & _ & Hne & _).
      { pose proof Hb as (_ & _ & _ & _ & Hl & _). unfold valid_cell. lia. }
      congruence.
    - apply NoDup_cons_2; [|apply list.NoDup_singleton].
      intros [= E]%list_elem_of_singleton. done.
    - intros [i v]. rewrite list_elem_of_filter, elem_of_app. cbn [snd].
      unfold entries. rewrite !elem_of_entries, !Z.sub_0_r.
      rewrite !elem_of_cons, elem_of_nil. split.
      + intros [-> Hin].
        assert (Hic : nbr b t2 i c) by (destruct Hin as [[_ ?]|[_ ?]];
                                        [by left | by right]).
        pose proof (nbr_source b t2 Hb H2 i c Hic) as Hi.
        destruct (Hboth i (nbr_sym b t2 Hg i c Hi Hic)) as [->| ->]; auto.
      + intros [[= -> ->]|[[= -> ->]|[]]].
        * split; [done|].
          destruct (nbr_sym b t2 Hg c x Hc Hnx) as [?|?];
            [left | right]; (split; [unfold valid_cell in Vx; lia | done]).
        * split; [done|].
          destruct (nbr_sym b t2 Hg c y Hc Hny) as [?|?];
            [left | right]; (split; [unfold valid_cell in Vy; lia | done]). }
  by rewrite Hperm.
Qed.

Lemma graph_IsTourney : IsTourney b = Ok true.
Proof.
  destruct (IsTourney_spec b Hb) as (r & -> & Hr). f_equal. apply Hr.
  unfold all_cells_used, degree, degree_destinations, all_entries,
    IsUndirected.
  rewrite H2. cbn [default]. unfold id, entries. split.
  - pose proof Hb as (_ & _ & _ & _ & Hl & Hl2). specialize (Hl2 _ H2).
    apply Forall_app. split; apply Forall_entries_valid, Forall_lookup;
      intros i v Hi; pose proof (lookup_lt_Some _ _ _ Hi);
      (destruct (slots b t2 Hg (Z.of_nat i))
         as (x & y & [_ Hx]%rd_Ok & [_ Hy]%rd_Ok & Vx & Vy & _);
       [unfold valid_cell; lia|]);
      rewrite Nat2Z.id in Hx, Hy.
    + by assert (v = x) as -> by congruence.
    + by assert (v = y) as -> by congruence.
  - intros c Hc. by apply graph_degree.
Qed.

End GraphDegree.

Lemma with_move2_shape_None b :
  board_shape b → board_shape (with_move2 b None).
Proof.
  unfold board_shape. simpl. intros (?&?&?&?&?&?).
  repeat split; try done.
Qed.

(** X17. [MakeUndirected] on a well-shaped directed board whose two
    tables record a simple graph with two neighbours per cell (the two
    slots of every cell hold two different cells, and every move is
    recorded at both of its ends): the test [IsTourney] passes, every
    cycle walk ends, and the call returns an undirected board whose
    primary table is a bijection of the cells and records exactly the
    moves of the directed board, each at one of its ends; [IsTourney]
    accepts that board too. *)
Theorem MakeUndirected_orients (fuel : nat) (b : CBaseBoard) (t2 : list Z) :
  board_shape b → m_nMove2 b = Some t2 → simple_graph b t2 →
  (Z.to_nat (m_nSize b) ≤ fuel)%nat →
  ∃ temp,
    MakeUndirected fuel b = Ok (with_move2 (with_move b temp) None)
    ∧ bijective_table (m_nSize b) temp
    ∧ (∀ c a, valid_cell b c →
         nbr b t2 c a ↔ rd temp c = Ok a ∨ rd temp a = Ok c)
    ∧ IsTourney (with_move2 (with_move b temp) None) = Ok true.
Proof.
  intros Hb H2 Hg Hfuel. unfold MakeUndirected.
  rewrite (IsDirected_Some b t2 H2), (graph_IsTourney b t2 Hb H2 Hg).
  cbn [mbind res_bind]. cbv zeta.
  pose proof (shape_size b Hb) as Hn.
  destruct (MakeUndirected_loop_graph b t2 Hb H2 Hg fuel
              (Z.to_nat (m_nSize b)) 0
              (replicate (Z.to_nat (m_nSize b)) UNUSED))
    as (temp & -> & Hdone); [done | done | lia | |].
  - assert (Hfree : ∀ c a,
              ¬ filled (replicate (Z.to_nat (m_nSize b)) UNUSED) c a).
    { intros c a [[_ Hc]%rd_Ok Ha]. apply lookup_replicate in Hc as [-> _].
      done. }
    constructor.
    + rewrite length_replicate. lia.
    + intros c a Hf. by destruct (Hfree c a).
    + intros c a Hf. by destruct (Hfree c a).
    + intros c a Hf. by destruct (Hfree c a).
    + intros c Hc. lia.
  - cbn [mbind res_bind].
    destruct (oriented_done b t2 Hb H2 Hg temp Hdone) as [Hbij Hedges].
    exists temp. split; [done|]. split; [done|]. split; [done|].
    apply bijective_IsTourney_undirected; [| done | done].
    apply with_move2_shape_None, with_move_shape; [done|].
    destruct Hbij as (Hl & _). pose proof Hb as (_ & _ & _ & _ & Hl' & _). lia.
Qed.

Lemma MakeUndirected_orients_witness :
  ∃ temp,
    MakeUndirected 4 (board_of 2 2 [1; 0; 1; 2] (Some [3; 2; 3; 0]))
    = Ok (with_move2
            (with_move (board_of 2 2 [1; 0; 1; 2] (Some [3; 2; 3; 0])) temp)
            None)
    ∧ bijective_table 4 temp.
Proof.
  destruct (MakeUndirected_orients 4
              (board_of 2 2 [1; 0; 1; 2] (Some [3; 2; 3; 0])) [3; 2; 3; 0]
              ltac:(concrete_shape) eq_refl)
    as (temp & Hrun & Hbij & _).
  - split.
    + intros c Hc. unfold valid_cell in *. simpl in Hc.
      assert (c = 0 ∨ c = 1 ∨ c = 2 ∨ c = 3) as [->|[->|[->| ->]]] by lia;
        (eexists _, _; split; [reflexivity|]; split; [reflexivity|];
         simpl; lia).
    + intros c a Hc Hn. unfold valid_cell in Hc. simpl in Hc.
      assert (c = 0 ∨ c = 1 ∨ c = 2 ∨ c = 3) as [->|[->|[->| ->]]] by lia;
        destruct Hn as [[= <-]|[= <-]];
        first [by left | by right].
  - simpl. lia.
  - by exists temp.
Defined.
